(** * Parking-app: a shallow embedding of [models.py] and [app.py]

    The development follows the two source files.  The first half holds the
    definitions: Python's [float] and [datetime] as far as the billing
    arithmetic uses them, the three tables of [models.py] that the booking
    logic touches, a small monad for a request running against the
    SQLAlchemy session, and the views of [app.py].  The second half holds the
    lemmas about them. *)

From Stdlib Require Import ZArith QArith Qround Qpower Qabs Bool List String Ascii.
From Stdlib Require Import DecimalString DecimalN Lia Lqa.
Import ListNotations.

Open Scope Z_scope.

(* ================================================================== *)
(** * Python floats *)
(* ================================================================== *)

(** A binary64 number is kept by its exact rational value.  The sign of zero
    is not represented: no computation of the program observes it. *)
Inductive pyfloat : Type :=
| FFin (q : Q)
| FInf (negative : bool)
| FNan.

(** Nearest integer, ties to the even one. *)
Definition round_half_even (x : Q) : Z :=
  let f := Qfloor x in
  match Qcompare (x - inject_Z f) (1 # 2) with
  | Lt => f
  | Gt => f + 1
  | Eq => if Z.even f then f else f + 1
  end.

(** [floor (log2 x)] for a positive [x]. *)
Definition ilog2 (x : Q) : Z :=
  let k := Z.log2 (Qnum x) - Z.log2 (Zpos (Qden x)) in
  if Qle_bool (2 ^ k) x then k else k - 1.

(** Exponent of the unit in the last place: 53 significant bits, the
    smallest subnormal being [2 ^ -1074]. *)
Definition ulp_exp (x : Q) : Z := Z.max (ilog2 x - 52) (-1074).

(** The multiple of the unit in the last place nearest to a positive real,
    ties to the even multiple. *)
Definition nearest (x : Q) : Q :=
  (inject_Z (round_half_even (x / 2 ^ ulp_exp x)) * 2 ^ ulp_exp x)%Q.

(** Round a positive real to the nearest binary64, ties to even; what
    reaches [2 ^ 1024] overflows to infinity. *)
Definition rnd_pos (x : Q) : pyfloat :=
  if Qle_bool (2 ^ 1024) (nearest x) then FInf false else FFin (Qred (nearest x)).

Definition fneg (a : pyfloat) : pyfloat :=
  match a with
  | FFin q => FFin (- q)
  | FInf s => FInf (negb s)
  | FNan => FNan
  end.

(** The correctly rounded binary64 of a real number. *)
Definition rnd (x : Q) : pyfloat :=
  match Qcompare x 0 with
  | Eq => FFin 0
  | Gt => rnd_pos x
  | Lt => fneg (rnd_pos (- x))
  end.

(** [a * b] *)
Definition fmul (a b : pyfloat) : pyfloat :=
  match a, b with
  | FNan, _ | _, FNan => FNan
  | FFin x, FFin y => rnd (x * y)
  | FInf s, FInf t => FInf (xorb s t)
  | FInf s, FFin y | FFin y, FInf s =>
      match Qcompare y 0 with
      | Eq => FNan
      | Gt => FInf s
      | Lt => FInf (negb s)
      end
  end.

(** [a / b].  Python raises [ZeroDivisionError] on a zero divisor; the only
    divisor in the program is the literal [3600], so that case is given the
    value [FNan] here and never taken. *)
Definition fdiv (a b : pyfloat) : pyfloat :=
  match a, b with
  | FNan, _ | _, FNan => FNan
  | FFin x, FFin y => if Qeq_bool y 0 then FNan else rnd (x / y)
  | FInf s, FFin y => match Qcompare y 0 with Lt => FInf (negb s) | _ => FInf s end
  | FFin _, FInf _ => FFin 0
  | FInf _, FInf _ => FNan
  end.

(** [round(a, 2)]: the decimal with two fractional digits nearest to the
    exact value of [a] (ties to even), converted back to binary64.  Infinities
    and NaN round to themselves. *)
Definition round2 (a : pyfloat) : pyfloat :=
  match a with
  | FFin q => rnd (inject_Z (round_half_even (q * 100)) / 100)
  | _ => a
  end.

(** [a <= b] *)
Definition fle (a b : pyfloat) : bool :=
  match a, b with
  | FNan, _ | _, FNan => false
  | FInf true, _ => true
  | FInf false, FInf false => true
  | FInf false, _ => false
  | FFin _, FInf s => negb s
  | FFin x, FFin y => Qle_bool x y
  end.


(** The float of an integer literal. *)
Definition float_of_int (n : Z) : pyfloat := rnd (inject_Z n).

(* ================================================================== *)
(** * datetime *)
(* ================================================================== *)

(** A naive [datetime], as the number of microseconds since
    0001-01-01T00:00:00; a [timedelta] is a difference of two of them. *)
Definition datetime : Type := Z.
Definition timedelta : Type := Z.

(** One past [datetime.max], 9999-12-31T23:59:59.999999. *)
Definition datetime_end : Z := 3652059 * 86400 * 1000000.

Definition valid_datetime (t : datetime) : Prop := 0 <= t < datetime_end.

(** [timedelta.total_seconds()]: the microseconds divided by [10**6], a
    true division of two integers, which Python rounds correctly. *)
Definition total_seconds (td : timedelta) : pyfloat := rnd (td # 1000000).

(* ================================================================== *)
(** * models.py *)
(* ================================================================== *)

(** [db.Model]: every model has an integer primary key. *)
Class Model (R : Type) : Type := { pk : R -> Z }.

Module ParkingLot.
Record t : Type := mk {
  id : Z;
  name : string;
  location : string;
  total_spots : Z;
  price_per_hour : pyfloat
}.
End ParkingLot.

Module ParkingSpot.
Record t : Type := mk {
  id : Z;
  spot_number : string;
  lot_id : Z;
  is_occupied : bool
}.

Definition set_is_occupied (v : bool) (s : t) : t :=
  mk (id s) (spot_number s) (lot_id s) v.
End ParkingSpot.

Module ParkingBooking.
Record t : Type := mk {
  id : Z;
  user_id : Z;
  spot_id : Z;
  vehicle_number : string;
  entry_time : datetime;
  exit_time : option datetime;
  total_charge : option pyfloat;
  status : string
}.

Definition set_exit_time (v : option datetime) (b : t) : t :=
  mk (id b) (user_id b) (spot_id b) (vehicle_number b) (entry_time b)
     v (total_charge b) (status b).

Definition set_total_charge (v : option pyfloat) (b : t) : t :=
  mk (id b) (user_id b) (spot_id b) (vehicle_number b) (entry_time b)
     (exit_time b) v (status b).

Definition set_status (v : string) (b : t) : t :=
  mk (id b) (user_id b) (spot_id b) (vehicle_number b) (entry_time b)
     (exit_time b) (total_charge b) v.
End ParkingBooking.

#[export] Instance ParkingLot_Model : Model ParkingLot.t :=
  {| pk := ParkingLot.id |}.
#[export] Instance ParkingSpot_Model : Model ParkingSpot.t :=
  {| pk := ParkingSpot.id |}.
#[export] Instance ParkingBooking_Model : Model ParkingBooking.t :=
  {| pk := ParkingBooking.id |}.

(** A table is the list of its rows in rowid order, which is the order in
    which SQLite scans it when a query has no ORDER BY. *)
Section Tables.
Context {R : Type} `{Model R}.

(** [Query.get(k)] *)
Definition get (t : list R) (k : Z) : option R :=
  find (fun r => pk r =? k) t.

(** The rowid SQLite gives to the next inserted row of an
    [INTEGER PRIMARY KEY] table: one more than the largest in use. *)
Definition next_pk (t : list R) : Z :=
  1 + fold_right Z.max 0 (map pk t).

(** [INSERT]; the row is built from the key it receives. *)
Definition insert (row : Z -> R) (t : list R) : list R :=
  t ++ [row (next_pk t)].

(** [UPDATE ... WHERE id = pk r], as the unit of work flushes a changed
    object. *)
Definition update (r : R) (t : list R) : list R :=
  map (fun x => if pk x =? pk r then r else x) t.

(** [DELETE ... WHERE p] *)
Definition delete_where (p : R -> bool) (t : list R) : list R :=
  filter (fun x => negb (p x)) t.
End Tables.

(** The database: the tables [parking_lot], [parking_spot] and
    [parking_booking]. *)
Record DB : Type := mkDB {
  parking_lot : list ParkingLot.t;
  parking_spot : list ParkingSpot.t;
  parking_booking : list ParkingBooking.t
}.

Definition empty_db : DB := mkDB [] [] [].

(* ================================================================== *)
(** * The request monad *)
(* ================================================================== *)

(** What [login] stores in the Flask session; [logout] clears it, so the
    session is either absent or complete. *)
Record Session : Type := mkSession {
  sess_user_id : Z;
  sess_username : string;
  sess_is_admin : bool
}.

(** What a request reads from its surroundings.  [entry_time_default] is the
    value of the expression [datetime.now()] in
    [entry_time = db.Column(..., default=datetime.now())]: it is evaluated
    once, when [models.py] is imported, and the column default is that
    value. *)
Record Env : Type := mkEnv {
  session : option Session;
  now : datetime;
  entry_time_default : datetime;
  commit_results : list bool
}.

Inductive Flash : Type :=
| Message (text category : string)
| ThankYou (total_charge : option pyfloat).

(** [stored] is the committed database, [work] what the SQLAlchemy session
    sees (the committed rows with the pending changes applied), [commits]
    tells, for each coming [commit()], whether the database accepts it;
    when the list runs out every commit succeeds. *)
Record State : Type := mkState {
  stored : DB;
  work : DB;
  commits : list bool;
  flashed : list Flash
}.

Inductive Exn : Type :=
| NotFound
| KeyError
| AttributeError
| TypeError
| DatabaseError.

Inductive Outcome (A : Type) : Type :=
| Return (a : A)
| Raise (e : Exn).
Arguments Return {A} a.
Arguments Raise {A} e.

Definition M (A : Type) : Type := State -> Outcome A * State.

Definition ret {A} (a : A) : M A := fun s => (Return a, s).

Definition bind {A B} (m : M A) (f : A -> M B) : M B :=
  fun s =>
    match m s with
    | (Return a, s') => f a s'
    | (Raise e, s') => (Raise e, s')
    end.

Declare Scope req_scope.
Delimit Scope req_scope with req.
Notation "x <- m ;; k" := (bind m (fun x => k))
  (at level 61, m at next level, right associativity) : req_scope.
Notation "m ;; k" := (bind m (fun _ => k))
  (at level 61, right associativity) : req_scope.
Open Scope req_scope.

Definition raise {A} (e : Exn) : M A := fun s => (Raise e, s).

(** [try: body except: handler] *)
Definition try_except {A} (body handler : M A) : M A :=
  fun s =>
    match body s with
    | (Return a, s') => (Return a, s')
    | (Raise _, s') => handler s'
    end.

Definition flash (f : Flash) : M unit :=
  fun s => (Return tt, mkState (stored s) (work s) (commits s) (flashed s ++ [f])).

(** Read through the session. *)
Definition query {A} (f : DB -> A) : M A := fun s => (Return (f (work s)), s).

(** Change rows through the session; nothing is stored before [commit]. *)
Definition modify (f : DB -> DB) : M unit :=
  fun s => (Return tt, mkState (stored s) (f (work s)) (commits s) (flashed s)).

(** [db.session.commit()] *)
Definition commit : M unit :=
  fun s =>
    match commits s with
    | false :: rest => (Raise DatabaseError, mkState (stored s) (work s) rest (flashed s))
    | true :: rest => (Return tt, mkState (work s) (work s) rest (flashed s))
    | [] => (Return tt, mkState (work s) (work s) [] (flashed s))
    end.

(** [db.session.rollback()] *)
Definition rollback : M unit :=
  fun s => (Return tt, mkState (stored s) (stored s) (commits s) (flashed s)).

(** [Query.get_or_404] *)
Definition get_or_404 {R} `{Model R} (table : DB -> list R) (k : Z) : M R :=
  o <- query (fun d => get (table d) k) ;;
  match o with
  | Some r => ret r
  | None => raise NotFound
  end.

(** Reading an attribute of what a many-to-one relationship loaded: [None]
    has no attributes. *)
Definition attr_of {R} (o : option R) : M R :=
  match o with
  | Some r => ret r
  | None => raise AttributeError
  end.

Fixpoint for_each {A} (l : list A) (body : A -> M unit) : M unit :=
  match l with
  | [] => ret tt
  | x :: rest => body x ;; for_each rest body
  end.

(** [range(a, b)] *)
Definition range (a b : Z) : list Z :=
  map (fun k => a + Z.of_nat k) (seq 0 (Z.to_nat (b - a))).

Inductive Response : Type :=
| Redirect (endpoint : string)
| Render (template : string)
| ErrorPage (status : Z).

Definition View : Type := Env -> M Response.

(** A request from start to end: the view runs on the committed database;
    whatever it leaves uncommitted is dropped when the session is removed at
    the end of the request, and an exception that escapes becomes an error
    page. *)
Definition serve (v : View) (env : Env) (db : DB) : DB * Response * list Flash :=
  match v env (mkState db db (commit_results env) []) with
  | (Return r, s) => (stored s, r, flashed s)
  | (Raise NotFound, s) => (stored s, ErrorPage 404, flashed s)
  | (Raise _, s) => (stored s, ErrorPage 500, flashed s)
  end.


(** [session['user_id']] *)
Definition session_user_id (env : Env) : M Z :=
  match session env with
  | Some s => ret (sess_user_id s)
  | None => raise KeyError
  end.

(** [db.session.add(ParkingLot(...))]; the row is returned with the key it
    gets. *)
Definition add_parking_lot (row : Z -> ParkingLot.t) : M ParkingLot.t :=
  k <- query (fun d => next_pk (parking_lot d)) ;;
  modify (fun d => mkDB (insert row (parking_lot d)) (parking_spot d) (parking_booking d)) ;;
  ret (row k).

(** [db.session.add(ParkingSpot(...))] *)
Definition add_parking_spot (row : Z -> ParkingSpot.t) : M unit :=
  modify (fun d => mkDB (parking_lot d) (insert row (parking_spot d)) (parking_booking d)).

(** [db.session.add(ParkingBooking(...))] *)
Definition add_parking_booking (row : Z -> ParkingBooking.t) : M unit :=
  modify (fun d => mkDB (parking_lot d) (parking_spot d) (insert row (parking_booking d))).

(** A [ParkingSpot] object of the session with changed attributes. *)
Definition save_parking_spot (s : ParkingSpot.t) : M unit :=
  modify (fun d => mkDB (parking_lot d) (update s (parking_spot d)) (parking_booking d)).

(** A [ParkingBooking] object of the session with changed attributes. *)
Definition save_parking_booking (b : ParkingBooking.t) : M unit :=
  modify (fun d => mkDB (parking_lot d) (parking_spot d) (update b (parking_booking d))).

(* ================================================================== *)
(** * app.py *)
(* ================================================================== *)

(** A view that accepts GET and POST; only a POST carries the form. *)
Inductive Request (F : Type) : Type :=
| GET
| POST (form : F).
Arguments GET {F}.
Arguments POST {F} form.

Definition login_required (f : View) : View :=
  fun env =>
    match session env with
    | None =>
        flash (Message "Please login first" "error") ;;
        ret (Redirect "login")
    | Some _ => f env
    end.

Definition admin_required (f : View) : View :=
  fun env =>
    match session env with
    | Some s =>
        if sess_is_admin s then f env
        else flash (Message "Admin access required" "error") ;;
             ret (Redirect "login")
    | None =>
        flash (Message "Admin access required" "error") ;;
        ret (Redirect "login")
    end.

Definition admin_dashboard : View :=
  admin_required (fun _ => ret (Render "admin_dashboard.html")).

(** The decimal digits of a natural number. *)
Definition decimal (n : Z) : string :=
  NilZero.string_of_uint (N.to_uint (Z.to_N n)).

Fixpoint zeros (k : nat) : string :=
  match k with
  | O => EmptyString
  | S k' => String "0" (zeros k')
  end.

Definition zfill (width : nat) (s : string) : string :=
  (zeros (width - String.length s) ++ s)%string.

(** [f"{i:03d}"]: at least three characters, zeros after the sign. *)
Definition format_03d (i : Z) : string :=
  if i <? 0 then String "-" (zfill 2 (decimal (- i))) else zfill 3 (decimal i).

Record AddLotForm : Type := mkAddLotForm {
  form_name : string;
  form_location : string;
  form_total_spots : Z;
  form_price_per_hour : pyfloat
}.

Definition add_lot (req : Request AddLotForm) : View :=
  admin_required (fun _ =>
    match req with
    | POST form =>
        let name := form_name form in
        let location := form_location form in
        let total_spots := form_total_spots form in
        let price_per_hour := form_price_per_hour form in
        try_except
          (lot <- add_parking_lot (fun k =>
                    ParkingLot.mk k name location total_spots price_per_hour) ;;
           commit ;;
           for_each (range 1 (total_spots + 1)) (fun i =>
             add_parking_spot (fun k =>
               ParkingSpot.mk k (format_03d i) (ParkingLot.id lot) false)) ;;
           commit ;;
           flash (Message "Parking lot added successfully!" "success") ;;
           ret (Redirect "admin_dashboard"))
          (rollback ;;
           flash (Message "Error occurred while adding parking lot" "error") ;;
           ret (Render "add_lot.html"))
    | GET => ret (Render "add_lot.html")
    end).

Definition user_dashboard : View :=
  login_required (fun _ => ret (Render "user_dashboard.html")).

Record BookForm : Type := mkBookForm {
  form_lot_id : Z;
  form_vehicle_number : string
}.

(** [ParkingSpot.query.filter_by(lot_id=lot_id, is_occupied=False).first()] *)
Definition first_free_spot (lot_id : Z) (spots : list ParkingSpot.t)
  : option ParkingSpot.t :=
  find (fun s => (ParkingSpot.lot_id s =? lot_id) && negb (ParkingSpot.is_occupied s))
       spots.

Definition book_spot (req : Request BookForm) : View :=
  login_required (fun env =>
    match req with
    | POST form =>
        let lot_id := form_lot_id form in
        let vehicle_number := form_vehicle_number form in
        available_spot <- query (fun d => first_free_spot lot_id (parking_spot d)) ;;
        match available_spot with
        | Some spot =>
            uid <- session_user_id env ;;
            save_parking_spot (ParkingSpot.set_is_occupied true spot) ;;
            add_parking_booking (fun k =>
              ParkingBooking.mk k uid (ParkingSpot.id spot) vehicle_number
                (entry_time_default env) None None "active") ;;
            try_except
              (commit ;;
               flash (Message "Spot booked successfully!" "success") ;;
               ret (Redirect "user_dashboard"))
              (rollback ;;
               flash (Message "Error occurred while booking spot" "error") ;;
               ret (Render "book_spot.html"))
        | None =>
            flash (Message "No spots available in selected lot" "error") ;;
            ret (Render "book_spot.html")
        end
    | GET => ret (Render "book_spot.html")
    end).

(** [(exit_time - entry_time).total_seconds() / 3600] *)
Definition hours_parked (entry_time exit_time : datetime) : pyfloat :=
  fdiv (total_seconds (exit_time - entry_time)) (float_of_int 3600).

(** [round(hours_parked * price_per_hour, 2)] *)
Definition charge (entry_time exit_time : datetime) (price_per_hour : pyfloat)
  : pyfloat :=
  round2 (fmul (hours_parked entry_time exit_time) price_per_hour).

Definition is_nan (x : pyfloat) : bool :=
  match x with
  | FNan => true
  | _ => false
  end.

(** What a [db.Float] column of SQLite keeps of a Python float: a number or
    an infinity as it is, NULL for nan, which SQLite binds as NULL. *)
Definition sqlite_real (x : pyfloat) : option pyfloat :=
  if is_nan x then None else Some x.

(** [f'{x:.2f}'] on a nullable float attribute: the number to print;
    [None] has no such format and Python raises [TypeError]. *)
Definition format_2f (x : option pyfloat) : M pyfloat :=
  match x with
  | Some c => ret c
  | None => raise TypeError
  end.

(** [total_charge] is assigned [round(...)] and is read again only after
    [commit()], which expires the attribute: the read reloads what the
    database stored, so the row carries [sqlite_real total_charge] from the
    assignment on.  The f-string of the thank-you notice is inside the [try]:
    when it raises, the handler runs after the commit, with nothing left to
    roll back. *)
Definition exit_parking (booking_id : Z) : View :=
  login_required (fun env =>
    booking <- get_or_404 parking_booking booking_id ;;
    uid <- session_user_id env ;;
    if negb (ParkingBooking.user_id booking =? uid) then
      flash (Message "Unauthorized access" "error") ;;
      ret (Redirect "user_dashboard")
    else
      let exit_time := now env in
      let booking := ParkingBooking.set_exit_time (Some exit_time) booking in
      spot <- (o <- query (fun d => get (parking_spot d) (ParkingBooking.spot_id booking)) ;;
               attr_of o) ;;
      lot <- (o <- query (fun d => get (parking_lot d) (ParkingSpot.lot_id spot)) ;;
              attr_of o) ;;
      let price_per_hour := ParkingLot.price_per_hour lot in
      let total_charge :=
        charge (ParkingBooking.entry_time booking) exit_time price_per_hour in
      let booking :=
        ParkingBooking.set_total_charge (sqlite_real total_charge) booking in
      let booking := ParkingBooking.set_status "completed" booking in
      save_parking_booking booking ;;
      save_parking_spot (ParkingSpot.set_is_occupied false spot) ;;
      try_except
        (commit ;;
         c <- format_2f (ParkingBooking.total_charge booking) ;;
         flash (ThankYou (Some c)))
        (rollback ;;
         flash (Message "Error occurred while processing exit" "error")) ;;
      ret (Redirect "user_dashboard")).

Definition view_reports : View :=
  admin_required (fun _ => ret (Render "reports.html")).

(** [ParkingSpot.query.filter_by(lot_id=lot_id, is_occupied=True).count()] *)
Definition count_occupied (lot_id : Z) (spots : list ParkingSpot.t) : nat :=
  List.length
    (filter (fun s => (ParkingSpot.lot_id s =? lot_id) && ParkingSpot.is_occupied s)
            spots).

Definition delete_lot (lot_id : Z) : View :=
  fun _ =>
    lot <- get_or_404 parking_lot lot_id ;;
    occupied_spots <- query (fun d => count_occupied (ParkingLot.id lot) (parking_spot d)) ;;
    if (0 <? occupied_spots)%nat then
      flash (Message "Cannot delete lot. Some spots are still occupied." "warning") ;;
      ret (Redirect "admin_dashboard")
    else
      modify (fun d =>
        mkDB (parking_lot d)
             (delete_where (fun s => ParkingSpot.lot_id s =? ParkingLot.id lot)
                           (parking_spot d))
             (parking_booking d)) ;;
      modify (fun d =>
        mkDB (delete_where (fun l => ParkingLot.id l =? ParkingLot.id lot)
                           (parking_lot d))
             (parking_spot d)
             (parking_booking d)) ;;
      commit ;;
      flash (Message "Lot deleted successfully." "success") ;;
      ret (Redirect "admin_dashboard").

(** The routes of the application that read or change the three tables. *)
Inductive Call : Type :=
| AdminDashboard
| AddLot (req : Request AddLotForm)
| UserDashboard
| BookSpot (req : Request BookForm)
| ExitParking (booking_id : Z)
| ViewReports
| DeleteLot (lot_id : Z).

Definition route (c : Call) : View :=
  match c with
  | AdminDashboard => admin_dashboard
  | AddLot req => add_lot req
  | UserDashboard => user_dashboard
  | BookSpot req => book_spot req
  | ExitParking booking_id => exit_parking booking_id
  | ViewReports => view_reports
  | DeleteLot lot_id => delete_lot lot_id
  end.

(** The database after a request. *)
Definition step (db : DB) (r : Env * Call) : DB :=
  fst (fst (serve (route (snd r)) (fst r) db)).

Definition run (db : DB) (trace : list (Env * Call)) : DB :=
  fold_left step trace db.

(** The states the application can be in: those a sequence of requests
    leads to from the tables [db.create_all()] creates. *)
Definition reachable (db : DB) : Prop :=
  exists trace, run empty_db trace = db.

(** Whether the database accepts the next [commit()] of the request. *)
Definition commit_succeeds (results : list bool) : bool :=
  match results with
  | false :: _ => false
  | _ => true
  end.

(** The free spots of a lot. *)
Definition free_spots (lot_id : Z) (db : DB) : list ParkingSpot.t :=
  filter (fun s => (ParkingSpot.lot_id s =? lot_id) && negb (ParkingSpot.is_occupied s))
         (parking_spot db).

(** The bookings of a spot with [status = 'active']. *)
Definition active_bookings (spot_id : Z) (db : DB) : list ParkingBooking.t :=
  filter (fun b => (ParkingBooking.spot_id b =? spot_id)
                   && String.eqb (ParkingBooking.status b) "active")
         (parking_booking db).

(* ================================================================== *)
(** * A scenario *)
(* ================================================================== *)

(** The scenario of the specification, used for the examples: an
    administrator creates lot "A" with two spots at 10.0 an hour; alice books
    a spot and checks out two hours later; bob books next. *)
Definition admin : Session := mkSession 1 "admin" true.
Definition alice : Session := mkSession 2 "alice" false.
Definition bob : Session := mkSession 3 "bob" false.

(** 2024-01-01T12:00:00 *)
Definition noon : datetime := 63839707200000000.
Definition hour : timedelta := 3600 * 1000000.

(** A request of [who] at time [t], in a process that imported [models.py]
    at [noon], with a database that accepts every commit. *)
Definition at_time (who : option Session) (t : datetime) : Env :=
  mkEnv who t noon [].

Definition lot_A_form : AddLotForm := mkAddLotForm "A" "Main Street" 2 (FFin 10).

Definition db_lot_A : DB :=
  run empty_db [(at_time (Some admin) noon, AddLot (POST lot_A_form))].

Definition db_alice_in : DB :=
  run db_lot_A [(at_time (Some alice) noon, BookSpot (POST (mkBookForm 1 "KA-01")))].

Definition db_alice_out : DB :=
  run db_alice_in [(at_time (Some alice) (noon + 2 * hour), ExitParking 1)].

Definition db_bob_in : DB :=
  run db_alice_out
      [(at_time (Some bob) (noon + 3 * hour), BookSpot (POST (mkBookForm 1 "KA-02")))].

(** A lot whose hourly price is [float('inf')], which [add_lot] accepts and
    SQLite stores; bob books its only spot and checks out at the very time
    the booking carries as entry time. *)
Definition lot_B_form : AddLotForm := mkAddLotForm "B" "Ring Road" 1 (FInf false).

Definition db_lot_B : DB :=
  run empty_db [(at_time (Some admin) noon, AddLot (POST lot_B_form))].

Definition db_bob_in_B : DB :=
  run db_lot_B [(at_time (Some bob) noon, BookSpot (POST (mkBookForm 1 "KA-02")))].

Definition db_bob_out_B : DB :=
  run db_bob_in_B [(at_time (Some bob) noon, ExitParking 1)].

(** A request to book a spot in lot [lot_id] made by a logged-in user and
    whose commit the database accepts. *)
Definition booking_request (lot_id : Z) (r : Env * Call) : Prop :=
  exists s form,
    session (fst r) = Some s
    /\ commit_succeeds (commit_results (fst r)) = true
    /\ snd r = BookSpot (POST form)
    /\ form_lot_id form = lot_id.

(** What a successful [book_spot] stores: the chosen spot occupied and one
    more booking. *)
Definition booked (env : Env) (uid : Z) (form : BookForm) (spot : ParkingSpot.t)
    (db : DB) : DB :=
  mkDB (parking_lot db)
       (update (ParkingSpot.set_is_occupied true spot) (parking_spot db))
       (insert (fun k =>
                  ParkingBooking.mk k uid (ParkingSpot.id spot)
                    (form_vehicle_number form) (entry_time_default env)
                    None None "active")
               (parking_booking db)).

(** What a successful [delete_lot] stores: the lot's spots gone, then the
    lot. *)
Definition deleted (lot_id : Z) (db : DB) : DB :=
  mkDB (delete_where (fun l => ParkingLot.id l =? lot_id) (parking_lot db))
       (delete_where (fun s => ParkingSpot.lot_id s =? lot_id) (parking_spot db))
       (parking_booking db).

(** Whether the session is that of an administrator. *)
Definition is_admin_session (env : Env) : bool :=
  match session env with
  | Some s => sess_is_admin s
  | None => false
  end.

(** Whether the database accepts the next [n] commits of the request. *)
Definition commits_succeed (n : nat) (results : list bool) : bool :=
  forallb (fun ok => ok) (firstn n results).

(** The spots [add_lot] creates for a lot: [n] rows with consecutive keys
    from [first_pk], numbered from 1. *)
Definition new_spots (first_pk lot_id : Z) (n : nat) : list ParkingSpot.t :=
  map (fun j => ParkingSpot.mk (first_pk + Z.of_nat j)
                               (format_03d (1 + Z.of_nat j)) lot_id false)
      (seq 0 n).

(** alice asks again for the checkout of her booking, which is completed,
    five hours after [noon], while bob is parked on the same spot. *)
Definition db_alice_out_again : DB :=
  run db_bob_in [(at_time (Some alice) (noon + 5 * hour), ExitParking 1)].

(** The occupancy invariant of the data model: a spot is flagged occupied
    exactly when it has one active booking. *)
Definition occupancy_invariant (db : DB) : Prop :=
  forall s, In s (parking_spot db) ->
    (ParkingSpot.is_occupied s = true
     <-> List.length (active_bookings (ParkingSpot.id s) db) = 1%nat).

(** What a successful checkout stores: the booking closed at time [t] with
    its charge (NULL when the charge is nan), and its spot free. *)
Definition checked_out (t : datetime) (b : ParkingBooking.t) (spot : ParkingSpot.t)
    (lot : ParkingLot.t) (db : DB) : DB :=
  mkDB (parking_lot db)
       (update (ParkingSpot.set_is_occupied false spot) (parking_spot db))
       (update (ParkingBooking.set_status "completed"
                  (ParkingBooking.set_total_charge
                     (sqlite_real (charge (ParkingBooking.entry_time b) t
                                          (ParkingLot.price_per_hour lot)))
                     (ParkingBooking.set_exit_time (Some t) b)))
               (parking_booking db)).

(** The notice after a committed checkout: the thank-you with the charge,
    or the error notice when the charge is nan and was stored as NULL. *)
Definition checkout_notice (total : pyfloat) : Flash :=
  if is_nan total
  then Message "Error occurred while processing exit" "error"
  else ThankYou (Some total).

(** The condition the booking logic keeps between requests: keys are
    distinct, the lot of a spot exists, a spot has one active booking when it
    is flagged occupied and none when it is not, an active booking points to
    a spot that exists and has neither exit time nor charge. *)
Record consistent (db : DB) : Prop := mkConsistent {
  spot_keys_distinct : NoDup (map pk (parking_spot db));
  booking_keys_distinct : NoDup (map pk (parking_booking db));
  spot_lot_exists :
    forall s, In s (parking_spot db) ->
      In (ParkingSpot.lot_id s) (map pk (parking_lot db));
  occupied_iff_active :
    forall s, In s (parking_spot db) ->
      List.length (active_bookings (ParkingSpot.id s) db)
      = if ParkingSpot.is_occupied s then 1%nat else 0%nat;
  active_spot_exists :
    forall b, In b (parking_booking db) ->
      ParkingBooking.status b = "active"%string ->
      In (ParkingBooking.spot_id b) (map pk (parking_spot db));
  active_not_closed :
    forall b, In b (parking_booking db) ->
      ParkingBooking.status b = "active"%string ->
      ParkingBooking.exit_time b = None /\ ParkingBooking.total_charge b = None
}.

(** A request for the checkout of a booking that is not active. *)
Definition checks_out_closed (db : DB) (r : Env * Call) : Prop :=
  exists k b,
    snd r = ExitParking k
    /\ get (parking_booking db) k = Some b
    /\ ParkingBooking.status b <> "active"%string.

(** No request of the trace, run from [db], asks for the checkout of a
    booking that is not active. *)
Fixpoint never_checks_out_closed (db : DB) (trace : list (Env * Call)) : Prop :=
  match trace with
  | [] => True
  | r :: rest => ~ checks_out_closed db r /\ never_checks_out_closed (step db r) rest
  end.

(** After alice's checkout somebody deletes lot "A": her completed booking
    outlives the spot it names. *)
Definition db_lot_A_gone : DB :=
  run db_alice_out [(at_time None (noon + 3 * hour), DeleteLot 1)].

(** The spots of a lot. *)
Definition spots_of (lot_id : Z) (db : DB) : list ParkingSpot.t :=
  filter (fun s => ParkingSpot.lot_id s =? lot_id) (parking_spot db).

(** What every request keeps of the catalog, whatever it does to the
    bookings: keys are distinct, the lot of a spot exists, and a lot has no
    more spots than its [total_spots]. *)
Record catalog_ok (db : DB) : Prop := mkCatalogOk {
  lots_distinct : NoDup (map pk (parking_lot db));
  spots_distinct : NoDup (map pk (parking_spot db));
  bookings_distinct : NoDup (map pk (parking_booking db));
  spot_has_lot :
    forall s, In s (parking_spot db) ->
      In (ParkingSpot.lot_id s) (map pk (parking_lot db));
  lot_capacity :
    forall l, In l (parking_lot db) ->
      (List.length (spots_of (ParkingLot.id l) db)
       <= Z.to_nat (ParkingLot.total_spots l))%nat
}.

(** The two states a booking is found in: open, or closed by a checkout,
    whose charge is a number or an infinity, or NULL where the checkout
    computed nan. *)
Definition open_or_closed (b : ParkingBooking.t) : Prop :=
  (ParkingBooking.status b = "active"%string
   /\ ParkingBooking.exit_time b = None
   /\ ParkingBooking.total_charge b = None)
  \/ (ParkingBooking.status b = "completed"%string
      /\ ParkingBooking.exit_time b <> None
      /\ ParkingBooking.total_charge b <> Some FNan).

(** [ParkingBooking.query.filter_by(user_id=uid, status=st).all()] *)
Definition bookings_of_user (uid : Z) (st : string) (db : DB)
  : list ParkingBooking.t :=
  filter (fun b => (ParkingBooking.user_id b =? uid)
                   && String.eqb (ParkingBooking.status b) st)
         (parking_booking db).

(** [ParkingBooking.query.filter_by(status=st).all()] *)
Definition bookings_with_status (st : string) (db : DB) : list ParkingBooking.t :=
  filter (fun b => String.eqb (ParkingBooking.status b) st) (parking_booking db).

(** What [user_dashboard] hands to its template: the active and the
    completed bookings of the user of the session. *)
Definition user_dashboard_context (uid : Z) (db : DB)
  : list ParkingBooking.t * list ParkingBooking.t :=
  (bookings_of_user uid "active" db, bookings_of_user uid "completed" db).

(** What [view_reports] hands to its template: the active and the completed
    bookings of all users. *)
Definition view_reports_context (db : DB)
  : list ParkingBooking.t * list ParkingBooking.t :=
  (bookings_with_status "active" db, bookings_with_status "completed" db).

(* ================================================================== *)
(** * Accounts: the [User] model, [register], [login], [logout] *)
(* ================================================================== *)

Module User.
Record t : Type := mk {
  id : Z;
  username : string;
  password : string;
  is_admin : bool
}.
End User.

#[export] Instance User_Model : Model User.t :=
  {| pk := User.id |}.

(** [str.lower()] on one character.  A character of a string stands for the
    code point of the same number, below 256; of these the capitals A to Z
    and the Latin-1 capitals (192 to 222, the multiplication sign 215 apart)
    have a lower-case form, 32 further. *)
Definition lower_char (c : ascii) : ascii :=
  let n := nat_of_ascii c in
  if ((65 <=? n) && (n <=? 90))%nat
     || ((192 <=? n) && (n <=? 222) && negb (n =? 215))%nat
  then ascii_of_nat (n + 32)
  else c.

(** [str.lower()] *)
Fixpoint lower (s : string) : string :=
  match s with
  | EmptyString => EmptyString
  | String c rest => String (lower_char c) (lower rest)
  end.

(** The fields of the login form and of the registration form. *)
Record Credentials : Type := mkCredentials {
  form_username : string;
  form_password : string
}.

(** [User.query.filter_by(username=username).first()] *)
Definition user_by_name (username : string) (users : list User.t) : option User.t :=
  find (fun u => String.eqb (User.username u) username) users.

Section Accounts.

(** [werkzeug.security]: [generate_password_hash] salts the hash with random
    characters, which are an argument here; [check_password_hash] takes the
    stored hash and the password tried. *)
Variable generate_password_hash : string -> string -> string.
Variable check_password_hash : string -> string -> bool.

(** [login]: the table of users and the session before, the session after
    with the answer. *)
Definition login (req : Request Credentials) (users : list User.t)
    (sess : option Session) : option Session * Response * list Flash :=
  match req with
  | POST form =>
      let username := form_username form in
      let password := form_password form in
      match user_by_name username users with
      | Some user =>
          if check_password_hash (User.password user) password then
            (Some (mkSession (User.id user) (User.username user) (User.is_admin user)),
             if User.is_admin user then Redirect "admin_dashboard"
             else Redirect "user_dashboard",
             [Message "Logged in successfully!" "success"])
          else
            (sess, Render "login.html",
             [Message "Invalid username or password" "error"])
      | None =>
          (sess, Render "login.html",
           [Message "Invalid username or password" "error"])
      end
  | GET => (sess, Render "login.html", [])
  end.

(** [register]: [salt] is what the hashing draws and [commit_ok] whether the
    database accepts the commit; the table of users after, with the
    answer. *)
Definition register (req : Request Credentials) (salt : string) (commit_ok : bool)
    (users : list User.t) : list User.t * Response * list Flash :=
  match req with
  | POST form =>
      let username := form_username form in
      let password := form_password form in
      match user_by_name username users with
      | Some _ =>
          (users, Redirect "register", [Message "Username already exists" "error"])
      | None =>
          if String.eqb (lower username) "admin" then
            (users, Redirect "register",
             [Message "This username is not allowed" "error"])
          else
            let hashed_password := generate_password_hash salt password in
            if commit_ok then
              (insert (fun k => User.mk k username hashed_password false) users,
               Redirect "login",
               [Message "Registration successful! Please login." "success"])
            else
              (users, Render "register.html",
               [Message "Error occurred during registration" "error"])
      end
  | GET => (users, Render "register.html", [])
  end.

(** [logout] *)
Definition logout (sess : option Session) : option Session * Response * list Flash :=
  (None, Redirect "login", [Message "Logged out successfully" "success"]).

(** The start of the program: after [db.create_all()], the administrator is
    created if no user is called admin.  The commit is not guarded: when it
    fails the program stops and the table is what it was. *)
Definition create_admin (salt : string) (commit_ok : bool) (users : list User.t)
  : list User.t :=
  match user_by_name "admin" users with
  | Some _ => users
  | None =>
      if commit_ok then
        insert (fun k => User.mk k "admin" (generate_password_hash salt "admin123") true)
               users
      else users
  end.

(** What changes the table of users: a start of the program or a
    registration. *)
Inductive AccountEvent : Type :=
| Start (salt : string) (commit_ok : bool)
| Registration (req : Request Credentials) (salt : string) (commit_ok : bool).

Definition account_step (users : list User.t) (e : AccountEvent) : list User.t :=
  match e with
  | Start salt commit_ok => create_admin salt commit_ok users
  | Registration req salt commit_ok => fst (fst (register req salt commit_ok users))
  end.

Definition account_run (users : list User.t) (events : list AccountEvent)
  : list User.t :=
  fold_left account_step events users.

End Accounts.

(** What the code keeps of the table of users: names and keys are distinct,
    and an account is an administrator, or has a name that reads admin in
    lower case, only if it is the account named admin. *)
Record accounts_ok (users : list User.t) : Prop := mkAccountsOk {
  names_distinct : NoDup (map User.username users);
  user_keys_distinct : NoDup (map pk users);
  only_admin_is_admin :
    forall u, In u users -> User.is_admin u = true -> User.username u = "admin"%string;
  admin_name_reserved :
    forall u, In u users -> lower (User.username u) = "admin"%string ->
              User.username u = "admin"%string
}.

(** The number a label of decimal digits reads as, leading zeros
    ignored. *)
Definition label_number (s : string) : option N :=
  match NilEmpty.uint_of_string s with
  | Some d => Some (N.of_uint d)
  | None => None
  end.

(* ================================================================== *)
(** * Lemmas: tables *)
(* ================================================================== *)

Section TableFacts.
Context {R : Type} `{Model R}.

Lemma get_some_pk (t : list R) (k : Z) (r : R) :
  get t k = Some r -> pk r = k.
Proof.
  unfold get. intros Hf. apply find_some in Hf. destruct Hf as [_ Hk].
  now apply Z.eqb_eq.
Qed.

Lemma get_some_in (t : list R) (k : Z) (r : R) :
  get t k = Some r -> In r t.
Proof.
  unfold get. intros Hf. now apply find_some in Hf.
Qed.

Lemma get_update_same (t : list R) (k : Z) (r r' : R) :
  get t k = Some r -> pk r' = k -> get (update r' t) k = Some r'.
Proof.
  unfold get, update. intros Hf Hk. subst k.
  induction t as [|x t IH]; simpl in *; [discriminate|].
  destruct (pk x =? pk r') eqn:E.
  - now rewrite Z.eqb_refl.
  - rewrite E. auto.
Qed.

Lemma get_update_other (t : list R) (k : Z) (r' : R) :
  pk r' <> k -> get (update r' t) k = get t k.
Proof.
  unfold get, update. intros Hk.
  induction t as [|x t IH]; simpl; [reflexivity|].
  destruct (pk x =? pk r') eqn:E.
  - apply Z.eqb_eq in E.
    destruct (pk r' =? k) eqn:E1; [apply Z.eqb_eq in E1; contradiction|].
    destruct (pk x =? k) eqn:E2; [apply Z.eqb_eq in E2; congruence|].
    exact IH.
  - destruct (pk x =? k); [reflexivity|exact IH].
Qed.

Lemma map_pk_update (r : R) (t : list R) :
  map pk (update r t) = map pk t.
Proof.
  unfold update. rewrite map_map. apply map_ext_in.
  intros x _. destruct (pk x =? pk r) eqn:E; [|reflexivity].
  apply Z.eqb_eq in E. now rewrite E.
Qed.

Lemma next_pk_above (t : list R) (r : R) : In r t -> pk r < next_pk t.
Proof.
  unfold next_pk. induction t as [|x t IH]; cbn [In map fold_right]; [contradiction|].
  intros [->|Hin]; [lia|]. specialize (IH Hin). lia.
Qed.

Lemma next_pk_pos (t : list R) : 0 < next_pk t.
Proof.
  unfold next_pk. induction t as [|x t IH]; cbn [map fold_right]; lia.
Qed.

Lemma fold_max_app (l : list Z) (b : Z) :
  fold_right Z.max 0 (l ++ [b]) = Z.max (fold_right Z.max 0 l) (Z.max b 0).
Proof.
  induction l as [|x l IH]; cbn [fold_right app]; [lia|]. rewrite IH.
  assert (Hnn : forall l', 0 <= fold_right Z.max 0 l').
  { induction l' as [|y l' IH']; cbn [fold_right]; lia. }
  specialize (Hnn l). lia.
Qed.

Lemma next_pk_insert (row : Z -> R) (t : list R) :
  pk (row (next_pk t)) = next_pk t ->
  next_pk (insert row t) = next_pk t + 1.
Proof.
  intros Hr. unfold insert. unfold next_pk at 1.
  rewrite map_app. cbn [map]. rewrite fold_max_app, Hr.
  pose proof (next_pk_pos t). unfold next_pk in *. lia.
Qed.

Lemma NoDup_pk_insert (row : Z -> R) (t : list R) :
  pk (row (next_pk t)) = next_pk t ->
  NoDup (map pk t) -> NoDup (map pk (insert row t)).
Proof.
  intros Hr Hnd. unfold insert. rewrite map_app. simpl.
  apply NoDup_app; [exact Hnd|repeat constructor; simpl; tauto|].
  intros k Hin [Hk|[]]. apply in_map_iff in Hin. destruct Hin as [r [Hpk Hin]].
  apply next_pk_above in Hin. rewrite Hr in Hk. lia.
Qed.

Lemma NoDup_pk_delete (p : R -> bool) (t : list R) :
  NoDup (map pk t) -> NoDup (map pk (delete_where p t)).
Proof.
  unfold delete_where. induction t as [|x t IH]; simpl; [auto|].
  intros Hnd. inversion Hnd as [|? ? Hni Hnd']; subst.
  destruct (negb (p x)); simpl; [|auto].
  constructor; [|auto]. intros Hin. apply Hni.
  apply in_map_iff in Hin. destruct Hin as [r [Hpk Hin]].
  apply filter_In in Hin. apply in_map_iff. exists r. tauto.
Qed.
End TableFacts.

(* ================================================================== *)
(** * Lemmas: checkout *)
(* ================================================================== *)

(** The booking [exit_parking] writes back: the three fields it assigns,
    the others as they were. *)
Lemma checked_out_fields (b : ParkingBooking.t) (t : datetime)
    (c : option pyfloat) :
  ParkingBooking.set_status "completed"
    (ParkingBooking.set_total_charge c
       (ParkingBooking.set_exit_time (Some t) b))
  = ParkingBooking.mk (ParkingBooking.id b) (ParkingBooking.user_id b)
      (ParkingBooking.spot_id b) (ParkingBooking.vehicle_number b)
      (ParkingBooking.entry_time b) (Some t) c "completed".
Proof. reflexivity. Qed.

(** C8.  A checkout requested by a logged-in user who does not own the
    booking is answered with the notice "Unauthorized access" and a redirect
    to the dashboard, and the database (the booking, its spot and everything
    else) is what it was. *)
Theorem exit_parking_unauthorized
    (env : Env) (db : DB) (booking_id : Z) (s : Session) (b : ParkingBooking.t) :
  session env = Some s ->
  get (parking_booking db) booking_id = Some b ->
  ParkingBooking.user_id b <> sess_user_id s ->
  serve (exit_parking booking_id) env db
  = (db, Redirect "user_dashboard", [Message "Unauthorized access" "error"]).
Proof.
  intros Hs Hb Hne.
  unfold serve, exit_parking, login_required. rewrite Hs.
  unfold get_or_404, bind, query, session_user_id. cbn [work]. rewrite Hb, Hs.
  cbn [ret].
  destruct (ParkingBooking.user_id b =? sess_user_id s) eqn:E.
  - apply Z.eqb_eq in E. contradiction.
  - reflexivity.
Qed.

(** What [exit_parking] answers to the owner of a booking whose spot and lot
    exist, whatever the status of the booking. *)
Lemma exit_parking_serve
    (env : Env) (db : DB) (booking_id : Z) (s : Session)
    (b : ParkingBooking.t) (spot : ParkingSpot.t) (lot : ParkingLot.t) :
  session env = Some s ->
  get (parking_booking db) booking_id = Some b ->
  ParkingBooking.user_id b = sess_user_id s ->
  get (parking_spot db) (ParkingBooking.spot_id b) = Some spot ->
  get (parking_lot db) (ParkingSpot.lot_id spot) = Some lot ->
  serve (exit_parking booking_id) env db
  = if commit_succeeds (commit_results env)
    then (checked_out (now env) b spot lot db, Redirect "user_dashboard",
          [checkout_notice (charge (ParkingBooking.entry_time b) (now env)
                                   (ParkingLot.price_per_hour lot))])
    else (db, Redirect "user_dashboard",
          [Message "Error occurred while processing exit" "error"]).
Proof.
  intros Hs Hb Hown Hspot Hlot.
  unfold serve, exit_parking, login_required. rewrite Hs.
  unfold get_or_404, bind, query, session_user_id, attr_of.
  cbn [work]. rewrite Hb, Hs. cbn [ret].
  rewrite Hown, Z.eqb_refl. cbn [negb work ParkingBooking.set_exit_time
    ParkingBooking.spot_id].
  rewrite Hspot. cbn [ret work]. rewrite Hlot. cbn [ret].
  unfold save_parking_booking, save_parking_spot, modify, try_except, bind,
    commit, rollback, flash, ret.
  cbn [work stored commits flashed parking_lot parking_spot parking_booking].
  unfold checked_out, checkout_notice, sqlite_real.
  cbn [ParkingBooking.entry_time ParkingBooking.set_exit_time
       ParkingBooking.set_total_charge ParkingBooking.set_status
       ParkingBooking.total_charge].
  destruct (is_nan (charge (ParkingBooking.entry_time b) (now env)
                           (ParkingLot.price_per_hour lot)));
    destruct (commit_results env) as [|[|] rest]; reflexivity.
Qed.

(** C1, as the claim states it, fails where the charge is nan: in a lot
    whose hourly price is [inf], a checkout at the entry time of the booking
    computes [round(0.0 * inf, 2) = nan]; the commit succeeds, the booking is
    stored completed with exit time [now] and the spot free, but the stored
    charge is NULL, not the computed value, and the answer is the error
    notice. *)
Lemma exit_parking_nan_charge_stored_null :
  get (parking_booking db_bob_in_B) 1
  = Some (ParkingBooking.mk 1 3 1 "KA-02" noon None None "active")
  /\ get (parking_spot db_bob_in_B) 1 = Some (ParkingSpot.mk 1 "001" 1 true)
  /\ get (parking_lot db_bob_in_B) 1
     = Some (ParkingLot.mk 1 "B" "Ring Road" 1 (FInf false))
  /\ round2 (fmul (fdiv (total_seconds (noon - noon)) (float_of_int 3600))
                  (FInf false)) = FNan
  /\ serve (exit_parking 1) (at_time (Some bob) noon) db_bob_in_B
     = (db_bob_out_B, Redirect "user_dashboard",
        [Message "Error occurred while processing exit" "error"])
  /\ get (parking_booking db_bob_out_B) 1
     = Some (ParkingBooking.mk 1 3 1 "KA-02" noon (Some noon) None "completed")
  /\ get (parking_spot db_bob_out_B) 1 = Some (ParkingSpot.mk 1 "001" 1 false)
  /\ (forall b', get (parking_booking db_bob_out_B) 1 = Some b' ->
        ParkingBooking.total_charge b'
        <> Some (round2 (fmul (fdiv (total_seconds (noon - noon)) (float_of_int 3600))
                              (FInf false)))).
Proof.
  assert (Hnan : round2 (fmul (fdiv (total_seconds (noon - noon)) (float_of_int 3600))
                              (FInf false)) = FNan)
    by (vm_compute; reflexivity).
  assert (Hout : get (parking_booking db_bob_out_B) 1
                 = Some (ParkingBooking.mk 1 3 1 "KA-02" noon (Some noon) None
                           "completed"))
    by (vm_compute; reflexivity).
  do 3 (split; [vm_compute; reflexivity|]).
  split; [exact Hnan|].
  split; [vm_compute; reflexivity|].
  split; [exact Hout|].
  split; [vm_compute; reflexivity|].
  intros b' Hb'. rewrite Hout in Hb'. injection Hb' as <-. rewrite Hnan.
  discriminate.
Qed.

(** C1, amended.  When the owner checks out an active booking whose spot and
    lot exist, the charge is [round(hours * price, 2)] with
    [hours = (now - entry_time).total_seconds() / 3600]; if the commit
    succeeds the stored booking has exit time [now], status completed and
    that charge, or no charge (NULL) when the charge is nan, and the stored
    spot is free, all other rows being untouched; the answer is the thank-you
    notice with the charge, or the error notice when the charge is nan; if
    the commit fails the database is what it was. *)
Theorem exit_parking_checkout
    (env : Env) (db : DB) (booking_id : Z) (s : Session)
    (b : ParkingBooking.t) (spot : ParkingSpot.t) (lot : ParkingLot.t) :
  session env = Some s ->
  get (parking_booking db) booking_id = Some b ->
  ParkingBooking.user_id b = sess_user_id s ->
  ParkingBooking.status b = "active"%string ->
  get (parking_spot db) (ParkingBooking.spot_id b) = Some spot ->
  get (parking_lot db) (ParkingSpot.lot_id spot) = Some lot ->
  let hours :=
    fdiv (total_seconds (now env - ParkingBooking.entry_time b)) (float_of_int 3600) in
  let total := round2 (fmul hours (ParkingLot.price_per_hour lot)) in
  let b' :=
    ParkingBooking.mk booking_id (ParkingBooking.user_id b)
      (ParkingBooking.spot_id b) (ParkingBooking.vehicle_number b)
      (ParkingBooking.entry_time b) (Some (now env))
      (if is_nan total then None else Some total) "completed" in
  let spot' :=
    ParkingSpot.mk (ParkingBooking.spot_id b) (ParkingSpot.spot_number spot)
      (ParkingSpot.lot_id spot) false in
  let db' :=
    mkDB (parking_lot db) (update spot' (parking_spot db))
         (update b' (parking_booking db)) in
  serve (exit_parking booking_id) env db
  = (if commit_succeeds (commit_results env)
     then (db', Redirect "user_dashboard",
           [if is_nan total
            then Message "Error occurred while processing exit" "error"
            else ThankYou (Some total)])
     else (db, Redirect "user_dashboard",
           [Message "Error occurred while processing exit" "error"]))
  /\ get (parking_booking db') booking_id = Some b'
  /\ get (parking_spot db') (ParkingBooking.spot_id b) = Some spot'
  /\ (forall k, k <> booking_id ->
        get (parking_booking db') k = get (parking_booking db) k)
  /\ (forall k, k <> ParkingBooking.spot_id b ->
        get (parking_spot db') k = get (parking_spot db) k).
Proof.
  intros Hs Hb Hown Hact Hspot Hlot hours total b' spot' db'.
  pose proof (get_some_pk _ _ _ Hb) as Hbk.
  pose proof (get_some_pk _ _ _ Hspot) as Hsk.
  cbn [pk ParkingBooking_Model ParkingSpot_Model] in Hbk, Hsk.
  assert (Hdb : checked_out (now env) b spot lot db = db').
  { unfold checked_out, db', b', spot', total, hours, charge, hours_parked,
      sqlite_real.
    rewrite checked_out_fields. unfold ParkingSpot.set_is_occupied.
    now rewrite Hbk, Hsk. }
  repeat split.
  - rewrite (exit_parking_serve env db booking_id s b spot lot Hs Hb Hown Hspot Hlot).
    rewrite Hdb. reflexivity.
  - cbn [db' parking_booking]. eapply get_update_same; [exact Hb|reflexivity].
  - cbn [db' parking_spot]. eapply get_update_same; [exact Hspot|reflexivity].
  - intros k Hk. cbn [db' parking_booking]. apply get_update_other.
    cbn [pk ParkingBooking_Model b' ParkingBooking.id]. congruence.
  - intros k Hk. cbn [db' parking_spot]. apply get_update_other.
    cbn [pk ParkingSpot_Model spot' ParkingSpot.id]. congruence.
Qed.

Lemma exit_parking_unauthorized_witness :
  session (at_time (Some bob) (noon + hour)) = Some bob
  /\ get (parking_booking db_alice_in) 1
     = Some (ParkingBooking.mk 1 2 1 "KA-01" noon None None "active")
  /\ 2 <> sess_user_id bob
  /\ serve (exit_parking 1) (at_time (Some bob) (noon + hour)) db_alice_in
     = (db_alice_in, Redirect "user_dashboard",
        [Message "Unauthorized access" "error"]).
Proof.
  split; [reflexivity|]. split; [reflexivity|]. split; [discriminate|].
  apply (exit_parking_unauthorized _ _ _ bob
           (ParkingBooking.mk 1 2 1 "KA-01" noon None None "active")).
  - reflexivity.
  - reflexivity.
  - discriminate.
Defined.

Lemma exit_parking_checkout_witness :
  serve (exit_parking 1) (at_time (Some alice) (noon + 2 * hour)) db_alice_in
  = (db_alice_out, Redirect "user_dashboard", [ThankYou (Some (FFin 20))])
  /\ get (parking_booking db_alice_out) 1
     = Some (ParkingBooking.mk 1 2 1 "KA-01" noon (Some (noon + 2 * hour))
               (Some (FFin 20)) "completed")
  /\ get (parking_spot db_alice_out) 1 = Some (ParkingSpot.mk 1 "001" 1 false).
Proof.
  pose proof (exit_parking_checkout
                (at_time (Some alice) (noon + 2 * hour)) db_alice_in 1 alice
                (ParkingBooking.mk 1 2 1 "KA-01" noon None None "active")
                (ParkingSpot.mk 1 "001" 1 true)
                (ParkingLot.mk 1 "A" "Main Street" 2 (FFin 10))
                eq_refl eq_refl eq_refl eq_refl eq_refl eq_refl) as Hw.
  vm_compute in Hw. vm_compute.
  destruct Hw as (H1 & H2 & H3 & _). repeat split; assumption.
Defined.

(* ================================================================== *)
(** * Lemmas: allocation *)
(* ================================================================== *)

(** What [book_spot] answers to a POST of a logged-in user, case by case. *)
Lemma book_spot_serve (env : Env) (db : DB) (form : BookForm) (s : Session) :
  session env = Some s ->
  serve (book_spot (POST form)) env db
  = match first_free_spot (form_lot_id form) (parking_spot db) with
    | Some spot =>
        if commit_succeeds (commit_results env)
        then (booked env (sess_user_id s) form spot db,
              Redirect "user_dashboard",
              [Message "Spot booked successfully!" "success"])
        else (db, Render "book_spot.html",
              [Message "Error occurred while booking spot" "error"])
    | None =>
        (db, Render "book_spot.html",
         [Message "No spots available in selected lot" "error"])
    end.
Proof.
  intros Hs. unfold serve, book_spot, login_required. rewrite Hs.
  unfold bind at 1. unfold query at 1. cbn [work].
  destruct (first_free_spot (form_lot_id form) (parking_spot db)) as [spot|] eqn:Hf.
  - unfold session_user_id. rewrite Hs.
    unfold save_parking_spot, add_parking_booking, modify, try_except, bind,
      commit, rollback, flash, ret.
    cbn [work stored commits flashed parking_lot parking_spot parking_booking].
    unfold booked.
    destruct (commit_results env) as [|[|] rest]; reflexivity.
  - reflexivity.
Qed.

Lemma first_free_spot_none (lot_id : Z) (db : DB) :
  first_free_spot lot_id (parking_spot db) = None <-> free_spots lot_id db = [].
Proof.
  unfold first_free_spot, free_spots.
  induction (parking_spot db) as [|x t IH]; simpl; [tauto|].
  destruct ((ParkingSpot.lot_id x =? lot_id) && negb (ParkingSpot.is_occupied x));
    [split; discriminate|exact IH].
Qed.

Lemma first_free_spot_head (lot_id : Z) (db : DB) :
  first_free_spot lot_id (parking_spot db) = hd_error (free_spots lot_id db).
Proof.
  unfold first_free_spot, free_spots.
  induction (parking_spot db) as [|x t IH]; simpl; [reflexivity|].
  destruct ((ParkingSpot.lot_id x =? lot_id) && negb (ParkingSpot.is_occupied x));
    [reflexivity|exact IH].
Qed.

Lemma update_absent {R : Type} `{Model R} (r : R) (t : list R) :
  ~ In (pk r) (map pk t) -> update r t = t.
Proof.
  unfold update. induction t as [|x t IH]; simpl; [reflexivity|].
  intros Hni. destruct (pk x =? pk r) eqn:E.
  - apply Z.eqb_eq in E. exfalso. apply Hni. now left.
  - f_equal. apply IH. tauto.
Qed.

(** Occupying the first free spot of a lot removes exactly that spot from
    the lot's free spots. *)
Lemma free_spots_after_occupying (lot_id : Z) (spots : list ParkingSpot.t)
    (spot : ParkingSpot.t) :
  NoDup (map pk spots) ->
  first_free_spot lot_id spots = Some spot ->
  filter (fun s => (ParkingSpot.lot_id s =? lot_id) && negb (ParkingSpot.is_occupied s))
         (update (ParkingSpot.set_is_occupied true spot) spots)
  = tl (filter (fun s => (ParkingSpot.lot_id s =? lot_id)
                         && negb (ParkingSpot.is_occupied s)) spots).
Proof.
  unfold first_free_spot.
  induction spots as [|x t IH]; intros Hnd Hf; [discriminate|].
  cbn [map] in Hnd. inversion Hnd as [|? ? Hni Hnd']; subst.
  cbn [find] in Hf. cbn [filter].
  destruct ((ParkingSpot.lot_id x =? lot_id) && negb (ParkingSpot.is_occupied x)) eqn:E.
  - injection Hf as <-. cbn [tl].
    change (update (ParkingSpot.set_is_occupied true x) (x :: t))
      with ((if pk x =? pk (ParkingSpot.set_is_occupied true x)
             then ParkingSpot.set_is_occupied true x else x)
            :: update (ParkingSpot.set_is_occupied true x) t).
    cbn [pk ParkingSpot_Model ParkingSpot.set_is_occupied ParkingSpot.id].
    rewrite Z.eqb_refl. cbn [filter ParkingSpot.lot_id ParkingSpot.is_occupied negb].
    rewrite andb_false_r. rewrite update_absent; [reflexivity|exact Hni].
  - assert (Hin : In spot t) by (apply find_some in Hf; tauto).
    change (update (ParkingSpot.set_is_occupied true spot) (x :: t))
      with ((if pk x =? pk (ParkingSpot.set_is_occupied true spot)
             then ParkingSpot.set_is_occupied true spot else x)
            :: update (ParkingSpot.set_is_occupied true spot) t).
    destruct (pk x =? pk (ParkingSpot.set_is_occupied true spot)) eqn:Ek.
    + apply Z.eqb_eq in Ek. exfalso. apply Hni.
      cbn [pk ParkingSpot_Model ParkingSpot.set_is_occupied ParkingSpot.id] in Ek.
      rewrite Ek. apply in_map_iff. exists spot. split; [reflexivity|exact Hin].
    + cbn [filter]. rewrite E. apply IH; assumption.
Qed.

Lemma booked_free_spots (env : Env) (uid : Z) (form : BookForm)
    (spot : ParkingSpot.t) (db : DB) :
  NoDup (map pk (parking_spot db)) ->
  first_free_spot (form_lot_id form) (parking_spot db) = Some spot ->
  free_spots (form_lot_id form) (booked env uid form spot db)
  = tl (free_spots (form_lot_id form) db).
Proof.
  intros Hnd Hf. unfold free_spots, booked. cbn [parking_spot].
  now apply free_spots_after_occupying.
Qed.

Lemma booked_NoDup (env : Env) (uid : Z) (form : BookForm)
    (spot : ParkingSpot.t) (db : DB) :
  NoDup (map pk (parking_spot db)) ->
  NoDup (map pk (parking_spot (booked env uid form spot db))).
Proof.
  intros Hnd. unfold booked. cbn [parking_spot]. now rewrite map_pk_update.
Qed.

(** One accepted booking request in a lot that has a free spot. *)
Lemma step_booking_request (lot_id : Z) (db : DB) (r : Env * Call) :
  NoDup (map pk (parking_spot db)) ->
  booking_request lot_id r ->
  free_spots lot_id db <> [] ->
  NoDup (map pk (parking_spot (step db r)))
  /\ free_spots lot_id (step db r) = tl (free_spots lot_id db).
Proof.
  intros Hnd (s & form & Hs & Hc & Hcall & Hlot) Hfree.
  unfold step. rewrite Hcall. cbn [route]. rewrite (book_spot_serve _ _ _ s Hs).
  rewrite Hlot, Hc.
  destruct (first_free_spot lot_id (parking_spot db)) as [spot|] eqn:Hf.
  - cbn [fst]. subst lot_id. split.
    + now apply booked_NoDup.
    + now apply booked_free_spots.
  - apply first_free_spot_none in Hf. contradiction.
Qed.

(** As many accepted booking requests as the lot has free spots use them
    up. *)
Lemma run_booking_requests (lot_id : Z) (reqs : list (Env * Call)) :
  forall db,
    NoDup (map pk (parking_spot db)) ->
    Forall (booking_request lot_id) reqs ->
    (List.length reqs <= List.length (free_spots lot_id db))%nat ->
    NoDup (map pk (parking_spot (run db reqs)))
    /\ List.length (free_spots lot_id (run db reqs))
       = (List.length (free_spots lot_id db) - List.length reqs)%nat.
Proof.
  induction reqs as [|r reqs IH]; intros db Hnd Hall Hlen.
  - cbn [run fold_left List.length]. split; [exact Hnd|lia].
  - inversion Hall as [|? ? Hr Hall']; subst.
    cbn [List.length] in Hlen.
    assert (Hne : free_spots lot_id db <> []).
    { intros E. rewrite E in Hlen. cbn [List.length] in Hlen. lia. }
    destruct (step_booking_request lot_id db r Hnd Hr Hne) as [Hnd1 Hfree1].
    change (run db (r :: reqs)) with (run (step db r) reqs).
    assert (Hl1 : List.length (free_spots lot_id (step db r))
                  = (List.length (free_spots lot_id db) - 1)%nat).
    { rewrite Hfree1. destruct (free_spots lot_id db); cbn [tl List.length]; lia. }
    destruct (IH (step db r) Hnd1 Hall') as [Hnd2 Hl2]; [lia|].
    split; [exact Hnd2|]. rewrite Hl2, Hl1. cbn [List.length]. lia.
Qed.

(** C4.  In a state whose spot keys are distinct: a booking request for a
    lot without a free spot is answered "No spots available in selected
    lot" and changes nothing; an accepted request for a lot with a free spot
    succeeds and leaves the lot one free spot less; and after as many
    accepted requests as the lot had free spots, the next one is answered
    "No spots available in selected lot" and changes nothing. *)
Theorem book_spot_no_availability (db : DB) (lot_id : Z) :
  NoDup (map pk (parking_spot db)) ->
  (forall env s form,
     session env = Some s -> form_lot_id form = lot_id ->
     free_spots lot_id db = [] ->
     serve (book_spot (POST form)) env db
     = (db, Render "book_spot.html",
        [Message "No spots available in selected lot" "error"]))
  /\ (forall env s form,
        session env = Some s -> form_lot_id form = lot_id ->
        commit_succeeds (commit_results env) = true ->
        free_spots lot_id db <> [] ->
        exists db',
          serve (book_spot (POST form)) env db
          = (db', Redirect "user_dashboard",
             [Message "Spot booked successfully!" "success"])
          /\ (List.length (free_spots lot_id db')
              = List.length (free_spots lot_id db) - 1)%nat)
  /\ (forall reqs env s form,
        Forall (booking_request lot_id) reqs ->
        List.length reqs = List.length (free_spots lot_id db) ->
        session env = Some s -> form_lot_id form = lot_id ->
        serve (book_spot (POST form)) env (run db reqs)
        = (run db reqs, Render "book_spot.html",
           [Message "No spots available in selected lot" "error"])).
Proof.
  intros Hnd. split; [|split].
  - intros env s form Hs Hlot Hfree. rewrite (book_spot_serve _ _ _ s Hs).
    rewrite Hlot. apply first_free_spot_none in Hfree. now rewrite Hfree.
  - intros env s form Hs Hlot Hc Hfree. rewrite (book_spot_serve _ _ _ s Hs).
    rewrite Hlot, Hc.
    destruct (first_free_spot lot_id (parking_spot db)) as [spot|] eqn:Hf.
    + eexists. split; [reflexivity|]. subst lot_id.
      rewrite booked_free_spots by assumption.
      destruct (free_spots (form_lot_id form) db); cbn [tl List.length]; lia.
    + apply first_free_spot_none in Hf. contradiction.
  - intros reqs env s form Hall Hlen Hs Hlot.
    destruct (run_booking_requests lot_id reqs db Hnd Hall) as [_ Hl]; [lia|].
    rewrite (book_spot_serve _ _ _ s Hs). rewrite Hlot.
    assert (Hfree : free_spots lot_id (run db reqs) = []).
    { apply length_zero_iff_nil. rewrite Hl. lia. }
    apply first_free_spot_none in Hfree. now rewrite Hfree.
Qed.

Lemma book_spot_no_availability_witness :
  NoDup (map pk (parking_spot db_lot_A))
  /\ serve (book_spot (POST (mkBookForm 1 "KA-03")))
           (at_time (Some admin) (noon + hour))
           (run db_lot_A
                [(at_time (Some alice) noon, BookSpot (POST (mkBookForm 1 "KA-01")));
                 (at_time (Some bob) noon, BookSpot (POST (mkBookForm 1 "KA-02")))])
     = (run db_lot_A
            [(at_time (Some alice) noon, BookSpot (POST (mkBookForm 1 "KA-01")));
             (at_time (Some bob) noon, BookSpot (POST (mkBookForm 1 "KA-02")))],
        Render "book_spot.html",
        [Message "No spots available in selected lot" "error"]).
Proof.
  assert (Hnd : NoDup (map pk (parking_spot db_lot_A))).
  { vm_compute. repeat constructor; simpl; intuition discriminate. }
  split; [exact Hnd|].
  destruct (book_spot_no_availability db_lot_A 1 Hnd) as (_ & _ & Hthird).
  apply (Hthird _ _ admin).
  - repeat constructor.
    + exists alice, (mkBookForm 1 "KA-01"). repeat split; reflexivity.
    + exists bob, (mkBookForm 1 "KA-02"). repeat split; reflexivity.
  - reflexivity.
  - reflexivity.
  - reflexivity.
Defined.

(* ================================================================== *)
(** * Lemmas: deleting a lot *)
(* ================================================================== *)

(** What [delete_lot] answers for a lot that exists, case by case.  The
    session is not read. *)
Lemma delete_lot_serve (env : Env) (db : DB) (lot_id : Z) (lot : ParkingLot.t) :
  get (parking_lot db) lot_id = Some lot ->
  serve (delete_lot lot_id) env db
  = if (0 <? count_occupied lot_id (parking_spot db))%nat
    then (db, Redirect "admin_dashboard",
          [Message "Cannot delete lot. Some spots are still occupied." "warning"])
    else if commit_succeeds (commit_results env)
         then (deleted lot_id db, Redirect "admin_dashboard",
               [Message "Lot deleted successfully." "success"])
         else (db, ErrorPage 500, []).
Proof.
  intros Hl. pose proof (get_some_pk _ _ _ Hl) as Hk.
  cbn [pk ParkingLot_Model] in Hk.
  unfold serve, delete_lot, get_or_404, bind, query. cbn [work]. rewrite Hl.
  cbn [ret work]. rewrite Hk.
  destruct (0 <? count_occupied lot_id (parking_spot db))%nat.
  - reflexivity.
  - unfold modify, commit, flash, ret, deleted.
    cbn [work stored commits flashed parking_lot parking_spot parking_booking].
    destruct (commit_results env) as [|[|] rest]; reflexivity.
Qed.

Lemma count_occupied_pos (lot_id : Z) (spots : list ParkingSpot.t) :
  (0 < count_occupied lot_id spots)%nat
  <-> exists s, In s spots /\ ParkingSpot.lot_id s = lot_id
                /\ ParkingSpot.is_occupied s = true.
Proof.
  unfold count_occupied. split.
  - intros Hpos.
    destruct (filter (fun s => (ParkingSpot.lot_id s =? lot_id)
                               && ParkingSpot.is_occupied s) spots)
      as [|s rest] eqn:E; [cbn in Hpos; lia|].
    assert (Hin : In s (s :: rest)) by now left.
    rewrite <- E in Hin. apply filter_In in Hin. destruct Hin as [Hin Hp].
    apply andb_true_iff in Hp. destruct Hp as [Hp1 Hp2]. apply Z.eqb_eq in Hp1.
    exists s. tauto.
  - intros (s & Hin & Hlot & Hocc).
    assert (Hf : In s (filter (fun s => (ParkingSpot.lot_id s =? lot_id)
                                        && ParkingSpot.is_occupied s) spots)).
    { apply filter_In. split; [exact Hin|]. rewrite Hlot, Z.eqb_refl, Hocc.
      reflexivity. }
    destruct (filter _ spots); [contradiction|cbn; lia].
Qed.

Lemma deleted_no_lot (lot_id : Z) (db : DB) :
  get (parking_lot (deleted lot_id db)) lot_id = None.
Proof.
  unfold deleted, get, delete_where. cbn [parking_lot].
  destruct (find _ _) as [l|] eqn:E; [|reflexivity].
  apply find_some in E. destruct E as [Hin Hk]. apply filter_In in Hin.
  destruct Hin as [_ Hn]. cbn [pk ParkingLot_Model] in Hk. rewrite Hk in Hn.
  discriminate.
Qed.

Lemma deleted_spots (lot_id : Z) (db : DB) (s : ParkingSpot.t) :
  In s (parking_spot (deleted lot_id db))
  <-> In s (parking_spot db) /\ ParkingSpot.lot_id s <> lot_id.
Proof.
  unfold deleted, delete_where. cbn [parking_spot]. rewrite filter_In.
  rewrite negb_true_iff, Z.eqb_neq. tauto.
Qed.

Lemma deleted_lots (lot_id : Z) (db : DB) (l : ParkingLot.t) :
  In l (parking_lot (deleted lot_id db))
  <-> In l (parking_lot db) /\ ParkingLot.id l <> lot_id.
Proof.
  unfold deleted, delete_where. cbn [parking_lot]. rewrite filter_In.
  rewrite negb_true_iff, Z.eqb_neq. tauto.
Qed.

(** C5.  Deleting a lot that exists: when one of its spots is occupied the
    answer is the notice "Cannot delete lot. Some spots are still occupied."
    and the database is what it was; when none is and the commit succeeds,
    the stored database has no lot of that key and no spot pointing to it,
    and keeps every other lot and spot. *)
Theorem delete_lot_guarded
    (env : Env) (db : DB) (lot_id : Z) (lot : ParkingLot.t) :
  get (parking_lot db) lot_id = Some lot ->
  ((exists s, In s (parking_spot db) /\ ParkingSpot.lot_id s = lot_id
              /\ ParkingSpot.is_occupied s = true) ->
   serve (delete_lot lot_id) env db
   = (db, Redirect "admin_dashboard",
      [Message "Cannot delete lot. Some spots are still occupied." "warning"]))
  /\ ((forall s, In s (parking_spot db) -> ParkingSpot.lot_id s = lot_id ->
                 ParkingSpot.is_occupied s = false) ->
      commit_succeeds (commit_results env) = true ->
      exists db',
        serve (delete_lot lot_id) env db
        = (db', Redirect "admin_dashboard",
           [Message "Lot deleted successfully." "success"])
        /\ get (parking_lot db') lot_id = None
        /\ (forall s, In s (parking_spot db') <->
                      In s (parking_spot db) /\ ParkingSpot.lot_id s <> lot_id)
        /\ (forall l, In l (parking_lot db') <->
                      In l (parking_lot db) /\ ParkingLot.id l <> lot_id)
        /\ parking_booking db' = parking_booking db).
Proof.
  intros Hl. split.
  - intros Hocc. rewrite (delete_lot_serve _ _ _ _ Hl).
    apply count_occupied_pos in Hocc. apply Nat.ltb_lt in Hocc.
    now rewrite Hocc.
  - intros Hfree Hc. rewrite (delete_lot_serve _ _ _ _ Hl).
    destruct (0 <? count_occupied lot_id (parking_spot db))%nat eqn:E.
    + apply Nat.ltb_lt in E. apply count_occupied_pos in E.
      destruct E as (s & Hin & Hlot & Hocc).
      rewrite (Hfree s Hin Hlot) in Hocc. discriminate.
    + rewrite Hc. exists (deleted lot_id db). split; [reflexivity|].
      split; [apply deleted_no_lot|]. split; [apply deleted_spots|].
      split; [apply deleted_lots|reflexivity].
Qed.

Lemma delete_lot_guarded_witness :
  get (parking_lot db_alice_in) 1
  = Some (ParkingLot.mk 1 "A" "Main Street" 2 (FFin 10))
  /\ serve (delete_lot 1) (at_time (Some admin) (noon + hour)) db_alice_in
     = (db_alice_in, Redirect "admin_dashboard",
        [Message "Cannot delete lot. Some spots are still occupied." "warning"])
  /\ serve (delete_lot 1) (at_time (Some admin) (noon + 3 * hour)) db_alice_out
     = (mkDB [] [] (parking_booking db_alice_out), Redirect "admin_dashboard",
        [Message "Lot deleted successfully." "success"]).
Proof.
  split; [reflexivity|]. split.
  - apply (proj1 (delete_lot_guarded (at_time (Some admin) (noon + hour))
                    db_alice_in 1 (ParkingLot.mk 1 "A" "Main Street" 2 (FFin 10))
                    eq_refl)).
    exists (ParkingSpot.mk 1 "001" 1 true).
    split; [left; reflexivity|]. split; reflexivity.
  - reflexivity.
Defined.

(** C10.  [delete_lot] does not look at the session: whoever sends the
    request, logged in or not, administrator or not, a lot that exists and
    has no occupied spot is deleted with its spots when the commit succeeds.
    The other administrative views ([add_lot], [admin_dashboard],
    [view_reports]) answer a session that is not an administrator's with
    "Admin access required" and change nothing. *)
Theorem delete_lot_needs_no_admin
    (env : Env) (db : DB) (lot_id : Z) (lot : ParkingLot.t) :
  get (parking_lot db) lot_id = Some lot ->
  count_occupied lot_id (parking_spot db) = 0%nat ->
  commit_succeeds (commit_results env) = true ->
  serve (delete_lot lot_id) env db
  = (deleted lot_id db, Redirect "admin_dashboard",
     [Message "Lot deleted successfully." "success"])
  /\ get (parking_lot (deleted lot_id db)) lot_id = None
  /\ (forall s, In s (parking_spot (deleted lot_id db)) ->
                ParkingSpot.lot_id s <> lot_id)
  /\ (is_admin_session env = false ->
      (forall req, serve (add_lot req) env db
                   = (db, Redirect "login",
                      [Message "Admin access required" "error"]))
      /\ serve admin_dashboard env db
         = (db, Redirect "login", [Message "Admin access required" "error"])
      /\ serve view_reports env db
         = (db, Redirect "login", [Message "Admin access required" "error"])).
Proof.
  intros Hl Hocc Hc. split; [|split; [|split]].
  - rewrite (delete_lot_serve _ _ _ _ Hl), Hocc, Hc. reflexivity.
  - apply deleted_no_lot.
  - intros s Hin. apply deleted_spots in Hin. tauto.
  - unfold is_admin_session, serve, add_lot, admin_dashboard, view_reports,
      admin_required.
    destruct (session env) as [s|]; [intros ->|intros _]; repeat split.
Qed.

Lemma delete_lot_needs_no_admin_witness :
  (get (parking_lot db_lot_A) 1
   = Some (ParkingLot.mk 1 "A" "Main Street" 2 (FFin 10))
   /\ count_occupied 1 (parking_spot db_lot_A) = 0%nat
   /\ commit_succeeds (commit_results (at_time None noon)) = true)
  /\ serve (delete_lot 1) (at_time None noon) db_lot_A
     = (empty_db, Redirect "admin_dashboard",
        [Message "Lot deleted successfully." "success"])
  /\ serve (delete_lot 1) (at_time (Some bob) noon) db_lot_A
     = (empty_db, Redirect "admin_dashboard",
        [Message "Lot deleted successfully." "success"])
  /\ serve (add_lot (POST lot_A_form)) (at_time (Some bob) noon) db_lot_A
     = (db_lot_A, Redirect "login", [Message "Admin access required" "error"]).
Proof.
  split; [repeat split|].
  pose proof (delete_lot_needs_no_admin (at_time None noon) db_lot_A 1
                (ParkingLot.mk 1 "A" "Main Street" 2 (FFin 10))
                eq_refl eq_refl eq_refl) as Hnone.
  pose proof (delete_lot_needs_no_admin (at_time (Some bob) noon) db_lot_A 1
                (ParkingLot.mk 1 "A" "Main Street" 2 (FFin 10))
                eq_refl eq_refl eq_refl) as Hbob.
  destruct Hnone as (Hn & _). destruct Hbob as (Hb & _ & _ & Hadm).
  split; [exact Hn|]. split; [exact Hb|].
  exact (proj1 (Hadm eq_refl) (POST lot_A_form)).
Defined.

(* ================================================================== *)
(** * Lemmas: creating a lot *)
(* ================================================================== *)

Lemma range_from_1 (n : Z) :
  range 1 (n + 1) = map (fun j => 1 + Z.of_nat j) (seq 0 (Z.to_nat n)).
Proof.
  unfold range. replace (n + 1 - 1) with n by lia. reflexivity.
Qed.

(** The loop of [add_lot], on any list of numbers: one insertion each, in
    order, and nothing else. *)
Lemma for_each_add_parking_spot (lot_id : Z) (l : list Z) :
  forall st,
    for_each l (fun i =>
      add_parking_spot (fun k => ParkingSpot.mk k (format_03d i) lot_id false)) st
    = (Return tt,
       mkState (stored st)
         (mkDB (parking_lot (work st))
               (fold_left (fun t i =>
                            insert (fun k => ParkingSpot.mk k (format_03d i) lot_id false) t)
                          l (parking_spot (work st)))
               (parking_booking (work st)))
         (commits st) (flashed st)).
Proof.
  induction l as [|i l IH]; intros st.
  - destruct st as [sd [a b c] cm fl]. reflexivity.
  - cbn [for_each fold_left]. unfold bind.
    unfold add_parking_spot at 1. unfold modify. rewrite IH. reflexivity.
Qed.

(** Insertions in a row receive consecutive keys. *)
Lemma fold_left_insert_spots (lot_id : Z) (n : nat) :
  forall (base : nat) (t : list ParkingSpot.t),
    fold_left (fun t i =>
                 insert (fun k => ParkingSpot.mk k (format_03d i) lot_id false) t)
              (map (fun j => 1 + Z.of_nat j) (seq base n)) t
    = t ++ map (fun j => ParkingSpot.mk (next_pk t + Z.of_nat j - Z.of_nat base)
                           (format_03d (1 + Z.of_nat j)) lot_id false)
               (seq base n).
Proof.
  induction n as [|n IH]; intros base t.
  - cbn [seq map fold_left]. now rewrite app_nil_r.
  - cbn [seq map fold_left]. rewrite IH.
    rewrite next_pk_insert by reflexivity.
    unfold insert. rewrite <- app_assoc. cbn [app]. f_equal. f_equal.
    + f_equal. lia.
    + apply map_ext_in. intros j Hj. apply in_seq in Hj. f_equal. lia.
Qed.

Lemma new_spots_fold (lot_id : Z) (n : nat) (t : list ParkingSpot.t) :
  fold_left (fun t i =>
               insert (fun k => ParkingSpot.mk k (format_03d i) lot_id false) t)
            (map (fun j => 1 + Z.of_nat j) (seq 0 n)) t
  = t ++ new_spots (next_pk t) lot_id n.
Proof.
  rewrite fold_left_insert_spots. unfold new_spots. f_equal.
  apply map_ext. intros j. f_equal. lia.
Qed.

Lemma new_spots_nth (first_pk lot_id : Z) (n j : nat) :
  (j < n)%nat ->
  nth_error (new_spots first_pk lot_id n) j
  = Some (ParkingSpot.mk (first_pk + Z.of_nat j) (format_03d (Z.of_nat j + 1))
                         lot_id false).
Proof.
  intros Hj. unfold new_spots. rewrite nth_error_map.
  rewrite nth_error_seq.
  destruct (Nat.ltb_spec j n); [|lia]. cbn [option_map Nat.add].
  replace (Z.of_nat j + 1) with (1 + Z.of_nat j) by lia. reflexivity.
Qed.

(** Labels below one thousand have exactly three characters. *)
Lemma format_03d_three_characters (i : Z) :
  1 <= i <= 999 -> String.length (format_03d i) = 3%nat.
Proof.
  intros Hi.
  assert (Hall : forallb (fun j => Nat.eqb (String.length (format_03d j)) 3)
                         (range 1 1000) = true) by (vm_compute; reflexivity).
  rewrite forallb_forall in Hall. apply Nat.eqb_eq. apply Hall.
  unfold range. apply in_map_iff. exists (Z.to_nat (i - 1)). split; [lia|].
  apply in_seq. lia.
Qed.

Example format_03d_examples :
  format_03d 1 = "001"%string /\ format_03d 2 = "002"%string
  /\ format_03d 42 = "042"%string /\ format_03d 1000 = "1000"%string.
Proof. repeat split. Qed.

(** What [add_lot] answers to a POST of an administrator, by the fate of
    its two commits. *)
Lemma add_lot_serve (env : Env) (db : DB) (s : Session) (form : AddLotForm) :
  session env = Some s ->
  sess_is_admin s = true ->
  let lot :=
    ParkingLot.mk (next_pk (parking_lot db)) (form_name form) (form_location form)
                  (form_total_spots form) (form_price_per_hour form) in
  let spots :=
    new_spots (next_pk (parking_spot db)) (ParkingLot.id lot)
              (Z.to_nat (form_total_spots form)) in
  serve (add_lot (POST form)) env db
  = match commit_results env with
    | false :: _ =>
        (db, Render "add_lot.html",
         [Message "Error occurred while adding parking lot" "error"])
    | true :: false :: _ =>
        (mkDB (parking_lot db ++ [lot]) (parking_spot db) (parking_booking db),
         Render "add_lot.html",
         [Message "Error occurred while adding parking lot" "error"])
    | _ =>
        (mkDB (parking_lot db ++ [lot]) (parking_spot db ++ spots)
              (parking_booking db),
         Redirect "admin_dashboard",
         [Message "Parking lot added successfully!" "success"])
    end.
Proof.
  intros Hs Hadm lot spots.
  unfold serve, add_lot, admin_required. rewrite Hs, Hadm.
  unfold try_except, bind. unfold add_parking_lot at 1.
  unfold bind, query, modify, ret.
  cbn [work stored commits flashed parking_lot parking_spot parking_booking].
  fold lot. rewrite range_from_1.
  destruct (commit_results env) as [|[|] [|[|] rest]];
    unfold commit at 1;
    cbn [work stored commits flashed parking_lot parking_spot parking_booking];
    try reflexivity;
    rewrite for_each_add_parking_spot;
    cbn [work stored commits flashed parking_lot parking_spot parking_booking];
    rewrite new_spots_fold; reflexivity.
Qed.

(** C7.  A POST to [add_lot] from an administrator's session, when the two
    commits succeed, stores one new lot row with the given name, location,
    spot count and price, followed by exactly [total_spots] new spot rows
    (none when the count is not positive); the spot at position [j]
    (counting from 0) belongs to the new lot, is labelled with the
    zero-padded number [j + 1] and is not occupied. *)
Theorem add_lot_creates_spots
    (env : Env) (db : DB) (s : Session) (form : AddLotForm) :
  session env = Some s ->
  sess_is_admin s = true ->
  commits_succeed 2 (commit_results env) = true ->
  let lot :=
    ParkingLot.mk (next_pk (parking_lot db)) (form_name form) (form_location form)
                  (form_total_spots form) (form_price_per_hour form) in
  let n := Z.to_nat (form_total_spots form) in
  let spots := new_spots (next_pk (parking_spot db)) (ParkingLot.id lot) n in
  serve (add_lot (POST form)) env db
  = (mkDB (parking_lot db ++ [lot]) (parking_spot db ++ spots) (parking_booking db),
     Redirect "admin_dashboard",
     [Message "Parking lot added successfully!" "success"])
  /\ List.length spots = n
  /\ (forall j, (j < n)%nat ->
        nth_error spots j
        = Some (ParkingSpot.mk (next_pk (parking_spot db) + Z.of_nat j)
                               (format_03d (Z.of_nat j + 1))
                               (ParkingLot.id lot) false)).
Proof.
  intros Hs Hadm Hc lot n spots. split; [|split].
  - rewrite (add_lot_serve env db s form Hs Hadm). cbv zeta.
    unfold commits_succeed in Hc.
    destruct (commit_results env) as [|[|] [|[|] rest]]; cbn in Hc;
      try discriminate; reflexivity.
  - unfold spots, new_spots. now rewrite length_map, length_seq.
  - intros j Hj. now apply new_spots_nth.
Qed.

Lemma add_lot_creates_spots_witness :
  (session (at_time (Some admin) noon) = Some admin
   /\ sess_is_admin admin = true
   /\ commits_succeed 2 (commit_results (at_time (Some admin) noon)) = true)
  /\ serve (add_lot (POST lot_A_form)) (at_time (Some admin) noon) empty_db
     = (mkDB [ParkingLot.mk 1 "A" "Main Street" 2 (FFin 10)]
             [ParkingSpot.mk 1 "001" 1 false; ParkingSpot.mk 2 "002" 1 false]
             [],
        Redirect "admin_dashboard",
        [Message "Parking lot added successfully!" "success"]).
Proof.
  split; [repeat split|].
  exact (proj1 (add_lot_creates_spots (at_time (Some admin) noon) empty_db admin
                  lot_A_form eq_refl eq_refl eq_refl)).
Defined.

(* ================================================================== *)
(** * Lemmas: the booking a successful allocation creates *)
(* ================================================================== *)

Lemma find_append {A : Type} (p : A -> bool) (l1 l2 : list A) :
  find p (l1 ++ l2)
  = match find p l1 with
    | Some x => Some x
    | None => find p l2
    end.
Proof.
  induction l1 as [|x l1 IH]; cbn [app find]; [reflexivity|].
  destruct (p x); [reflexivity|exact IH].
Qed.

Section InsertFacts.
Context {R : Type} `{Model R}.

Lemma get_fresh (t : list R) (k : Z) : next_pk t <= k -> get t k = None.
Proof.
  intros Hk. unfold get. destruct (find _ t) as [r|] eqn:E; [|reflexivity].
  apply find_some in E. destruct E as [Hin Hpk]. apply Z.eqb_eq in Hpk.
  apply next_pk_above in Hin. lia.
Qed.

Lemma get_insert_new (row : Z -> R) (t : list R) :
  pk (row (next_pk t)) = next_pk t ->
  get (insert row t) (next_pk t) = Some (row (next_pk t)).
Proof.
  intros Hr. unfold insert, get. rewrite find_append.
  pose proof (get_fresh t (next_pk t) (Z.le_refl _)) as Hn. unfold get in Hn.
  rewrite Hn. cbn [find]. now rewrite Hr, Z.eqb_refl.
Qed.

Lemma get_insert_old (row : Z -> R) (t : list R) (k : Z) :
  pk (row (next_pk t)) = next_pk t ->
  k <> next_pk t ->
  get (insert row t) k = get t k.
Proof.
  intros Hr Hk. unfold insert, get. rewrite find_append.
  destruct (find _ t); [reflexivity|]. cbn [find]. rewrite Hr.
  destruct (next_pk t =? k) eqn:E; [apply Z.eqb_eq in E; congruence|reflexivity].
Qed.
End InsertFacts.

(** What a successful allocation stores, field by field: the first free
    spot of the lot is now occupied, and there is one new booking, active,
    of the requesting user on that spot, without exit time or charge.  Its
    entry time is [entry_time_default], not the time of the request. *)
Lemma booked_rows (env : Env) (uid : Z) (form : BookForm) (spot : ParkingSpot.t)
    (db : DB) :
  first_free_spot (form_lot_id form) (parking_spot db) = Some spot ->
  let k := next_pk (parking_booking db) in
  let db' := booked env uid form spot db in
  get (parking_booking db') k
  = Some (ParkingBooking.mk k uid (ParkingSpot.id spot) (form_vehicle_number form)
            (entry_time_default env) None None "active")
  /\ (forall j, j <> k -> get (parking_booking db') j = get (parking_booking db) j)
  /\ get (parking_spot db') (ParkingSpot.id spot)
     = Some (ParkingSpot.set_is_occupied true spot)
  /\ (forall j, j <> ParkingSpot.id spot ->
        get (parking_spot db') j = get (parking_spot db) j)
  /\ parking_lot db' = parking_lot db.
Proof.
  intros Hf k db'. unfold db', booked. cbn [parking_booking parking_spot parking_lot].
  repeat split.
  - unfold k.
    exact (get_insert_new
             (fun k => ParkingBooking.mk k uid (ParkingSpot.id spot)
                         (form_vehicle_number form) (entry_time_default env)
                         None None "active")
             (parking_booking db) eq_refl).
  - intros j Hj. now apply get_insert_old.
  - unfold first_free_spot in Hf.
    assert (Hg : exists r, get (parking_spot db) (ParkingSpot.id spot) = Some r).
    { apply find_some in Hf. destruct Hf as [Hin _].
      destruct (get (parking_spot db) (ParkingSpot.id spot)) as [r|] eqn:E; [eauto|].
      unfold get in E. eapply find_none in E; [|exact Hin].
      cbn [pk ParkingSpot_Model] in E. now rewrite Z.eqb_refl in E. }
    destruct Hg as [r Hg]. eapply get_update_same; [exact Hg|reflexivity].
  - intros j Hj. apply get_update_other.
    cbn [pk ParkingSpot_Model ParkingSpot.set_is_occupied ParkingSpot.id].
    congruence.
Qed.

(** C2, at a request made one hour after [models.py] was imported: the
    booking is created and the spot taken as the claim says, but the entry
    time stored is the time of the import, one hour before the request. *)
Theorem book_spot_entry_time_is_import_time :
  let env := mkEnv (Some alice) (noon + hour) noon [] in
  exists db' b,
    serve (book_spot (POST (mkBookForm 1 "KA-01"))) env db_lot_A
    = (db', Redirect "user_dashboard", [Message "Spot booked successfully!" "success"])
    /\ get (parking_spot db') 1 = Some (ParkingSpot.mk 1 "001" 1 true)
    /\ get (parking_booking db') 1 = Some b
    /\ b = ParkingBooking.mk 1 2 1 "KA-01" noon None None "active"
    /\ ParkingBooking.entry_time b = entry_time_default env
    /\ ParkingBooking.entry_time b <> now env.
Proof.
  cbv zeta. eexists. eexists. split; [reflexivity|].
  split; [reflexivity|]. split; [reflexivity|]. split; [reflexivity|].
  split; [reflexivity|]. discriminate.
Qed.

(* ================================================================== *)
(** * Lemmas: checking out a completed booking *)
(* ================================================================== *)

Lemma db_alice_out_again_reachable : reachable db_alice_out_again.
Proof.
  exists [(at_time (Some admin) noon, AddLot (POST lot_A_form));
          (at_time (Some alice) noon, BookSpot (POST (mkBookForm 1 "KA-01")));
          (at_time (Some alice) (noon + 2 * hour), ExitParking 1);
          (at_time (Some bob) (noon + 3 * hour), BookSpot (POST (mkBookForm 1 "KA-02")));
          (at_time (Some alice) (noon + 5 * hour), ExitParking 1)].
  vm_compute; reflexivity.
Qed.

(** C3, on the scenario: while bob is parked on spot 1, alice's second
    checkout of her completed booking of that spot clears the spot's flag.
    The invariant holds before the request and not after it: spot 1 is
    flagged free and has exactly one active booking, bob's. *)
Theorem recheckout_frees_occupied_spot :
  reachable db_alice_out_again
  /\ occupancy_invariant db_bob_in
  /\ get (parking_booking db_bob_in) 1
     = Some (ParkingBooking.mk 1 2 1 "KA-01" noon (Some (noon + 2 * hour))
               (Some (FFin 20)) "completed")
  /\ db_alice_out_again
     = step db_bob_in (at_time (Some alice) (noon + 5 * hour), ExitParking 1)
  /\ get (parking_spot db_alice_out_again) 1 = Some (ParkingSpot.mk 1 "001" 1 false)
  /\ active_bookings 1 db_alice_out_again
     = [ParkingBooking.mk 2 3 1 "KA-02" noon None None "active"]
  /\ ~ occupancy_invariant db_alice_out_again.
Proof.
  split; [exact db_alice_out_again_reachable|].
  split.
  { intros s Hin. vm_compute in Hin.
    destruct Hin as [<-|[<-|[]]]; vm_compute; split; intros; congruence. }
  split; [vm_compute; reflexivity|]. split; [vm_compute; reflexivity|].
  split; [vm_compute; reflexivity|]. split; [vm_compute; reflexivity|].
  intros Hinv. specialize (Hinv (ParkingSpot.mk 1 "001" 1 false)).
  assert (Hin : In (ParkingSpot.mk 1 "001" 1 false)
                   (parking_spot db_alice_out_again))
    by (vm_compute; left; reflexivity).
  apply Hinv in Hin. destruct Hin as [_ Hback].
  assert (Hone : List.length
                   (active_bookings (ParkingSpot.id (ParkingSpot.mk 1 "001" 1 false))
                                    db_alice_out_again) = 1%nat)
    by (vm_compute; reflexivity).
  apply Hback in Hone. discriminate.
Qed.

(** C6, on the scenario: alice's booking is completed, with exit time and
    charge set by her checkout; her second checkout, three hours later,
    writes both fields again. *)
Theorem recheckout_overwrites_exit_time_and_charge :
  get (parking_booking db_bob_in) 1
  = Some (ParkingBooking.mk 1 2 1 "KA-01" noon (Some (noon + 2 * hour))
            (Some (FFin 20)) "completed")
  /\ serve (exit_parking 1) (at_time (Some alice) (noon + 5 * hour)) db_bob_in
     = (db_alice_out_again, Redirect "user_dashboard", [ThankYou (Some (FFin 50))])
  /\ get (parking_booking db_alice_out_again) 1
     = Some (ParkingBooking.mk 1 2 1 "KA-01" noon (Some (noon + 5 * hour))
               (Some (FFin 50)) "completed").
Proof.
  split; [reflexivity|]. split; [vm_compute; reflexivity|reflexivity].
Qed.


(* ================================================================== *)
(** * Lemmas: what a request can do to the database *)
(* ================================================================== *)

Lemma step_add_lot_cases (db : DB) (env : Env) (req : Request AddLotForm) :
  step db (env, AddLot req) = db
  \/ exists lot n,
       step db (env, AddLot req)
       = mkDB (parking_lot db ++ [lot]) (parking_spot db) (parking_booking db)
       \/ step db (env, AddLot req)
          = mkDB (parking_lot db ++ [lot])
                 (parking_spot db ++ new_spots (next_pk (parking_spot db))
                                               (ParkingLot.id lot) n)
                 (parking_booking db).
Proof.
  unfold step. cbn [fst snd route].
  destruct (session env) as [s|] eqn:Hs;
    [|left; unfold serve, add_lot, admin_required; now rewrite Hs].
  destruct (sess_is_admin s) eqn:Hadm;
    [|left; unfold serve, add_lot, admin_required; now rewrite Hs, Hadm].
  destruct req as [|form];
    [left; unfold serve, add_lot, admin_required; now rewrite Hs, Hadm|].
  rewrite (add_lot_serve env db s form Hs Hadm). cbv zeta.
  destruct (commit_results env) as [|[|] [|[|] rest]]; cbn [fst];
    try (now left); right;
    exists (ParkingLot.mk (next_pk (parking_lot db)) (form_name form)
              (form_location form) (form_total_spots form)
              (form_price_per_hour form)),
           (Z.to_nat (form_total_spots form));
    solve [left; reflexivity | right; reflexivity].
Qed.

Lemma step_book_spot_cases (db : DB) (env : Env) (req : Request BookForm) :
  step db (env, BookSpot req) = db
  \/ exists uid form spot,
       first_free_spot (form_lot_id form) (parking_spot db) = Some spot
       /\ step db (env, BookSpot req) = booked env uid form spot db.
Proof.
  unfold step. cbn [fst snd route].
  destruct (session env) as [s|] eqn:Hs.
  - destruct req as [|form].
    + left. unfold serve, book_spot, login_required. now rewrite Hs.
    + rewrite (book_spot_serve _ _ _ s Hs).
      destruct (first_free_spot (form_lot_id form) (parking_spot db)) as [spot|] eqn:Hf;
        [|now left].
      destruct (commit_succeeds (commit_results env)); [|now left].
      right. exists (sess_user_id s), form, spot. split; [exact Hf|reflexivity].
  - left. unfold serve, book_spot, login_required. now rewrite Hs.
Qed.

Lemma step_exit_parking_cases (db : DB) (env : Env) (k : Z) :
  step db (env, ExitParking k) = db
  \/ exists b spot lot,
       get (parking_booking db) k = Some b
       /\ get (parking_spot db) (ParkingBooking.spot_id b) = Some spot
       /\ step db (env, ExitParking k) = checked_out (now env) b spot lot db.
Proof.
  unfold step. cbn [fst snd route].
  destruct (session env) as [s|] eqn:Hs;
    [|left; unfold serve, exit_parking, login_required; now rewrite Hs].
  destruct (get (parking_booking db) k) as [b|] eqn:Hb;
    [|left; unfold serve, exit_parking, login_required; rewrite Hs;
      unfold get_or_404, bind, query; cbn [work]; now rewrite Hb].
  destruct (Z.eq_dec (ParkingBooking.user_id b) (sess_user_id s)) as [Hown|Hown];
    [|left; unfold serve, exit_parking, login_required; rewrite Hs;
      unfold get_or_404, bind, query, session_user_id; cbn [work];
      rewrite Hb, Hs; cbn [ret]; apply Z.eqb_neq in Hown; now rewrite Hown].
  destruct (get (parking_spot db) (ParkingBooking.spot_id b)) as [spot|] eqn:Hsp;
    [|left; unfold serve, exit_parking, login_required; rewrite Hs;
      unfold get_or_404, bind, query, session_user_id, attr_of; cbn [work];
      rewrite Hb, Hs; cbn [ret]; rewrite Hown, Z.eqb_refl;
      cbn [negb work ParkingBooking.set_exit_time ParkingBooking.spot_id];
      now rewrite Hsp].
  destruct (get (parking_lot db) (ParkingSpot.lot_id spot)) as [lot|] eqn:Hl;
    [|left; unfold serve, exit_parking, login_required; rewrite Hs;
      unfold get_or_404, bind, query, session_user_id, attr_of; cbn [work];
      rewrite Hb, Hs; cbn [ret]; rewrite Hown, Z.eqb_refl;
      cbn [negb work ParkingBooking.set_exit_time ParkingBooking.spot_id];
      rewrite Hsp; cbn [ret work]; now rewrite Hl].
  rewrite (exit_parking_serve env db k s b spot lot Hs Hb Hown Hsp Hl).
  destruct (commit_succeeds (commit_results env)); [|now left].
  right. exists b, spot, lot. repeat split; assumption.
Qed.

Lemma step_delete_lot_cases (db : DB) (env : Env) (k : Z) :
  step db (env, DeleteLot k) = db
  \/ (count_occupied k (parking_spot db) = 0%nat
      /\ step db (env, DeleteLot k) = deleted k db).
Proof.
  unfold step. cbn [fst snd route].
  destruct (get (parking_lot db) k) as [lot|] eqn:Hl.
  - rewrite (delete_lot_serve _ _ _ _ Hl).
    destruct (0 <? count_occupied k (parking_spot db))%nat eqn:E; [now left|].
    destruct (commit_succeeds (commit_results env)); [|now left].
    right. apply Nat.ltb_ge in E. split; [lia|reflexivity].
  - left. unfold serve, delete_lot, get_or_404, bind, query. cbn [work].
    now rewrite Hl.
Qed.

Lemma step_dashboards (db : DB) (env : Env) :
  step db (env, AdminDashboard) = db
  /\ step db (env, UserDashboard) = db
  /\ step db (env, ViewReports) = db.
Proof.
  unfold step. cbn [fst snd route].
  unfold serve, admin_dashboard, user_dashboard, view_reports,
    admin_required, login_required.
  destruct (session env) as [s|]; [destruct (sess_is_admin s)|]; repeat split.
Qed.

(* ================================================================== *)
(** * Lemmas: the occupancy invariant *)
(* ================================================================== *)

Section UpdateFacts.
Context {R : Type} `{Model R}.

Lemma In_update (r' x : R) (t : list R) :
  In x (update r' t) -> x = r' \/ (In x t /\ pk x <> pk r').
Proof.
  unfold update. intros Hin. apply in_map_iff in Hin.
  destruct Hin as (y & Hy & Hin). destruct (pk y =? pk r') eqn:E.
  - now left.
  - right. subst x. apply Z.eqb_neq in E. tauto.
Qed.

(** Updating a row changes how many rows satisfy a test by that row
    alone. *)
Lemma count_update (p : R -> bool) (r r' : R) (t : list R) :
  NoDup (map pk t) -> In r t -> pk r' = pk r ->
  (List.length (filter p (update r' t)) + (if p r then 1 else 0)
   = List.length (filter p t) + (if p r' then 1 else 0))%nat.
Proof.
  intros Hnd Hin Hpk. induction t as [|x t IH]; [contradiction|].
  cbn [map] in Hnd. inversion Hnd as [|? ? Hni Hnd']; subst.
  change (update r' (x :: t))
    with ((if pk x =? pk r' then r' else x) :: update r' t).
  destruct (pk x =? pk r') eqn:E.
  - apply Z.eqb_eq in E.
    assert (Hx : r = x).
    { destruct Hin as [Hx|Hin]; [now symmetry|]. exfalso. apply Hni.
      rewrite E, Hpk. now apply in_map. }
    subst x. rewrite update_absent by (rewrite Hpk; exact Hni).
    cbn [filter]. destruct (p r), (p r'); cbn [List.length]; lia.
  - apply Z.eqb_neq in E.
    assert (Hin' : In r t).
    { destruct Hin as [Hx|Hin]; [|exact Hin]. subst x. congruence. }
    specialize (IH Hnd' Hin'). cbn [filter].
    destruct (p x); cbn [List.length]; lia.
Qed.
End UpdateFacts.

Lemma active_bookings_In (sid : Z) (db : DB) (b : ParkingBooking.t) :
  In b (active_bookings sid db)
  <-> In b (parking_booking db) /\ ParkingBooking.spot_id b = sid
      /\ ParkingBooking.status b = "active"%string.
Proof.
  unfold active_bookings. rewrite filter_In, andb_true_iff, Z.eqb_eq, String.eqb_eq.
  tauto.
Qed.

Lemma active_booking_occupies (db : DB) (b : ParkingBooking.t) (s : ParkingSpot.t) :
  consistent db ->
  In b (parking_booking db) -> ParkingBooking.status b = "active"%string ->
  In s (parking_spot db) -> ParkingSpot.id s = ParkingBooking.spot_id b ->
  ParkingSpot.is_occupied s = true.
Proof.
  intros Hc Hb Hact Hs Hid. pose proof (occupied_iff_active db Hc s Hs) as Hocc.
  assert (Hin : In b (active_bookings (ParkingSpot.id s) db)).
  { apply active_bookings_In. auto. }
  destruct (ParkingSpot.is_occupied s); [reflexivity|].
  destruct (active_bookings (ParkingSpot.id s) db); [contradiction|discriminate].
Qed.

Lemma new_spots_In (first_pk lot_id : Z) (n : nat) (s : ParkingSpot.t) :
  In s (new_spots first_pk lot_id n) ->
  first_pk <= ParkingSpot.id s /\ ParkingSpot.is_occupied s = false
  /\ ParkingSpot.lot_id s = lot_id.
Proof.
  unfold new_spots. intros Hin. apply in_map_iff in Hin.
  destruct Hin as (j & <- & _). cbn. split; [lia|split; reflexivity].
Qed.

Lemma new_spots_NoDup (first_pk lot_id : Z) (n : nat) :
  NoDup (map pk (new_spots first_pk lot_id n)).
Proof.
  unfold new_spots. rewrite map_map. cbn [pk ParkingSpot_Model ParkingSpot.id].
  generalize 0%nat as base. induction n as [|n IH]; intros base; cbn [seq map].
  - constructor.
  - constructor; [|apply IH]. intros Hin. apply in_map_iff in Hin.
    destruct Hin as (j & Hj & Hin). apply in_seq in Hin. lia.
Qed.

Lemma map_pk_bound {R : Type} `{Model R} (t : list R) (k : Z) :
  In k (map pk t) -> k < next_pk t.
Proof.
  intros Hin. apply in_map_iff in Hin. destruct Hin as (r & <- & Hin).
  now apply next_pk_above.
Qed.

(** Creating a lot keeps the tables consistent, whether the spots were
    stored or not. *)
Lemma consistent_added (db : DB) (lot : ParkingLot.t) (n : nat) :
  consistent db ->
  consistent (mkDB (parking_lot db ++ [lot])
                   (parking_spot db ++ new_spots (next_pk (parking_spot db))
                                                 (ParkingLot.id lot) n)
                   (parking_booking db)).
Proof.
  intros [Hsk Hbk Hlot Hocc Hex Hcl].
  constructor; cbn [parking_lot parking_spot parking_booking].
  - rewrite map_app. apply NoDup_app; [exact Hsk|apply new_spots_NoDup|].
    intros k Hk Hk'. apply map_pk_bound in Hk.
    apply in_map_iff in Hk'. destruct Hk' as (s & <- & Hs).
    apply new_spots_In in Hs. cbn [pk ParkingSpot_Model] in *. lia.
  - exact Hbk.
  - intros s Hin. rewrite map_app. apply in_or_app.
    apply in_app_or in Hin. destruct Hin as [Hin|Hin].
    + left. now apply Hlot.
    + right. apply new_spots_In in Hin. destruct Hin as (_ & _ & ->).
      now left.
  - intros s Hin. apply in_app_or in Hin. destruct Hin as [Hin|Hin].
    + exact (Hocc s Hin).
    + apply new_spots_In in Hin. destruct Hin as (Hge & -> & _).
      destruct (active_bookings (ParkingSpot.id s) _) as [|b rest] eqn:E;
        [reflexivity|exfalso].
      assert (Hb : In b (b :: rest)) by now left.
      rewrite <- E in Hb. apply active_bookings_In in Hb.
      cbn [parking_booking] in Hb. destruct Hb as (Hb & Hid & Hact).
      specialize (Hex b Hb Hact). apply map_pk_bound in Hex. lia.
  - intros b Hb Hact. rewrite map_app. apply in_or_app. left. now apply Hex.
  - exact Hcl.
Qed.

Lemma consistent_lot_added (db : DB) (lot : ParkingLot.t) :
  consistent db ->
  consistent (mkDB (parking_lot db ++ [lot]) (parking_spot db) (parking_booking db)).
Proof.
  intros Hc. pose proof (consistent_added db lot 0 Hc) as H0.
  unfold new_spots in H0. cbn [seq map] in H0. now rewrite app_nil_r in H0.
Qed.

Lemma first_free_spot_some (lot_id : Z) (spots : list ParkingSpot.t)
    (spot : ParkingSpot.t) :
  first_free_spot lot_id spots = Some spot ->
  In spot spots /\ ParkingSpot.lot_id spot = lot_id
  /\ ParkingSpot.is_occupied spot = false.
Proof.
  unfold first_free_spot. intros Hf. apply find_some in Hf.
  destruct Hf as [Hin Hp]. apply andb_true_iff in Hp. destruct Hp as [Hl Ho].
  apply Z.eqb_eq in Hl. apply negb_true_iff in Ho. auto.
Qed.

(** An allocation keeps the tables consistent. *)
Lemma consistent_booked (env : Env) (uid : Z) (form : BookForm)
    (spot : ParkingSpot.t) (db : DB) :
  first_free_spot (form_lot_id form) (parking_spot db) = Some spot ->
  consistent db -> consistent (booked env uid form spot db).
Proof.
  intros Hf Hc. pose proof Hc as [Hsk Hbk Hlot Hocc Hex Hcl].
  apply first_free_spot_some in Hf. destruct Hf as (Hin & _ & Hfree).
  set (new := fun k => ParkingBooking.mk k uid (ParkingSpot.id spot)
                         (form_vehicle_number form) (entry_time_default env)
                         None None "active").
  assert (Hact : forall sid,
             active_bookings sid (booked env uid form spot db)
             = (active_bookings sid db
                ++ if ParkingSpot.id spot =? sid
                   then [new (next_pk (parking_booking db))] else [])%list).
  { intros sid. unfold active_bookings, booked, insert. cbn [parking_booking].
    rewrite filter_app. cbn [filter ParkingBooking.spot_id ParkingBooking.status].
    change (String.eqb "active" "active") with true. rewrite andb_true_r.
    destruct (ParkingSpot.id spot =? sid); reflexivity. }
  constructor.
  - unfold booked. cbn [parking_spot]. now rewrite map_pk_update.
  - unfold booked. cbn [parking_booking]. now apply NoDup_pk_insert.
  - intros s Hs. unfold booked in *. cbn [parking_spot parking_lot] in *.
    apply In_update in Hs. destruct Hs as [->|[Hs _]]; [|now apply Hlot].
    cbn [ParkingSpot.set_is_occupied ParkingSpot.lot_id]. now apply Hlot.
  - intros s Hs. rewrite Hact, length_app.
    unfold booked in Hs. cbn [parking_spot] in Hs. apply In_update in Hs.
    destruct Hs as [->|[Hs Hne]].
    + cbn [ParkingSpot.set_is_occupied ParkingSpot.id ParkingSpot.is_occupied].
      rewrite Z.eqb_refl, (Hocc spot Hin), Hfree. reflexivity.
    + cbn [pk ParkingSpot_Model ParkingSpot.set_is_occupied ParkingSpot.id] in Hne.
      destruct (ParkingSpot.id spot =? ParkingSpot.id s) eqn:E;
        [apply Z.eqb_eq in E; congruence|].
      rewrite (Hocc s Hs). cbn [List.length]. lia.
  - intros b Hb Hst. unfold booked in *. cbn [parking_spot parking_booking] in *.
    rewrite map_pk_update. unfold insert in Hb. apply in_app_or in Hb.
    destruct Hb as [Hb|[<-|[]]]; [now apply Hex|].
    cbn [ParkingBooking.spot_id]. apply in_map_iff. exists spot. auto.
  - intros b Hb Hst. unfold booked, insert in Hb. cbn [parking_booking] in Hb.
    apply in_app_or in Hb. destruct Hb as [Hb|[<-|[]]]; [now apply Hcl|].
    split; reflexivity.
Qed.

(** The checkout of an active booking keeps the tables consistent. *)
Lemma consistent_checked_out (t : datetime) (k : Z) (b : ParkingBooking.t)
    (spot : ParkingSpot.t) (lot : ParkingLot.t) (db : DB) :
  get (parking_booking db) k = Some b ->
  ParkingBooking.status b = "active"%string ->
  get (parking_spot db) (ParkingBooking.spot_id b) = Some spot ->
  consistent db -> consistent (checked_out t b spot lot db).
Proof.
  intros Hb Hst Hsp Hc. pose proof Hc as [Hsk Hbk Hlot Hocc Hex Hcl].
  pose proof (get_some_in _ _ _ Hb) as Hbin.
  pose proof (get_some_in _ _ _ Hsp) as Hsin.
  pose proof (get_some_pk _ _ _ Hsp) as Hsid. cbn [pk ParkingSpot_Model] in Hsid.
  unfold checked_out.
  set (b' := ParkingBooking.set_status "completed" _).
  set (spot' := ParkingSpot.set_is_occupied false spot).
  assert (Hb'st : ParkingBooking.status b' <> "active"%string) by discriminate.
  constructor; cbn [parking_lot parking_spot parking_booking].
  - now rewrite map_pk_update.
  - now rewrite map_pk_update.
  - intros s Hs. apply In_update in Hs. destruct Hs as [->|[Hs _]]; [|now apply Hlot].
    cbn [spot' ParkingSpot.set_is_occupied ParkingSpot.lot_id]. now apply Hlot.
  - intros s Hs. unfold active_bookings. cbn [parking_booking].
    pose proof (count_update
                  (fun x => (ParkingBooking.spot_id x =? ParkingSpot.id s)
                            && String.eqb (ParkingBooking.status x) "active")
                  b b' (parking_booking db) Hbk Hbin eq_refl) as Hcount.
    cbv beta in Hcount. rewrite Hst in Hcount.
    change (ParkingBooking.status b') with "completed"%string in Hcount.
    change (String.eqb "completed" "active") with false in Hcount.
    change (String.eqb "active" "active") with true in Hcount.
    rewrite andb_false_r, andb_true_r in Hcount.
    apply In_update in Hs. destruct Hs as [->|[Hs Hne]].
    + cbn [spot' ParkingSpot.set_is_occupied ParkingSpot.id ParkingSpot.is_occupied]
        in *.
      rewrite Hsid, Z.eqb_refl in Hcount.
      pose proof (Hocc spot Hsin) as Ho. unfold active_bookings in Ho.
      rewrite Hsid in Ho. rewrite Hsid.
      destruct (ParkingSpot.is_occupied spot); lia.
    + cbn [pk ParkingSpot_Model spot' ParkingSpot.set_is_occupied ParkingSpot.id]
        in Hne.
      destruct (ParkingBooking.spot_id b =? ParkingSpot.id s) eqn:E;
        [apply Z.eqb_eq in E; congruence|].
      pose proof (Hocc s Hs) as Ho. unfold active_bookings in Ho. lia.
  - intros x Hx Hxst. rewrite map_pk_update. apply In_update in Hx.
    destruct Hx as [->|[Hx _]]; [contradiction|now apply Hex].
  - intros x Hx Hxst. apply In_update in Hx.
    destruct Hx as [->|[Hx _]]; [contradiction|now apply Hcl].
Qed.

Lemma count_occupied_zero (lot_id : Z) (spots : list ParkingSpot.t)
    (s : ParkingSpot.t) :
  count_occupied lot_id spots = 0%nat ->
  In s spots -> ParkingSpot.lot_id s = lot_id ->
  ParkingSpot.is_occupied s = false.
Proof.
  intros Hz Hin Hlot. destruct (ParkingSpot.is_occupied s) eqn:E; [|reflexivity].
  assert (Hpos : (0 < count_occupied lot_id spots)%nat).
  { apply count_occupied_pos. exists s. auto. }
  lia.
Qed.

(** Deleting a lot without occupied spots keeps the tables consistent. *)
Lemma consistent_deleted (lot_id : Z) (db : DB) :
  count_occupied lot_id (parking_spot db) = 0%nat ->
  consistent db -> consistent (deleted lot_id db).
Proof.
  intros Hz Hc. pose proof Hc as [Hsk Hbk Hlot Hocc Hex Hcl]. constructor.
  - unfold deleted. cbn [parking_spot]. now apply NoDup_pk_delete.
  - exact Hbk.
  - intros s Hs. apply deleted_spots in Hs. destruct Hs as [Hs Hne].
    pose proof (Hlot s Hs) as Hin. apply in_map_iff in Hin.
    destruct Hin as (l & Hid & Hl). apply in_map_iff. exists l.
    split; [exact Hid|]. apply deleted_lots. split; [exact Hl|].
    cbn [pk ParkingLot_Model] in Hid. congruence.
  - intros s Hs. apply deleted_spots in Hs. exact (Hocc s (proj1 Hs)).
  - intros b Hb Hst. cbn [deleted parking_booking] in Hb.
    pose proof (Hex b Hb Hst) as Hin. apply in_map_iff in Hin.
    destruct Hin as (s & Hid & Hs). apply in_map_iff. exists s.
    split; [exact Hid|]. apply deleted_spots. split; [exact Hs|].
    intros Hk.
    pose proof (count_occupied_zero _ _ _ Hz Hs Hk) as Hfree.
    pose proof (active_booking_occupies db b s Hc Hb Hst Hs Hid) as Hoccd.
    congruence.
  - exact Hcl.
Qed.

(** Every request keeps the tables consistent, except the checkout of a
    booking that is not active. *)
Lemma consistent_step (db : DB) (r : Env * Call) :
  consistent db -> ~ checks_out_closed db r -> consistent (step db r).
Proof.
  intros Hc Hguard. destruct r as [env call]. destruct call.
  - now rewrite (proj1 (step_dashboards db env)).
  - destruct (step_add_lot_cases db env req) as [->|(lot & n & [->| ->])].
    + exact Hc.
    + now apply consistent_lot_added.
    + now apply consistent_added.
  - now rewrite (proj1 (proj2 (step_dashboards db env))).
  - destruct (step_book_spot_cases db env req) as [->|(uid & form & spot & Hf & ->)].
    + exact Hc.
    + now apply consistent_booked.
  - destruct (step_exit_parking_cases db env booking_id)
      as [->|(b & spot & lot & Hb & Hsp & ->)]; [exact Hc|].
    apply (consistent_checked_out _ booking_id); try assumption.
    destruct (string_dec (ParkingBooking.status b) "active") as [E|NE];
      [exact E|].
    exfalso. apply Hguard. exists booking_id, b. auto.
  - now rewrite (proj2 (proj2 (step_dashboards db env))).
  - destruct (step_delete_lot_cases db env lot_id) as [->|[Hz ->]].
    + exact Hc.
    + now apply consistent_deleted.
Qed.

Lemma consistent_empty : consistent empty_db.
Proof.
  constructor; cbn; try constructor; intros; contradiction.
Qed.

(** In a consistent state the occupancy invariant holds. *)
Lemma consistent_occupancy (db : DB) : consistent db -> occupancy_invariant db.
Proof.
  intros Hc s Hs. rewrite (occupied_iff_active db Hc s Hs).
  destruct (ParkingSpot.is_occupied s); split; congruence.
Qed.

(** Without such a request, every state on the way satisfies the occupancy
    invariant. *)
Lemma occupancy_without_closed_checkout (trace : list (Env * Call)) :
  forall db,
    consistent db -> never_checks_out_closed db trace ->
    consistent (run db trace) /\ occupancy_invariant (run db trace).
Proof.
  induction trace as [|r rest IH]; intros db Hc Hn.
  - split; [exact Hc|now apply consistent_occupancy].
  - destruct Hn as [Hr Hrest]. change (run db (r :: rest)) with (run (step db r) rest).
    apply IH; [now apply consistent_step|exact Hrest].
Qed.

(** Only the checkout of a booking writes its fields: any other request
    leaves the stored booking as it is. *)
Lemma step_keeps_booking (db : DB) (r : Env * Call) (k : Z) (b : ParkingBooking.t) :
  get (parking_booking db) k = Some b ->
  snd r <> ExitParking k ->
  get (parking_booking (step db r)) k = Some b.
Proof.
  intros Hb Hr. destruct r as [env call]. cbn [snd] in Hr. destruct call.
  - now rewrite (proj1 (step_dashboards db env)).
  - destruct (step_add_lot_cases db env req) as [->|(lot & n & [->| ->])];
      exact Hb.
  - now rewrite (proj1 (proj2 (step_dashboards db env))).
  - destruct (step_book_spot_cases db env req) as [->|(uid & form & spot & Hf & ->)];
      [exact Hb|].
    unfold booked. cbn [parking_booking]. rewrite get_insert_old; [exact Hb|reflexivity|].
    pose proof (get_some_in _ _ _ Hb) as Hin. apply next_pk_above in Hin.
    rewrite (get_some_pk _ _ _ Hb) in Hin. lia.
  - destruct (step_exit_parking_cases db env booking_id)
      as [->|(b0 & spot & lot & Hb0 & Hsp & ->)]; [exact Hb|].
    unfold checked_out. cbn [parking_booking]. rewrite get_update_other; [exact Hb|].
    cbn [pk ParkingBooking_Model ParkingBooking.set_status
         ParkingBooking.set_total_charge ParkingBooking.set_exit_time
         ParkingBooking.id].
    pose proof (get_some_pk _ _ _ Hb0) as Hk0. cbn [pk ParkingBooking_Model] in Hk0.
    congruence.
  - now rewrite (proj2 (proj2 (step_dashboards db env))).
  - destruct (step_delete_lot_cases db env lot_id) as [->|[Hz ->]]; exact Hb.
Qed.

(* ================================================================== *)
(** * Lemmas: rounding and the charge *)
(* ================================================================== *)

Section ChargeFacts.
Local Open Scope Q_scope.

Ltac qcompare_hyps :=
  repeat match goal with
         | H : (_ ?= _) = Eq |- _ => rewrite <- Qeq_alt in H
         | H : (_ ?= _) = Lt |- _ => rewrite <- Qlt_alt in H
         | H : (_ ?= _) = Gt |- _ => rewrite <- Qgt_alt in H
         end.

Lemma round_half_even_cases (x : Q) :
  round_half_even x = Qfloor x \/ round_half_even x = (Qfloor x + 1)%Z.
Proof.
  unfold round_half_even.
  destruct (x - inject_Z (Qfloor x) ?= 1 # 2); [destruct (Z.even _)| |]; auto.
Qed.

Lemma round_half_even_inject (n : Z) : round_half_even (inject_Z n) = n.
Proof.
  unfold round_half_even. rewrite Qfloor_Z.
  assert (E : (inject_Z n - inject_Z n ?= 1 # 2) = Lt).
  { rewrite <- Qlt_alt. lra. }
  now rewrite E.
Qed.

Lemma round_half_even_mono (x y : Q) :
  x <= y -> (round_half_even x <= round_half_even y)%Z.
Proof.
  intros Hxy. pose proof (Qfloor_resp_le _ _ Hxy) as Hf.
  destruct (Z.eq_dec (Qfloor x) (Qfloor y)) as [E|NE].
  - unfold round_half_even. rewrite <- E.
    destruct (x - inject_Z (Qfloor x) ?= 1 # 2) eqn:Cx;
      destruct (y - inject_Z (Qfloor x) ?= 1 # 2) eqn:Cy;
      try (destruct (Z.even (Qfloor x))); try lia;
      qcompare_hyps; exfalso; lra.
  - destruct (round_half_even_cases x) as [-> | ->];
      destruct (round_half_even_cases y) as [-> | ->]; lia.
Qed.

Lemma pow2_pos (e : Z) : 0 < 2 ^ e.
Proof. apply Qpower_0_lt. reflexivity. Qed.

Lemma pow2_add (a b : Z) : 2 ^ (a + b) == 2 ^ a * 2 ^ b.
Proof. apply Qpower_plus. discriminate. Qed.

Lemma pow2_le (a b : Z) : (a <= b)%Z -> 2 ^ a <= 2 ^ b.
Proof. intros H. apply Qpower_le_compat_l; [exact H|discriminate]. Qed.

Lemma pow2_lt (a b : Z) : (a < b)%Z -> 2 ^ a < 2 ^ b.
Proof. intros H. apply Qpower_lt_compat_l; [exact H|reflexivity]. Qed.

Lemma pow2_lt_inv (a b : Z) : 2 ^ a < 2 ^ b -> (a < b)%Z.
Proof. intros H. apply (Qpower_lt_compat_l_inv 2); [exact H|reflexivity]. Qed.

Lemma pow2_inject (n : Z) : (0 <= n)%Z -> inject_Z (2 ^ n) == 2 ^ n.
Proof. intros H. now apply Zpower_Qpower. Qed.

(** [ilog2] is the floor of the binary logarithm. *)
Lemma ilog2_spec (x : Q) : 0 < x -> 2 ^ ilog2 x <= x /\ x < 2 ^ (ilog2 x + 1).
Proof.
  intros Hx. destruct x as [n d]. unfold Qlt in Hx. cbn in Hx.
  assert (Hn : (0 < n)%Z) by lia.
  pose proof (Z.log2_spec n Hn) as [Hn1 Hn2].
  pose proof (Z.log2_spec (Zpos d) (Pos2Z.is_pos d)) as [Hd1 Hd2].
  pose proof (Z.log2_nonneg n) as Han. pose proof (Z.log2_nonneg (Zpos d)) as Hbn.
  set (a := Z.log2 n) in *. set (b := Z.log2 (Zpos d)) in *.
  assert (Hx' : n # d == inject_Z n / inject_Z (Zpos d)) by apply Qmake_Qdiv.
  assert (Hdpos : 0 < inject_Z (Zpos d)) by (unfold Qlt; cbn; lia).
  assert (Hlow : 2 ^ (a - b - 1) < n # d).
  { rewrite Hx'. apply Qlt_shift_div_l; [exact Hdpos|].
    apply Qlt_le_trans with (2 ^ (a - b - 1) * 2 ^ (b + 1)).
    - apply Qmult_lt_l; [apply pow2_pos|].
      rewrite <- pow2_inject by lia. rewrite <- Zlt_Qlt. exact Hd2.
    - rewrite <- pow2_add. replace (a - b - 1 + (b + 1))%Z with a by lia.
      rewrite <- pow2_inject by lia. rewrite <- Zle_Qle. exact Hn1. }
  assert (Hhigh : n # d < 2 ^ (a - b + 1)).
  { rewrite Hx'. apply Qlt_shift_div_r; [exact Hdpos|].
    apply Qlt_le_trans with (2 ^ (a - b + 1) * 2 ^ b).
    - rewrite <- pow2_add. replace (a - b + 1 + b)%Z with (a + 1)%Z by lia.
      rewrite <- pow2_inject by lia. rewrite <- Zlt_Qlt. exact Hn2.
    - apply Qmult_le_l; [apply pow2_pos|].
      rewrite <- pow2_inject by lia. rewrite <- Zle_Qle. exact Hd1. }
  unfold ilog2. cbn [Qnum Qden]. fold a. fold b.
  destruct (Qle_bool (2 ^ (a - b)) (n # d)) eqn:E.
  - apply Qle_bool_iff in E. split; [exact E|exact Hhigh].
  - split.
    + apply Qlt_le_weak. exact Hlow.
    + replace (a - b - 1 + 1)%Z with (a - b)%Z by lia.
      apply Qnot_le_lt. intros Hle. apply Qle_bool_iff in Hle. congruence.
Qed.

Lemma ilog2_mono (x y : Q) : 0 < x -> x <= y -> (ilog2 x <= ilog2 y)%Z.
Proof.
  intros Hx Hxy. assert (Hy : 0 < y) by lra.
  destruct (ilog2_spec x Hx) as [Hx1 _]. destruct (ilog2_spec y Hy) as [_ Hy2].
  assert (H : 2 ^ ilog2 x < 2 ^ (ilog2 y + 1)) by lra.
  apply pow2_lt_inv in H. lia.
Qed.

Lemma ulp_exp_mono (x y : Q) : 0 < x -> x <= y -> (ulp_exp x <= ulp_exp y)%Z.
Proof.
  intros Hx Hxy. unfold ulp_exp. pose proof (ilog2_mono x y Hx Hxy). lia.
Qed.

Lemma scaled_mono (x y : Q) (e : Z) : x <= y -> x / 2 ^ e <= y / 2 ^ e.
Proof.
  intros Hxy. unfold Qdiv. apply Qmult_le_compat_r; [exact Hxy|].
  apply Qlt_le_weak. apply Qinv_lt_0_compat. apply pow2_pos.
Qed.

(** A positive real is below [2 ^ 53] units in the last place. *)
Lemma nearest_upper (x : Q) :
  0 < x -> nearest x <= 2 ^ (ulp_exp x + 53).
Proof.
  intros Hx. unfold nearest. destruct (ilog2_spec x Hx) as [_ Hhi].
  assert (Hle : x / 2 ^ ulp_exp x <= inject_Z (2 ^ 53)).
  { apply Qle_shift_div_r; [apply pow2_pos|].
    rewrite (pow2_inject 53) by lia. rewrite <- pow2_add.
    apply Qlt_le_weak. eapply Qlt_le_trans; [exact Hhi|].
    apply pow2_le. unfold ulp_exp. lia. }
  apply round_half_even_mono in Hle. rewrite round_half_even_inject in Hle.
  rewrite Z.add_comm, pow2_add. apply Qmult_le_compat_r.
  - rewrite <- (pow2_inject 53) by lia. rewrite <- Zle_Qle. exact Hle.
  - apply Qlt_le_weak, pow2_pos.
Qed.

(** Above the subnormal range a positive real is at least [2 ^ 52] units
    in the last place. *)
Lemma nearest_lower (x : Q) :
  0 < x -> (-1074 < ulp_exp x)%Z -> 2 ^ (ulp_exp x + 52) <= nearest x.
Proof.
  intros Hx He. unfold nearest. destruct (ilog2_spec x Hx) as [Hlo _].
  assert (Heq : ulp_exp x = (ilog2 x - 52)%Z) by (unfold ulp_exp in *; lia).
  assert (Hle : inject_Z (2 ^ 52) <= x / 2 ^ ulp_exp x).
  { apply Qle_shift_div_l; [apply pow2_pos|].
    rewrite (pow2_inject 52) by lia. rewrite <- pow2_add.
    rewrite Heq. replace (52 + (ilog2 x - 52))%Z with (ilog2 x) by lia. exact Hlo. }
  apply round_half_even_mono in Hle. rewrite round_half_even_inject in Hle.
  rewrite Z.add_comm, pow2_add. apply Qmult_le_compat_r.
  - rewrite <- (pow2_inject 52) by lia. rewrite <- Zle_Qle. exact Hle.
  - apply Qlt_le_weak, pow2_pos.
Qed.

Lemma nearest_nonneg (x : Q) : 0 < x -> 0 <= nearest x.
Proof.
  intros Hx. unfold nearest.
  assert (Hle : inject_Z 0 <= x / 2 ^ ulp_exp x).
  { apply Qle_shift_div_l; [apply pow2_pos|]. change (inject_Z 0) with 0. lra. }
  apply round_half_even_mono in Hle. rewrite round_half_even_inject in Hle.
  apply Qmult_le_0_compat.
  - change 0 with (inject_Z 0). rewrite <- Zle_Qle. exact Hle.
  - apply Qlt_le_weak, pow2_pos.
Qed.

(** Rounding to the nearest representable number is monotone. *)
Lemma nearest_mono (x y : Q) : 0 < x -> x <= y -> nearest x <= nearest y.
Proof.
  intros Hx Hxy. assert (Hy : 0 < y) by lra.
  pose proof (ulp_exp_mono x y Hx Hxy) as He.
  destruct (Z.eq_dec (ulp_exp x) (ulp_exp y)) as [E|NE].
  - unfold nearest. rewrite <- E. apply Qmult_le_compat_r.
    + rewrite <- Zle_Qle. apply round_half_even_mono. now apply scaled_mono.
    + apply Qlt_le_weak, pow2_pos.
  - apply Qle_trans with (2 ^ (ulp_exp x + 53)); [now apply nearest_upper|].
    apply Qle_trans with (2 ^ (ulp_exp y + 52)).
    + apply pow2_le. lia.
    + apply nearest_lower; [exact Hy|]. unfold ulp_exp in *. lia.
Qed.

Lemma rnd_pos_shape (x : Q) :
  0 < x -> rnd_pos x = FInf false \/ exists q, rnd_pos x = FFin q /\ 0 <= q.
Proof.
  intros Hx. unfold rnd_pos. destruct (Qle_bool _ _); [now left|right].
  eexists. split; [reflexivity|]. rewrite Qred_correct. now apply nearest_nonneg.
Qed.

Lemma rnd_pos_mono (x y : Q) :
  0 < x -> x <= y -> fle (rnd_pos x) (rnd_pos y) = true.
Proof.
  intros Hx Hxy. pose proof (nearest_mono x y Hx Hxy) as Hm. unfold rnd_pos.
  destruct (Qle_bool (2 ^ 1024) (nearest y)) eqn:Ey.
  - destruct (Qle_bool (2 ^ 1024) (nearest x)); reflexivity.
  - destruct (Qle_bool (2 ^ 1024) (nearest x)) eqn:Ex.
    + apply Qle_bool_iff in Ex.
      assert (Hy : 2 ^ 1024 <= nearest y) by (eapply Qle_trans; eassumption).
      apply Qle_bool_iff in Hy. congruence.
    + cbn [fle]. apply Qle_bool_iff. now rewrite !Qred_correct.
Qed.

Lemma rnd_not_nan (x : Q) : rnd x <> FNan.
Proof.
  unfold rnd, rnd_pos.
  destruct (x ?= 0); [discriminate| |];
    destruct (Qle_bool _ _); discriminate.
Qed.

Lemma fle_fneg (a b : pyfloat) : fle a b = true -> fle (fneg b) (fneg a) = true.
Proof.
  destruct a as [x|[|]|], b as [y|[|]|]; cbn; try congruence.
  intros H. apply Qle_bool_iff in H. apply Qle_bool_iff. lra.
Qed.

(** The correctly rounded value is monotone in the real it rounds. *)
Lemma rnd_mono (x y : Q) : x <= y -> fle (rnd x) (rnd y) = true.
Proof.
  intros Hxy. unfold rnd.
  destruct (x ?= 0) eqn:Cx; destruct (y ?= 0) eqn:Cy; qcompare_hyps;
    try (exfalso; lra).
  - reflexivity.
  - destruct (rnd_pos_shape y Cy) as [->|(q & -> & Hq)]; [reflexivity|].
    cbn. apply Qle_bool_iff. exact Hq.
  - assert (Hnx : 0 < - x) by lra.
    destruct (rnd_pos_shape (- x) Hnx) as [->|(q & -> & Hq)]; [reflexivity|].
    cbn. apply Qle_bool_iff. lra.
  - apply fle_fneg. apply rnd_pos_mono; lra.
  - assert (Hnx : 0 < - x) by lra.
    destruct (rnd_pos_shape (- x) Hnx) as [->|(q & -> & Hq)];
      destruct (rnd_pos_shape y Cy) as [->|(r & -> & Hr)]; try reflexivity.
    cbn. apply Qle_bool_iff. lra.
  - now apply rnd_pos_mono.
Qed.

Lemma fle_between (a : pyfloat) (lo hi : Q) :
  fle (FFin lo) a = true -> fle a (FFin hi) = true ->
  exists q, a = FFin q /\ lo <= q <= hi.
Proof.
  destruct a as [q|[|]|]; cbn; try discriminate.
  intros H1 H2. apply Qle_bool_iff in H1. apply Qle_bool_iff in H2.
  exists q. auto.
Qed.

Lemma fle_FFin (x y : Q) : fle (FFin x) (FFin y) = true <-> x <= y.
Proof. cbn. apply Qle_bool_iff. Qed.

Lemma fle_plus_infinity (a : pyfloat) : a <> FNan -> fle a (FInf false) = true.
Proof. destruct a as [q|[|]|]; cbn; congruence. Qed.

Lemma fle_minus_infinity (b : pyfloat) : b <> FNan -> fle (FInf true) b = true.
Proof. destruct b as [q|[|]|]; cbn; congruence. Qed.

(** [round(., 2)] is monotone. *)
Lemma round2_mono (a b : pyfloat) :
  fle a b = true -> fle (round2 a) (round2 b) = true.
Proof.
  destruct a as [x|[|]|], b as [y|[|]|]; cbn [round2]; try (cbn; congruence).
  - intros H. apply fle_FFin in H. apply rnd_mono.
    unfold Qdiv. apply Qmult_le_compat_r; [|discriminate].
    rewrite <- Zle_Qle. apply round_half_even_mono. lra.
  - intros _. apply fle_plus_infinity, rnd_not_nan.
  - intros _. apply fle_minus_infinity, rnd_not_nan.
Qed.

(** Dividing by a positive number is monotone. *)
Lemma fdiv_mono (a b : pyfloat) (y : Q) :
  0 < y -> fle a b = true -> fle (fdiv a (FFin y)) (fdiv b (FFin y)) = true.
Proof.
  intros Hy.
  assert (Ey : Qeq_bool y 0 = false).
  { destruct (Qeq_bool y 0) eqn:E; [|reflexivity].
    apply Qeq_bool_iff in E. lra. }
  assert (Cy : (y ?= 0) = Gt) by (rewrite <- Qgt_alt; exact Hy).
  destruct a as [x|[|]|], b as [x'|[|]|]; cbn [fdiv]; rewrite ?Ey, ?Cy;
    try (cbn; congruence).
  - intros H. apply fle_FFin in H. apply rnd_mono.
    unfold Qdiv. apply Qmult_le_compat_r; [exact H|].
    apply Qlt_le_weak, Qinv_lt_0_compat, Hy.
  - intros _. apply fle_plus_infinity, rnd_not_nan.
  - intros _. apply fle_minus_infinity, rnd_not_nan.
Qed.

(** Multiplying finite numbers by a price that is not negative is
    monotone. *)
Lemma fmul_mono (x x' p : Q) :
  0 <= p -> x <= x' -> fle (fmul (FFin x) (FFin p)) (fmul (FFin x') (FFin p)) = true.
Proof.
  intros Hp Hx. cbn [fmul]. apply rnd_mono. now apply Qmult_le_compat_r.
Qed.

Lemma float_of_int_3600 : float_of_int 3600 = FFin 3600.
Proof. vm_compute. reflexivity. Qed.

(** Between two datetimes there are less than [datetime_end] microseconds,
    so the hours parked are a finite number. *)
Lemma hours_parked_finite (entry_time exit_time : datetime) :
  valid_datetime entry_time -> valid_datetime exit_time ->
  exists h, hours_parked entry_time exit_time = FFin h.
Proof.
  unfold valid_datetime. intros He Hx.
  set (td := (exit_time - entry_time)%Z).
  assert (Hlo : fle (FFin (- (315537897600))) (total_seconds td) = true).
  { change (FFin (- (315537897600))) with (rnd (- datetime_end # 1000000)).
    apply rnd_mono. unfold Qle. cbn [Qnum Qden]. unfold td. lia. }
  assert (Hhi : fle (total_seconds td) (FFin 315537897600) = true).
  { change (FFin 315537897600) with (rnd (datetime_end # 1000000)).
    apply rnd_mono. unfold Qle. cbn [Qnum Qden]. unfold td. lia. }
  destruct (fle_between _ _ _ Hlo Hhi) as (sec & Hsec & Hs1 & Hs2).
  unfold hours_parked. fold td. rewrite Hsec, float_of_int_3600.
  assert (H3600 : 0 < 3600) by reflexivity.
  assert (Hlo2 : fle (FFin (- (87649416))) (fdiv (FFin sec) (FFin 3600)) = true).
  { change (FFin (- (87649416)))
      with (fdiv (FFin (- (315537897600))) (FFin 3600)).
    apply fdiv_mono; [exact H3600|]. now apply fle_FFin. }
  assert (Hhi2 : fle (fdiv (FFin sec) (FFin 3600)) (FFin 87649416) = true).
  { change (FFin 87649416) with (fdiv (FFin 315537897600) (FFin 3600)).
    apply fdiv_mono; [exact H3600|]. now apply fle_FFin. }
  destruct (fle_between _ _ _ Hlo2 Hhi2) as (h & Hh & _). now exists h.
Qed.

Lemma hours_parked_mono (entry_time t1 t2 : datetime) :
  (t1 <= t2)%Z ->
  fle (hours_parked entry_time t1) (hours_parked entry_time t2) = true.
Proof.
  intros Ht. unfold hours_parked. rewrite float_of_int_3600.
  apply fdiv_mono; [reflexivity|]. unfold total_seconds. apply rnd_mono.
  unfold Qle. cbn [Qnum Qden]. lia.
Qed.



End ChargeFacts.

(* ================================================================== *)
(** * Lemmas: requests that are turned away *)
(* ================================================================== *)

(** X1.  A view under [login_required] does not run without a session: the
    answer is the notice "Please login first" with a redirect to the login
    page and the database is what it was.  This holds for any wrapped view,
    so for [book_spot], [exit_parking] and [user_dashboard]. *)
Theorem login_required_turns_away (env : Env) (db : DB) :
  session env = None ->
  (forall f : View,
     serve (login_required f) env db
     = (db, Redirect "login", [Message "Please login first" "error"]))
  /\ (forall req,
        serve (book_spot req) env db
        = (db, Redirect "login", [Message "Please login first" "error"]))
  /\ (forall booking_id,
        serve (exit_parking booking_id) env db
        = (db, Redirect "login", [Message "Please login first" "error"]))
  /\ serve user_dashboard env db
     = (db, Redirect "login", [Message "Please login first" "error"]).
Proof.
  intros Hs.
  assert (Hgate : forall f : View,
             serve (login_required f) env db
             = (db, Redirect "login", [Message "Please login first" "error"])).
  { intros f. unfold serve, login_required. now rewrite Hs. }
  split; [exact Hgate|]. split; [|split].
  - intros req. apply Hgate.
  - intros booking_id. apply Hgate.
  - apply Hgate.
Qed.

Lemma login_required_turns_away_witness :
  session (at_time None noon) = None
  /\ serve (book_spot (POST (mkBookForm 1 "KA-01"))) (at_time None noon) db_lot_A
     = (db_lot_A, Redirect "login", [Message "Please login first" "error"])
  /\ serve (exit_parking 1) (at_time None (noon + hour)) db_alice_in
     = (db_alice_in, Redirect "login", [Message "Please login first" "error"]).
Proof.
  split; [reflexivity|]. split.
  - exact (proj1 (proj2 (login_required_turns_away (at_time None noon) db_lot_A
                           eq_refl)) (POST (mkBookForm 1 "KA-01"))).
  - exact (proj1 (proj2 (proj2 (login_required_turns_away
                                  (at_time None (noon + hour)) db_alice_in
                                  eq_refl))) 1).
Defined.

(** X2.  An identifier that names no row is answered with error 404 and
    changes nothing: a checkout of an unknown booking by a logged-in user,
    and the deletion of an unknown lot by anyone. *)
Theorem unknown_identifier_not_found (env : Env) (db : DB) (k : Z) :
  (forall s, session env = Some s ->
             get (parking_booking db) k = None ->
             serve (exit_parking k) env db = (db, ErrorPage 404, []))
  /\ (get (parking_lot db) k = None ->
      serve (delete_lot k) env db = (db, ErrorPage 404, [])).
Proof.
  split.
  - intros s Hs Hb. unfold serve, exit_parking, login_required. rewrite Hs.
    unfold get_or_404, bind, query. cbn [work]. now rewrite Hb.
  - intros Hl. unfold serve, delete_lot, get_or_404, bind, query. cbn [work].
    now rewrite Hl.
Qed.

Lemma unknown_identifier_not_found_witness :
  (session (at_time (Some alice) noon) = Some alice
   /\ get (parking_booking db_alice_in) 7 = None
   /\ get (parking_lot db_alice_in) 7 = None)
  /\ serve (exit_parking 7) (at_time (Some alice) noon) db_alice_in
     = (db_alice_in, ErrorPage 404, [])
  /\ serve (delete_lot 7) (at_time (Some alice) noon) db_alice_in
     = (db_alice_in, ErrorPage 404, []).
Proof.
  split; [repeat split|].
  destruct (unknown_identifier_not_found (at_time (Some alice) noon) db_alice_in 7)
    as [Hexit Hdel].
  split; [exact (Hexit alice eq_refl eq_refl)|exact (Hdel eq_refl)].
Defined.

(** X3.  [delete_lot] commits outside any [try]: when the commit fails for a
    lot that exists and has no occupied spot, the exception escapes, the
    answer is error 500 without a notice, and neither the lot nor its spots
    are deleted. *)
Theorem delete_lot_commit_failure
    (env : Env) (db : DB) (lot_id : Z) (lot : ParkingLot.t) :
  get (parking_lot db) lot_id = Some lot ->
  count_occupied lot_id (parking_spot db) = 0%nat ->
  commit_succeeds (commit_results env) = false ->
  serve (delete_lot lot_id) env db = (db, ErrorPage 500, []).
Proof.
  intros Hl Hocc Hc. rewrite (delete_lot_serve _ _ _ _ Hl), Hocc, Hc. reflexivity.
Qed.

Lemma delete_lot_commit_failure_witness :
  (get (parking_lot db_lot_A) 1 = Some (ParkingLot.mk 1 "A" "Main Street" 2 (FFin 10))
   /\ count_occupied 1 (parking_spot db_lot_A) = 0%nat
   /\ commit_succeeds (commit_results (mkEnv (Some admin) noon noon [false])) = false)
  /\ serve (delete_lot 1) (mkEnv (Some admin) noon noon [false]) db_lot_A
     = (db_lot_A, ErrorPage 500, []).
Proof.
  split; [repeat split|].
  exact (delete_lot_commit_failure (mkEnv (Some admin) noon noon [false]) db_lot_A 1
           (ParkingLot.mk 1 "A" "Main Street" 2 (FFin 10)) eq_refl eq_refl eq_refl).
Defined.

(** X4.  The checkout reads the price through [booking.spot.lot]: when the
    owner checks out a booking whose spot row, or whose spot's lot row, is no
    longer there, the attribute access fails, the answer is error 500 and
    nothing is stored, not even the exit time already assigned. *)
Theorem exit_parking_missing_rows
    (env : Env) (db : DB) (booking_id : Z) (s : Session) (b : ParkingBooking.t) :
  session env = Some s ->
  get (parking_booking db) booking_id = Some b ->
  ParkingBooking.user_id b = sess_user_id s ->
  (get (parking_spot db) (ParkingBooking.spot_id b) = None
   \/ exists spot,
        get (parking_spot db) (ParkingBooking.spot_id b) = Some spot
        /\ get (parking_lot db) (ParkingSpot.lot_id spot) = None) ->
  serve (exit_parking booking_id) env db = (db, ErrorPage 500, []).
Proof.
  intros Hs Hb Hown Hmiss.
  unfold serve, exit_parking, login_required. rewrite Hs.
  unfold get_or_404, bind, query, session_user_id, attr_of. cbn [work].
  rewrite Hb, Hs. cbn [ret]. rewrite Hown, Z.eqb_refl.
  cbn [negb work ParkingBooking.set_exit_time ParkingBooking.spot_id].
  destruct Hmiss as [Hsp|(spot & Hsp & Hl)]; rewrite Hsp.
  - reflexivity.
  - cbn [ret work]. rewrite Hl. reflexivity.
Qed.

Lemma exit_parking_missing_rows_witness :
  (session (at_time (Some alice) (noon + 4 * hour)) = Some alice
   /\ get (parking_booking db_lot_A_gone) 1
      = Some (ParkingBooking.mk 1 2 1 "KA-01" noon (Some (noon + 2 * hour))
                (Some (FFin 20)) "completed")
   /\ get (parking_spot db_lot_A_gone) 1 = None)
  /\ reachable db_lot_A_gone
  /\ serve (exit_parking 1) (at_time (Some alice) (noon + 4 * hour)) db_lot_A_gone
     = (db_lot_A_gone, ErrorPage 500, []).
Proof.
  split; [repeat split|]. split.
  - exists [(at_time (Some admin) noon, AddLot (POST lot_A_form));
            (at_time (Some alice) noon, BookSpot (POST (mkBookForm 1 "KA-01")));
            (at_time (Some alice) (noon + 2 * hour), ExitParking 1);
            (at_time None (noon + 3 * hour), DeleteLot 1)].
    reflexivity.
  - apply (exit_parking_missing_rows _ _ _ alice
             (ParkingBooking.mk 1 2 1 "KA-01" noon (Some (noon + 2 * hour))
                (Some (FFin 20)) "completed")).
    + reflexivity.
    + reflexivity.
    + reflexivity.
    + left. reflexivity.
Defined.

(** X5.  [add_lot] commits twice, first the lot and then its spots.  When
    the first commit fails nothing is stored; when the first succeeds and the
    second fails the lot stays without any spot.  Both cases are answered
    with the notice "Error occurred while adding parking lot". *)
Theorem add_lot_commit_failures
    (env : Env) (db : DB) (s : Session) (form : AddLotForm) :
  session env = Some s ->
  sess_is_admin s = true ->
  (commit_succeeds (commit_results env) = false ->
   serve (add_lot (POST form)) env db
   = (db, Render "add_lot.html",
      [Message "Error occurred while adding parking lot" "error"]))
  /\ (forall rest, commit_results env = true :: false :: rest ->
      serve (add_lot (POST form)) env db
      = (mkDB (parking_lot db
               ++ [ParkingLot.mk (next_pk (parking_lot db)) (form_name form)
                     (form_location form) (form_total_spots form)
                     (form_price_per_hour form)])
              (parking_spot db) (parking_booking db),
         Render "add_lot.html",
         [Message "Error occurred while adding parking lot" "error"])).
Proof.
  intros Hs Hadm. split.
  - intros Hc. rewrite (add_lot_serve env db s form Hs Hadm). cbv zeta.
    destruct (commit_results env) as [|[|] rest]; [discriminate|discriminate|].
    reflexivity.
  - intros rest Hc. rewrite (add_lot_serve env db s form Hs Hadm). cbv zeta.
    rewrite Hc. reflexivity.
Qed.

Lemma add_lot_commit_failures_witness :
  (session (mkEnv (Some admin) noon noon [true; false]) = Some admin
   /\ sess_is_admin admin = true)
  /\ serve (add_lot (POST lot_A_form)) (mkEnv (Some admin) noon noon [true; false])
           empty_db
     = (mkDB [ParkingLot.mk 1 "A" "Main Street" 2 (FFin 10)] [] [],
        Render "add_lot.html",
        [Message "Error occurred while adding parking lot" "error"])
  /\ serve (add_lot (POST lot_A_form)) (mkEnv (Some admin) noon noon [false])
           empty_db
     = (empty_db, Render "add_lot.html",
        [Message "Error occurred while adding parking lot" "error"]).
Proof.
  split; [repeat split|]. split.
  - exact (proj2 (add_lot_commit_failures
                    (mkEnv (Some admin) noon noon [true; false]) empty_db admin
                    lot_A_form eq_refl eq_refl) [] eq_refl).
  - exact (proj1 (add_lot_commit_failures
                    (mkEnv (Some admin) noon noon [false]) empty_db admin
                    lot_A_form eq_refl eq_refl) eq_refl).
Defined.

Lemma find_first {A : Type} (p : A -> bool) (l : list A) (x : A) :
  find p l = Some x ->
  exists before after,
    l = before ++ x :: after /\ p x = true
    /\ forall y, In y before -> p y = false.
Proof.
  induction l as [|a l IH]; [discriminate|]. cbn [find].
  destruct (p a) eqn:E.
  - intros [= <-]. exists [], l. repeat split; [exact E|]. intros y [].
  - intros Hf. destruct (IH Hf) as (before & after & -> & Hx & Hbefore).
    exists (a :: before), after. repeat split; [exact Hx|].
    intros y [<-|Hy]; [exact E|now apply Hbefore].
Qed.

(** X6.  A POST to [book_spot] by a logged-in user for a lot with a free
    spot takes the first free spot of that lot in table order.  When the
    commit succeeds the database holds that spot flagged occupied and one
    new booking of the user on it, active, without exit time or charge, with
    the column default as entry time; every other spot and booking and all
    lots are as before.  When the commit fails nothing is stored. *)
Theorem book_spot_allocates
    (env : Env) (db : DB) (s : Session) (form : BookForm) (spot : ParkingSpot.t) :
  session env = Some s ->
  first_free_spot (form_lot_id form) (parking_spot db) = Some spot ->
  (exists before after,
     parking_spot db = before ++ spot :: after
     /\ ParkingSpot.lot_id spot = form_lot_id form
     /\ ParkingSpot.is_occupied spot = false
     /\ forall y, In y before ->
          ParkingSpot.lot_id y = form_lot_id form -> ParkingSpot.is_occupied y = true)
  /\ let db' := booked env (sess_user_id s) form spot db in
       serve (book_spot (POST form)) env db
       = (if commit_succeeds (commit_results env)
          then (db', Redirect "user_dashboard",
                [Message "Spot booked successfully!" "success"])
          else (db, Render "book_spot.html",
                [Message "Error occurred while booking spot" "error"]))
       /\ get (parking_booking db') (next_pk (parking_booking db))
          = Some (ParkingBooking.mk (next_pk (parking_booking db)) (sess_user_id s)
                    (ParkingSpot.id spot) (form_vehicle_number form)
                    (entry_time_default env) None None "active")
       /\ (forall j, j <> next_pk (parking_booking db) ->
             get (parking_booking db') j = get (parking_booking db) j)
       /\ get (parking_spot db') (ParkingSpot.id spot)
          = Some (ParkingSpot.mk (ParkingSpot.id spot) (ParkingSpot.spot_number spot)
                                 (ParkingSpot.lot_id spot) true)
       /\ (forall j, j <> ParkingSpot.id spot ->
             get (parking_spot db') j = get (parking_spot db) j)
       /\ parking_lot db' = parking_lot db.
Proof.
  intros Hs Hf. split.
  - unfold first_free_spot in Hf. destruct (find_first _ _ _ Hf)
      as (before & after & Hsplit & Hp & Hbefore).
    apply andb_true_iff in Hp. destruct Hp as [Hl Ho].
    apply Z.eqb_eq in Hl. apply negb_true_iff in Ho.
    exists before, after. repeat split; try assumption.
    intros y Hy Hlot. specialize (Hbefore y Hy). cbv beta in Hbefore.
    rewrite Hlot, Z.eqb_refl in Hbefore. cbn [andb] in Hbefore.
    now apply negb_false_iff in Hbefore.
  - cbv zeta. rewrite (book_spot_serve _ _ _ s Hs), Hf.
    split; [reflexivity|]. exact (booked_rows env (sess_user_id s) form spot db Hf).
Qed.

Lemma book_spot_allocates_witness :
  (session (at_time (Some bob) (noon + hour)) = Some bob
   /\ first_free_spot 1 (parking_spot db_alice_in) = Some (ParkingSpot.mk 2 "002" 1 false))
  /\ serve (book_spot (POST (mkBookForm 1 "KA-02"))) (at_time (Some bob) (noon + hour))
           db_alice_in
     = (mkDB [ParkingLot.mk 1 "A" "Main Street" 2 (FFin 10)]
             [ParkingSpot.mk 1 "001" 1 true; ParkingSpot.mk 2 "002" 1 true]
             [ParkingBooking.mk 1 2 1 "KA-01" noon None None "active";
              ParkingBooking.mk 2 3 2 "KA-02" noon None None "active"],
        Redirect "user_dashboard", [Message "Spot booked successfully!" "success"]).
Proof.
  split; [repeat split|].
  destruct (book_spot_allocates (at_time (Some bob) (noon + hour)) db_alice_in bob
              (mkBookForm 1 "KA-02") (ParkingSpot.mk 2 "002" 1 false)
              eq_refl eq_refl) as (_ & Hserve & _).
  exact Hserve.
Defined.

(* ================================================================== *)
(** * Lemmas: what every request keeps *)
(* ================================================================== *)

(** A property of the database that every request keeps holds after any
    sequence of requests. *)
Lemma run_keeps (P : DB -> Prop) :
  (forall db r, P db -> P (step db r)) ->
  forall trace db, P db -> P (run db trace).
Proof.
  intros Hstep. induction trace as [|r rest IH]; intros db Hdb; [exact Hdb|].
  change (run db (r :: rest)) with (run (step db r) rest). apply IH.
  now apply Hstep.
Qed.

Lemma reachable_keeps (P : DB -> Prop) :
  P empty_db ->
  (forall db r, P db -> P (step db r)) ->
  forall db, reachable db -> P db.
Proof.
  intros H0 Hstep db [trace <-]. now apply run_keeps.
Qed.

(** The outcomes of [add_lot], with the rows it stores. *)
Lemma step_add_lot_rows (db : DB) (env : Env) (req : Request AddLotForm) :
  step db (env, AddLot req) = db
  \/ exists form,
       let lot :=
         ParkingLot.mk (next_pk (parking_lot db)) (form_name form)
           (form_location form) (form_total_spots form) (form_price_per_hour form) in
       is_admin_session env = true
       /\ (step db (env, AddLot req)
           = mkDB (parking_lot db ++ [lot]) (parking_spot db) (parking_booking db)
           \/ step db (env, AddLot req)
              = mkDB (parking_lot db ++ [lot])
                     (parking_spot db
                      ++ new_spots (next_pk (parking_spot db)) (ParkingLot.id lot)
                                   (Z.to_nat (form_total_spots form)))
                     (parking_booking db)).
Proof.
  unfold step. cbn [fst snd route]. unfold is_admin_session.
  destruct (session env) as [s|] eqn:Hs;
    [|left; unfold serve, add_lot, admin_required; now rewrite Hs].
  destruct (sess_is_admin s) eqn:Hadm;
    [|left; unfold serve, add_lot, admin_required; now rewrite Hs, Hadm].
  destruct req as [|form];
    [left; unfold serve, add_lot, admin_required; now rewrite Hs, Hadm|].
  rewrite (add_lot_serve env db s form Hs Hadm). cbv zeta.
  destruct (commit_results env) as [|[|] [|[|] rest]]; cbn [fst];
    try (now left); right; exists form; (split; [reflexivity|]);
    solve [left; reflexivity | right; reflexivity].
Qed.

Lemma spots_of_app (lot_id : Z) (lots : list ParkingLot.t)
    (spots more : list ParkingSpot.t) (bookings : list ParkingBooking.t) :
  spots_of lot_id (mkDB lots (spots ++ more) bookings)
  = (spots_of lot_id (mkDB lots spots bookings)
     ++ filter (fun s => ParkingSpot.lot_id s =? lot_id) more)%list.
Proof. unfold spots_of. cbn [parking_spot]. apply filter_app. Qed.

Lemma filter_none {A : Type} (p : A -> bool) (l : list A) :
  (forall x, In x l -> p x = false) -> filter p l = [].
Proof.
  induction l as [|a l IH]; intros Hall; [reflexivity|]. cbn [filter].
  rewrite (Hall a) by now left. apply IH. intros x Hx. apply Hall. now right.
Qed.

Lemma filter_all {A : Type} (p : A -> bool) (l : list A) :
  (forall x, In x l -> p x = true) -> filter p l = l.
Proof.
  induction l as [|a l IH]; intros Hall; [reflexivity|]. cbn [filter].
  rewrite (Hall a) by now left. f_equal. apply IH. intros x Hx. apply Hall. now right.
Qed.

Lemma catalog_added (db : DB) (lot : ParkingLot.t) (n : nat) :
  catalog_ok db ->
  ParkingLot.id lot = next_pk (parking_lot db) ->
  (n <= Z.to_nat (ParkingLot.total_spots lot))%nat ->
  catalog_ok (mkDB (parking_lot db ++ [lot])
                   (parking_spot db ++ new_spots (next_pk (parking_spot db))
                                                 (ParkingLot.id lot) n)
                   (parking_booking db)).
Proof.
  intros [Hlk Hsk Hbk Hlot Hcap] Hid Hn.
  assert (Hfresh : forall s, In s (parking_spot db) ->
                             ParkingSpot.lot_id s <> ParkingLot.id lot).
  { intros s Hs E. pose proof (Hlot s Hs) as Hin. apply map_pk_bound in Hin. lia. }
  constructor; cbn [parking_lot parking_spot parking_booking].
  - rewrite map_app. apply NoDup_app; [exact Hlk|repeat constructor; simpl; tauto|].
    intros k Hk [<-|[]]. apply map_pk_bound in Hk.
    cbn [pk ParkingLot_Model] in Hk. lia.
  - rewrite map_app. apply NoDup_app; [exact Hsk|apply new_spots_NoDup|].
    intros k Hk Hk'. apply map_pk_bound in Hk.
    apply in_map_iff in Hk'. destruct Hk' as (s & <- & Hs).
    apply new_spots_In in Hs. cbn [pk ParkingSpot_Model] in *. lia.
  - exact Hbk.
  - intros s Hin. rewrite map_app. apply in_or_app.
    apply in_app_or in Hin. destruct Hin as [Hin|Hin].
    + left. now apply Hlot.
    + right. apply new_spots_In in Hin. destruct Hin as (_ & _ & ->). now left.
  - intros l Hl. rewrite spots_of_app, length_app.
    apply in_app_or in Hl. destruct Hl as [Hl|[<-|[]]].
    + rewrite filter_none.
      * specialize (Hcap l Hl). unfold spots_of in *. cbn [parking_spot List.length] in *.
        lia.
      * intros s Hs. apply new_spots_In in Hs. destruct Hs as (_ & _ & ->).
        apply Z.eqb_neq. apply (in_map pk) in Hl. apply map_pk_bound in Hl.
        cbn [pk ParkingLot_Model] in Hl. lia.
    + unfold spots_of at 1. cbn [parking_spot]. rewrite filter_none.
      * rewrite filter_all.
        -- unfold new_spots. rewrite length_map, length_seq. cbn [List.length]. lia.
        -- intros s Hs. apply new_spots_In in Hs. destruct Hs as (_ & _ & ->).
           apply Z.eqb_refl.
      * intros s Hs. apply Z.eqb_neq. now apply Hfresh.
Qed.

Lemma catalog_lot_added (db : DB) (lot : ParkingLot.t) :
  catalog_ok db ->
  ParkingLot.id lot = next_pk (parking_lot db) ->
  catalog_ok (mkDB (parking_lot db ++ [lot]) (parking_spot db) (parking_booking db)).
Proof.
  intros Hc Hid. pose proof (catalog_added db lot 0 Hc Hid (Nat.le_0_l _)) as H0.
  unfold new_spots in H0. cbn [seq map] in H0. now rewrite app_nil_r in H0.
Qed.

(** Flagging a spot, with any change of the bookings that keeps their keys
    distinct, keeps the catalog. *)
Lemma catalog_spot_flagged (db : DB) (spot : ParkingSpot.t) (v : bool)
    (bookings : list ParkingBooking.t) :
  catalog_ok db ->
  In spot (parking_spot db) ->
  NoDup (map pk bookings) ->
  catalog_ok (mkDB (parking_lot db)
                   (update (ParkingSpot.set_is_occupied v spot) (parking_spot db))
                   bookings).
Proof.
  intros [Hlk Hsk Hbk Hlot Hcap] Hin Hnd.
  constructor; cbn [parking_lot parking_spot parking_booking].
  - exact Hlk.
  - now rewrite map_pk_update.
  - exact Hnd.
  - intros s Hs. apply In_update in Hs. destruct Hs as [->|[Hs _]]; [|now apply Hlot].
    cbn [ParkingSpot.set_is_occupied ParkingSpot.lot_id]. now apply Hlot.
  - intros l Hl. specialize (Hcap l Hl). unfold spots_of in *. cbn [parking_spot].
    pose proof (count_update (fun s => ParkingSpot.lot_id s =? ParkingLot.id l)
                  spot (ParkingSpot.set_is_occupied v spot) (parking_spot db)
                  Hsk Hin eq_refl) as Hcount.
    cbv beta in Hcount.
    cbn [ParkingSpot.set_is_occupied ParkingSpot.lot_id] in Hcount. lia.
Qed.

Lemma filter_filter_length {A : Type} (p q : A -> bool) (l : list A) :
  (List.length (filter p (filter q l)) <= List.length (filter p l))%nat.
Proof.
  induction l as [|a l IH]; [reflexivity|]. cbn [filter].
  destruct (q a), (p a) eqn:E; cbn [filter List.length]; rewrite ?E;
    cbn [List.length]; lia.
Qed.

Lemma catalog_deleted (lot_id : Z) (db : DB) :
  catalog_ok db -> catalog_ok (deleted lot_id db).
Proof.
  intros [Hlk Hsk Hbk Hlot Hcap]. constructor.
  - unfold deleted. cbn [parking_lot]. now apply NoDup_pk_delete.
  - unfold deleted. cbn [parking_spot]. now apply NoDup_pk_delete.
  - exact Hbk.
  - intros s Hs. apply deleted_spots in Hs. destruct Hs as [Hs Hne].
    pose proof (Hlot s Hs) as Hin. apply in_map_iff in Hin.
    destruct Hin as (l & Hid & Hl). apply in_map_iff. exists l.
    split; [exact Hid|]. apply deleted_lots. split; [exact Hl|].
    cbn [pk ParkingLot_Model] in Hid. congruence.
  - intros l Hl. apply deleted_lots in Hl. destruct Hl as [Hl _].
    specialize (Hcap l Hl). unfold spots_of, deleted, delete_where in *.
    cbn [parking_spot].
    pose proof (filter_filter_length
                  (fun s => ParkingSpot.lot_id s =? ParkingLot.id l)
                  (fun x => negb (ParkingSpot.lot_id x =? lot_id))
                  (parking_spot db)). lia.
Qed.

Lemma catalog_step (db : DB) (r : Env * Call) :
  catalog_ok db -> catalog_ok (step db r).
Proof.
  intros Hc. destruct r as [env call]. destruct call.
  - now rewrite (proj1 (step_dashboards db env)).
  - destruct (step_add_lot_rows db env req) as [->|(form & _ & [->| ->])].
    + exact Hc.
    + now apply catalog_lot_added.
    + apply catalog_added; [exact Hc|reflexivity|]. cbn [ParkingLot.total_spots]. lia.
  - now rewrite (proj1 (proj2 (step_dashboards db env))).
  - destruct (step_book_spot_cases db env req) as [->|(uid & form & spot & Hf & ->)];
      [exact Hc|].
    unfold booked. apply catalog_spot_flagged; [exact Hc| |].
    + apply first_free_spot_some in Hf. tauto.
    + apply NoDup_pk_insert; [reflexivity|]. apply (bookings_distinct db Hc).
  - destruct (step_exit_parking_cases db env booking_id)
      as [->|(b & spot & lot & Hb & Hsp & ->)]; [exact Hc|].
    unfold checked_out. apply catalog_spot_flagged; [exact Hc| |].
    + exact (get_some_in _ _ _ Hsp).
    + rewrite map_pk_update. apply (bookings_distinct db Hc).
  - now rewrite (proj2 (proj2 (step_dashboards db env))).
  - destruct (step_delete_lot_cases db env lot_id) as [->|[_ ->]];
      [exact Hc|now apply catalog_deleted].
Qed.

Lemma catalog_empty : catalog_ok empty_db.
Proof.
  constructor; cbn; try constructor; intros; contradiction.
Qed.

Lemma reachable_catalog (db : DB) : reachable db -> catalog_ok db.
Proof. apply reachable_keeps; [exact catalog_empty|exact catalog_step]. Qed.

Lemma count_occupied_le_spots (lot_id : Z) (db : DB) :
  (count_occupied lot_id (parking_spot db) <= List.length (spots_of lot_id db))%nat.
Proof.
  unfold count_occupied, spots_of.
  induction (parking_spot db) as [|s l IH]; [reflexivity|]. cbn [filter].
  destruct (ParkingSpot.lot_id s =? lot_id), (ParkingSpot.is_occupied s);
    cbn [andb List.length]; lia.
Qed.

Lemma db_bob_in_reachable : reachable db_bob_in.
Proof.
  exists [(at_time (Some admin) noon, AddLot (POST lot_A_form));
          (at_time (Some alice) noon, BookSpot (POST (mkBookForm 1 "KA-01")));
          (at_time (Some alice) (noon + 2 * hour), ExitParking 1);
          (at_time (Some bob) (noon + 3 * hour), BookSpot (POST (mkBookForm 1 "KA-02")))].
  vm_compute; reflexivity.
Qed.

(** X7.  In every state the application can reach, a lot has at most
    [max(0, total_spots)] spots ([add_lot] stores a negative [total_spots] as
    it is given and creates no spot for it), so the number of its occupied
    spots never exceeds [max(0, total_spots)], and never exceeds
    [total_spots] when that is not negative; this holds whatever requests
    were made, the checkout of completed bookings included. *)
Theorem occupied_within_capacity (db : DB) (l : ParkingLot.t) :
  reachable db ->
  In l (parking_lot db) ->
  Z.of_nat (List.length (spots_of (ParkingLot.id l) db))
  <= Z.max 0 (ParkingLot.total_spots l)
  /\ Z.of_nat (count_occupied (ParkingLot.id l) (parking_spot db))
     <= Z.max 0 (ParkingLot.total_spots l)
  /\ (0 <= ParkingLot.total_spots l ->
      Z.of_nat (count_occupied (ParkingLot.id l) (parking_spot db))
      <= ParkingLot.total_spots l).
Proof.
  intros Hr Hl. pose proof (lot_capacity db (reachable_catalog db Hr) l Hl) as Hcap.
  pose proof (count_occupied_le_spots (ParkingLot.id l) db). lia.
Qed.

Lemma occupied_within_capacity_witness :
  (reachable db_alice_out_again
   /\ In (ParkingLot.mk 1 "A" "Main Street" 2 (FFin 10)) (parking_lot db_alice_out_again))
  /\ Z.of_nat (count_occupied 1 (parking_spot db_alice_out_again)) <= 2.
Proof.
  assert (Hin : In (ParkingLot.mk 1 "A" "Main Street" 2 (FFin 10))
                   (parking_lot db_alice_out_again)) by (vm_compute; left; reflexivity).
  split; [split; [exact db_alice_out_again_reachable|exact Hin]|].
  exact (proj1 (proj2 (occupied_within_capacity db_alice_out_again _
                         db_alice_out_again_reachable Hin))).
Defined.

(** X8.  In every state the application can reach, the keys of the lots,
    of the spots and of the bookings are distinct, and the lot of every spot
    exists: no request leaves a spot without its lot. *)
Theorem reachable_keys_and_lots (db : DB) :
  reachable db ->
  NoDup (map pk (parking_lot db))
  /\ NoDup (map pk (parking_spot db))
  /\ NoDup (map pk (parking_booking db))
  /\ forall s, In s (parking_spot db) ->
       exists l, get (parking_lot db) (ParkingSpot.lot_id s) = Some l.
Proof.
  intros Hr. destruct (reachable_catalog db Hr) as [Hlk Hsk Hbk Hlot _].
  repeat split; try assumption.
  intros s Hs. specialize (Hlot s Hs). apply in_map_iff in Hlot.
  destruct Hlot as (l & Hk & Hl).
  destruct (get (parking_lot db) (ParkingSpot.lot_id s)) as [l0|] eqn:E; [eauto|].
  unfold get in E. eapply find_none in E; [|exact Hl].
  apply Z.eqb_neq in E. contradiction.
Qed.

Lemma reachable_keys_and_lots_witness :
  reachable db_bob_in
  /\ NoDup (map pk (parking_spot db_bob_in))
  /\ NoDup (map pk (parking_booking db_bob_in)).
Proof.
  split; [exact db_bob_in_reachable|].
  destruct (reachable_keys_and_lots db_bob_in db_bob_in_reachable)
    as (_ & Hs & Hb & _).
  split; assumption.
Defined.

Lemma sqlite_real_not_nan (x : pyfloat) : sqlite_real x <> Some FNan.
Proof. destruct x; discriminate. Qed.

Lemma open_or_closed_step (db : DB) (r : Env * Call) :
  (forall b, In b (parking_booking db) -> open_or_closed b) ->
  forall b, In b (parking_booking (step db r)) -> open_or_closed b.
Proof.
  intros Hall. destruct r as [env call]. destruct call.
  - now rewrite (proj1 (step_dashboards db env)).
  - destruct (step_add_lot_cases db env req) as [->|(lot & n & [->| ->])];
      exact Hall.
  - now rewrite (proj1 (proj2 (step_dashboards db env))).
  - destruct (step_book_spot_cases db env req) as [->|(uid & form & spot & Hf & ->)];
      [exact Hall|].
    intros b Hb. unfold booked, insert in Hb. cbn [parking_booking] in Hb.
    apply in_app_or in Hb. destruct Hb as [Hb|[<-|[]]]; [now apply Hall|].
    left. repeat split.
  - destruct (step_exit_parking_cases db env booking_id)
      as [->|(b0 & spot & lot & Hb0 & Hsp & ->)]; [exact Hall|].
    intros b Hb. unfold checked_out in Hb. cbn [parking_booking] in Hb.
    apply In_update in Hb. destruct Hb as [->|[Hb _]]; [|now apply Hall].
    right. split; [reflexivity|]. split; [discriminate|].
    apply sqlite_real_not_nan.
  - now rewrite (proj2 (proj2 (step_dashboards db env))).
  - destruct (step_delete_lot_cases db env lot_id) as [->|[_ ->]]; exact Hall.
Qed.

Lemma reachable_open_or_closed (db : DB) :
  reachable db -> forall b, In b (parking_booking db) -> open_or_closed b.
Proof.
  apply (reachable_keeps (fun d => forall b, In b (parking_booking d) -> open_or_closed b));
    [intros b []|exact open_or_closed_step].
Qed.

(** X9.  In every state the application can reach, a booking is either
    active without exit time and charge, or completed with an exit time and
    a charge that is not nan (a number or an infinity, or NULL where the
    checkout computed nan): no request stores another status (the third one
    the model mentions, cancelled, is never written), none leaves a
    completed booking without its exit time, and no stored charge is nan. *)
Theorem reachable_bookings_open_or_closed (db : DB) (b : ParkingBooking.t) :
  reachable db -> In b (parking_booking db) -> open_or_closed b.
Proof.
  intros Hr Hb. exact (reachable_open_or_closed db Hr b Hb).
Qed.

Lemma reachable_bookings_open_or_closed_witness :
  (reachable db_bob_in
   /\ In (ParkingBooking.mk 1 2 1 "KA-01" noon (Some (noon + 2 * hour))
            (Some (FFin 20)) "completed") (parking_booking db_bob_in))
  /\ open_or_closed (ParkingBooking.mk 1 2 1 "KA-01" noon (Some (noon + 2 * hour))
                       (Some (FFin 20)) "completed").
Proof.
  assert (Hin : In (ParkingBooking.mk 1 2 1 "KA-01" noon (Some (noon + 2 * hour))
                      (Some (FFin 20)) "completed") (parking_booking db_bob_in))
    by (vm_compute; left; reflexivity).
  split; [split; [exact db_bob_in_reachable|exact Hin]|].
  exact (reachable_bookings_open_or_closed db_bob_in _ db_bob_in_reachable Hin).
Defined.

(** X10.  No request deletes a booking or changes its key, its user, its
    spot, its vehicle number or its entry time; and the only request that
    changes a stored booking at all is [exit_parking] for that booking. *)
Theorem booking_rows_are_kept
    (db : DB) (r : Env * Call) (k : Z) (b : ParkingBooking.t) :
  get (parking_booking db) k = Some b ->
  (snd r <> ExitParking k -> get (parking_booking (step db r)) k = Some b)
  /\ exists b',
       get (parking_booking (step db r)) k = Some b'
       /\ ParkingBooking.id b' = ParkingBooking.id b
       /\ ParkingBooking.user_id b' = ParkingBooking.user_id b
       /\ ParkingBooking.spot_id b' = ParkingBooking.spot_id b
       /\ ParkingBooking.vehicle_number b' = ParkingBooking.vehicle_number b
       /\ ParkingBooking.entry_time b' = ParkingBooking.entry_time b.
Proof.
  intros Hb. split; [now apply step_keeps_booking|].
  destruct r as [env call].
  assert (Hother : snd (env, call) <> ExitParking k ->
                   exists b',
                     get (parking_booking (step db (env, call))) k = Some b'
                     /\ ParkingBooking.id b' = ParkingBooking.id b
                     /\ ParkingBooking.user_id b' = ParkingBooking.user_id b
                     /\ ParkingBooking.spot_id b' = ParkingBooking.spot_id b
                     /\ ParkingBooking.vehicle_number b' = ParkingBooking.vehicle_number b
                     /\ ParkingBooking.entry_time b' = ParkingBooking.entry_time b).
  { intros Hne. exists b. split; [now apply step_keeps_booking|]. repeat split. }
  destruct call; try (apply Hother; discriminate).
  destruct (Z.eq_dec booking_id k) as [->|Hne];
    [|apply Hother; cbn [snd]; congruence].
  destruct (step_exit_parking_cases db env k)
    as [->|(b0 & spot & lot & Hb0 & Hsp & ->)].
  - exists b. repeat split. exact Hb.
  - assert (b0 = b) by congruence. subst b0. eexists. split.
    + unfold checked_out. cbn [parking_booking].
      eapply get_update_same; [exact Hb|].
      cbn [pk ParkingBooking_Model ParkingBooking.set_status
           ParkingBooking.set_total_charge ParkingBooking.set_exit_time
           ParkingBooking.id].
      exact (get_some_pk _ _ _ Hb).
    + repeat split.
Qed.

Lemma booking_rows_are_kept_witness :
  get (parking_booking db_bob_in) 1
  = Some (ParkingBooking.mk 1 2 1 "KA-01" noon (Some (noon + 2 * hour))
            (Some (FFin 20)) "completed")
  /\ get (parking_booking
            (step db_bob_in (at_time None (noon + 4 * hour), DeleteLot 1))) 1
     = Some (ParkingBooking.mk 1 2 1 "KA-01" noon (Some (noon + 2 * hour))
               (Some (FFin 20)) "completed").
Proof.
  assert (Hb : get (parking_booking db_bob_in) 1
               = Some (ParkingBooking.mk 1 2 1 "KA-01" noon (Some (noon + 2 * hour))
                         (Some (FFin 20)) "completed"))
    by (vm_compute; reflexivity).
  split; [exact Hb|].
  apply (proj1 (booking_rows_are_kept db_bob_in
                  (at_time None (noon + 4 * hour), DeleteLot 1) 1 _ Hb)).
  discriminate.
Defined.

(** X11.  A request that does not come from an administrator's session
    creates no lot and no spot: afterwards every lot was there before, and so
    was the key of every spot. *)
Theorem no_admin_no_new_lot (db : DB) (env : Env) (call : Call) :
  is_admin_session env = false ->
  (forall l, In l (parking_lot (step db (env, call))) -> In l (parking_lot db))
  /\ (forall k, In k (map pk (parking_spot (step db (env, call)))) ->
                In k (map pk (parking_spot db))).
Proof.
  intros Hna. destruct call.
  - rewrite (proj1 (step_dashboards db env)). tauto.
  - destruct (step_add_lot_rows db env req) as [->|(form & Hadm & _)]; [tauto|].
    congruence.
  - rewrite (proj1 (proj2 (step_dashboards db env))). tauto.
  - destruct (step_book_spot_cases db env req) as [->|(uid & form & spot & Hf & ->)];
      [tauto|].
    unfold booked. cbn [parking_lot parking_spot]. rewrite map_pk_update. tauto.
  - destruct (step_exit_parking_cases db env booking_id)
      as [->|(b0 & spot & lot & Hb0 & Hsp & ->)]; [tauto|].
    unfold checked_out. cbn [parking_lot parking_spot]. rewrite map_pk_update. tauto.
  - rewrite (proj2 (proj2 (step_dashboards db env))). tauto.
  - destruct (step_delete_lot_cases db env lot_id) as [->|[_ ->]]; [tauto|].
    split.
    + intros l Hl. apply deleted_lots in Hl. tauto.
    + intros k Hk. apply in_map_iff in Hk. destruct Hk as (s & <- & Hs).
      apply deleted_spots in Hs. apply in_map. tauto.
Qed.

Lemma no_admin_no_new_lot_witness :
  is_admin_session (at_time (Some bob) noon) = false
  /\ parking_lot (step db_lot_A (at_time (Some bob) noon, AddLot (POST lot_A_form)))
     = parking_lot db_lot_A
  /\ forall l,
       In l (parking_lot (step db_lot_A (at_time (Some bob) noon,
                                         AddLot (POST lot_A_form)))) ->
       In l (parking_lot db_lot_A).
Proof.
  split; [reflexivity|]. split; [reflexivity|].
  exact (proj1 (no_admin_no_new_lot db_lot_A (at_time (Some bob) noon)
                  (AddLot (POST lot_A_form)) eq_refl)).
Defined.

(** X12.  As long as no request asks for the checkout of a booking that is
    not active, every state satisfies the occupancy invariant: a spot is
    flagged occupied exactly when it has one active booking.  All other
    requests, in any order and with any commit failing, keep it. *)
Theorem occupancy_kept_without_closed_checkout (trace : list (Env * Call)) :
  never_checks_out_closed empty_db trace ->
  occupancy_invariant (run empty_db trace)
  /\ forall s, In s (parking_spot (run empty_db trace)) ->
       List.length (active_bookings (ParkingSpot.id s) (run empty_db trace))
       = if ParkingSpot.is_occupied s then 1%nat else 0%nat.
Proof.
  intros Hn.
  destruct (occupancy_without_closed_checkout trace empty_db consistent_empty Hn)
    as [Hc Hocc].
  split; [exact Hocc|]. exact (occupied_iff_active _ Hc).
Qed.

Lemma occupancy_kept_without_closed_checkout_witness :
  never_checks_out_closed empty_db
    [(at_time (Some admin) noon, AddLot (POST lot_A_form));
     (at_time (Some alice) noon, BookSpot (POST (mkBookForm 1 "KA-01")));
     (at_time (Some alice) (noon + 2 * hour), ExitParking 1);
     (at_time (Some bob) (noon + 3 * hour), BookSpot (POST (mkBookForm 1 "KA-02")))]
  /\ occupancy_invariant db_bob_in.
Proof.
  assert (Hn : never_checks_out_closed empty_db
    [(at_time (Some admin) noon, AddLot (POST lot_A_form));
     (at_time (Some alice) noon, BookSpot (POST (mkBookForm 1 "KA-01")));
     (at_time (Some alice) (noon + 2 * hour), ExitParking 1);
     (at_time (Some bob) (noon + 3 * hour), BookSpot (POST (mkBookForm 1 "KA-02")))]).
  { cbn [never_checks_out_closed].
    split; [intros (k & b & Hcall & _); discriminate Hcall|].
    split; [intros (k & b & Hcall & _); discriminate Hcall|].
    split; [|split; [intros (k & b & Hcall & _); discriminate Hcall|exact I]].
    intros (k & b & Hcall & Hb & Hst). cbn [snd] in Hcall. injection Hcall as <-.
    change (get (parking_booking db_alice_in) 1 = Some b) in Hb.
    assert (Hrow : get (parking_booking db_alice_in) 1
                   = Some (ParkingBooking.mk 1 2 1 "KA-01" noon None None "active"))
      by (vm_compute; reflexivity).
    rewrite Hrow in Hb. injection Hb as <-. apply Hst. reflexivity. }
  split; [exact Hn|].
  exact (proj1 (occupancy_kept_without_closed_checkout _ Hn)).
Defined.

Lemma In_pk_get {R : Type} `{Model R} (t : list R) (k : Z) :
  In k (map pk t) -> exists r, get t k = Some r.
Proof.
  intros Hin. apply in_map_iff in Hin. destruct Hin as (r & Hk & Hin).
  destruct (get t k) as [r0|] eqn:E; [eauto|].
  unfold get in E. eapply find_none in E; [|exact Hin].
  apply Z.eqb_neq in E. contradiction.
Qed.

(** X13.  In a consistent state the checkout of an active booking by its
    owner cannot fail for a missing row: the booking's spot and that spot's
    lot exist and the spot is flagged occupied, so when the commit succeeds
    the booking is stored completed, the answer is the notice of a committed
    checkout (the thank-you with the charge, or the error notice when the
    charge is nan and stored as NULL), and the state is consistent again. *)
Theorem checkout_of_active_booking_succeeds
    (env : Env) (db : DB) (booking_id : Z) (s : Session) (b : ParkingBooking.t) :
  consistent db ->
  session env = Some s ->
  get (parking_booking db) booking_id = Some b ->
  ParkingBooking.user_id b = sess_user_id s ->
  ParkingBooking.status b = "active"%string ->
  commit_succeeds (commit_results env) = true ->
  exists spot lot,
    get (parking_spot db) (ParkingBooking.spot_id b) = Some spot
    /\ get (parking_lot db) (ParkingSpot.lot_id spot) = Some lot
    /\ ParkingSpot.is_occupied spot = true
    /\ serve (exit_parking booking_id) env db
       = (checked_out (now env) b spot lot db, Redirect "user_dashboard",
          [checkout_notice (charge (ParkingBooking.entry_time b) (now env)
                                   (ParkingLot.price_per_hour lot))])
    /\ consistent (checked_out (now env) b spot lot db).
Proof.
  intros Hc Hs Hb Hown Hact Hok.
  pose proof (get_some_in _ _ _ Hb) as Hbin.
  destruct (In_pk_get _ _ (active_spot_exists db Hc b Hbin Hact)) as [spot Hspot].
  pose proof (get_some_in _ _ _ Hspot) as Hsin.
  destruct (In_pk_get _ _ (spot_lot_exists db Hc spot Hsin)) as [lot Hlot].
  exists spot, lot. split; [exact Hspot|]. split; [exact Hlot|]. split; [|split].
  - apply (active_booking_occupies db b spot Hc Hbin Hact Hsin).
    exact (get_some_pk _ _ _ Hspot).
  - rewrite (exit_parking_serve env db booking_id s b spot lot Hs Hb Hown Hspot Hlot).
    now rewrite Hok.
  - now apply (consistent_checked_out _ booking_id).
Qed.

Lemma db_alice_in_consistent : consistent db_alice_in.
Proof.
  apply (occupancy_without_closed_checkout
           [(at_time (Some admin) noon, AddLot (POST lot_A_form));
            (at_time (Some alice) noon, BookSpot (POST (mkBookForm 1 "KA-01")))]
           empty_db consistent_empty).
  cbn [never_checks_out_closed].
  repeat split; intros (k & b & Hcall & _); discriminate.
Qed.

Lemma checkout_of_active_booking_succeeds_witness :
  exists spot lot,
    get (parking_spot db_alice_in) 1 = Some spot
    /\ get (parking_lot db_alice_in) (ParkingSpot.lot_id spot) = Some lot
    /\ serve (exit_parking 1) (at_time (Some alice) (noon + 2 * hour)) db_alice_in
       = (checked_out (noon + 2 * hour)
            (ParkingBooking.mk 1 2 1 "KA-01" noon None None "active") spot lot
            db_alice_in,
          Redirect "user_dashboard",
          [checkout_notice (charge noon (noon + 2 * hour)
                                   (ParkingLot.price_per_hour lot))]).
Proof.
  destruct (checkout_of_active_booking_succeeds
              (at_time (Some alice) (noon + 2 * hour)) db_alice_in 1 alice
              (ParkingBooking.mk 1 2 1 "KA-01" noon None None "active")
              db_alice_in_consistent eq_refl eq_refl eq_refl eq_refl eq_refl)
    as (spot & lot & Hspot & Hlot & _ & Hserve & _).
  exists spot, lot. repeat split; assumption.
Defined.

(* ================================================================== *)
(** * Lemmas: the charge of a stay *)
(* ================================================================== *)

Section ChargeValues.
Local Open Scope Q_scope.

Lemma round_half_even_comp (x y : Q) :
  x == y -> round_half_even x = round_half_even y.
Proof.
  intros E. unfold round_half_even. rewrite (Qfloor_comp _ _ E).
  assert (Ec : (x - inject_Z (Qfloor y) ?= 1 # 2)
               = (y - inject_Z (Qfloor y) ?= 1 # 2)) by now rewrite E.
  now rewrite Ec.
Qed.

Lemma Qred_inject_Z (n : Z) : Qred (inject_Z n) = inject_Z n.
Proof.
  unfold Qred, inject_Z.
  pose proof (Z.ggcd_gcd n 1) as Hg. pose proof (Z.ggcd_correct_divisors n 1) as Hd.
  destruct (Z.ggcd n 1) as [g [aa bb]]. cbn [fst snd] in *.
  rewrite Z.gcd_1_r in Hg. subst g. destruct Hd as [Ha Hb].
  rewrite Z.mul_1_l in Ha, Hb. subst aa bb. reflexivity.
Qed.

(** An integer below [2 ^ 53] in magnitude is a binary64 number: rounding
    leaves it as it is. *)
Lemma rnd_pos_integer (x : Q) (n : Z) :
  x == inject_Z n -> (0 < n < 2 ^ 53)%Z -> rnd_pos x = FFin (inject_Z n).
Proof.
  intros E Hn.
  assert (Hx : 0 < x) by (rewrite E; change 0 with (inject_Z 0); rewrite <- Zlt_Qlt; lia).
  destruct (ilog2_spec x Hx) as [Hlo Hhi].
  assert (Hx1 : 1 <= x).
  { rewrite E. change 1 with (inject_Z 1). rewrite <- Zle_Qle. lia. }
  assert (Hx2 : x < 2 ^ 53).
  { rewrite E, <- (pow2_inject 53) by lia. rewrite <- Zlt_Qlt. lia. }
  assert (Hl0 : (0 <= ilog2 x)%Z).
  { assert (H : 2 ^ 0 < 2 ^ (ilog2 x + 1)) by (change (2 ^ 0) with 1; lra).
    apply pow2_lt_inv in H. lia. }
  assert (Hl1 : (ilog2 x < 53)%Z).
  { assert (H : 2 ^ ilog2 x < 2 ^ 53) by lra. now apply pow2_lt_inv in H. }
  set (e := ulp_exp x).
  assert (He : (-52 <= e <= 0)%Z) by (unfold e, ulp_exp; lia).
  assert (Hscaled : x / 2 ^ e == inject_Z (n * 2 ^ (- e))).
  { rewrite inject_Z_mult, (pow2_inject (- e)) by lia. rewrite E.
    rewrite Qpower_opp. reflexivity. }
  assert (Hnear : nearest x == inject_Z n).
  { unfold nearest. fold e. rewrite (round_half_even_comp _ _ Hscaled).
    rewrite round_half_even_inject, inject_Z_mult, (pow2_inject (- e)) by lia.
    rewrite <- Qmult_assoc, <- pow2_add.
    replace (- e + e)%Z with 0%Z by lia. change (2 ^ 0) with 1. ring. }
  unfold rnd_pos.
  assert (Hfin : Qle_bool (2 ^ 1024) (nearest x) = false).
  { destruct (Qle_bool (2 ^ 1024) (nearest x)) eqn:B; [|reflexivity].
    apply Qle_bool_iff in B. rewrite Hnear, <- E in B.
    assert (H : 2 ^ 53 < 2 ^ 1024) by (apply pow2_lt; lia). lra. }
  rewrite Hfin. f_equal. rewrite (Qred_complete _ _ Hnear). apply Qred_inject_Z.
Qed.

Lemma rnd_integer (x : Q) (n : Z) :
  x == inject_Z n -> (- 2 ^ 53 < n < 2 ^ 53)%Z -> rnd x = FFin (inject_Z n).
Proof.
  intros E Hn. unfold rnd.
  destruct (x ?= 0) eqn:C.
  - rewrite <- Qeq_alt in C. rewrite E in C.
    unfold Qeq, inject_Z in C. cbn [Qnum Qden] in C.
    assert (Hz : n = 0%Z) by lia. now subst n.
  - rewrite <- Qlt_alt in C. rewrite E in C.
    change 0 with (inject_Z 0) in C. rewrite <- Zlt_Qlt in C.
    rewrite (rnd_pos_integer (- x) (- n)).
    + cbn [fneg]. unfold Qopp, inject_Z. cbn [Qnum Qden].
      now rewrite Z.opp_involutive.
    + rewrite E. unfold Qopp, inject_Z, Qeq. cbn [Qnum Qden]. lia.
    + lia.
  - rewrite <- Qgt_alt in C. rewrite E in C.
    change 0 with (inject_Z 0) in C. rewrite <- Zlt_Qlt in C.
    apply rnd_pos_integer; [exact E|lia].
Qed.

Lemma round2_integer (n : Z) :
  (- 2 ^ 53 < n < 2 ^ 53)%Z -> round2 (FFin (inject_Z n)) = FFin (inject_Z n).
Proof.
  intros Hn. cbn [round2].
  assert (E : inject_Z n * 100 == inject_Z (n * 100)).
  { rewrite inject_Z_mult. reflexivity. }
  rewrite (round_half_even_comp _ _ E), round_half_even_inject.
  apply rnd_integer; [|exact Hn].
  rewrite inject_Z_mult. field.
Qed.

(** X14.  A stay of a whole number of hours at an hourly price that is a
    whole number is charged exactly hours times price (as long as the product
    stays below [2 ^ 53]); in particular two hours at 10.0 cost 20.0. *)
Theorem charge_whole_hours (entry_time : datetime) (h p : Z) :
  valid_datetime entry_time ->
  valid_datetime (entry_time + h * hour)%Z ->
  (0 <= h)%Z ->
  (- 2 ^ 53 < h * p < 2 ^ 53)%Z ->
  charge entry_time (entry_time + h * hour)%Z (FFin (inject_Z p))
  = FFin (inject_Z (h * p)).
Proof.
  unfold valid_datetime, datetime_end. intros He Hx Hh Hp.
  unfold charge, hours_parked, total_seconds.
  replace (entry_time + h * hour - entry_time)%Z with (h * hour)%Z by lia.
  assert (Hsec : rnd (h * hour # 1000000) = FFin (inject_Z (h * 3600))).
  { apply rnd_integer.
    - unfold Qeq, inject_Z, hour. cbn [Qnum Qden]. lia.
    - unfold hour in Hx. lia. }
  rewrite Hsec, float_of_int_3600. cbn [fdiv].
  change (Qeq_bool 3600 0) with false. cbv iota.
  assert (Hhours : rnd (inject_Z (h * 3600) / 3600) = FFin (inject_Z h)).
  { apply rnd_integer.
    - rewrite inject_Z_mult. field.
    - unfold hour in Hx. lia. }
  rewrite Hhours. cbn [fmul].
  assert (Hprod : rnd (inject_Z h * inject_Z p) = FFin (inject_Z (h * p))).
  { apply rnd_integer; [|exact Hp]. now rewrite inject_Z_mult. }
  rewrite Hprod. now apply round2_integer.
Qed.

Lemma charge_whole_hours_witness :
  (valid_datetime noon /\ valid_datetime (noon + 2 * hour)%Z /\ (0 <= 2)%Z
   /\ (- 2 ^ 53 < 2 * 10 < 2 ^ 53)%Z)
  /\ charge noon (noon + 2 * hour)%Z (FFin 10) = FFin 20.
Proof.
  assert (H0 : valid_datetime noon) by (vm_compute; split; congruence).
  assert (H1 : valid_datetime (noon + 2 * hour)%Z) by (vm_compute; split; congruence).
  assert (H2 : (0 <= 2)%Z) by lia.
  assert (H3 : (- 2 ^ 53 < 2 * 10 < 2 ^ 53)%Z) by lia.
  split; [repeat split; assumption|].
  exact (charge_whole_hours noon 2 10 H0 H1 H2 H3).
Defined.

Lemma fmul_anti_mono (x x' p : Q) :
  p <= 0 -> x <= x' -> fle (fmul (FFin x') (FFin p)) (fmul (FFin x) (FFin p)) = true.
Proof.
  intros Hp Hx. cbn [fmul]. apply rnd_mono.
  assert (H : 0 <= (x' - x) * (- p)) by (apply Qmult_le_0_compat; lra).
  lra.
Qed.

(** The charges of two stays that begin together compare as their lengths
    do when the price is not negative, and the other way round when it is not
    positive. *)
Lemma charge_order (entry_time t1 t2 : datetime) (p : Q) :
  valid_datetime entry_time -> valid_datetime t1 -> valid_datetime t2 ->
  (t1 <= t2)%Z ->
  (0 <= p ->
   fle (charge entry_time t1 (FFin p)) (charge entry_time t2 (FFin p)) = true)
  /\ (p <= 0 ->
      fle (charge entry_time t2 (FFin p)) (charge entry_time t1 (FFin p)) = true).
Proof.
  intros He H1 H2 Ht.
  destruct (hours_parked_finite entry_time t1 He H1) as [h1 E1].
  destruct (hours_parked_finite entry_time t2 He H2) as [h2 E2].
  pose proof (hours_parked_mono entry_time t1 t2 Ht) as Hm.
  unfold charge. rewrite E1, E2 in *. apply fle_FFin in Hm.
  split; intros Hp; apply round2_mono.
  - now apply fmul_mono.
  - now apply fmul_anti_mono.
Qed.

Lemma charge_no_time (entry_time : datetime) (p : Q) :
  charge entry_time entry_time (FFin p) = FFin 0.
Proof.
  unfold charge, hours_parked, total_seconds. rewrite Z.sub_diag.
  rewrite float_of_int_3600.
  change (rnd (0 # 1000000)) with (FFin 0). cbn [fdiv].
  change (Qeq_bool 3600 0) with false. cbv iota.
  change (rnd (0 / 3600)) with (FFin 0). cbn [fmul].
  rewrite (rnd_integer (0 * p) 0); [|ring|lia].
  exact (round2_integer 0 ltac:(lia)).
Qed.

(** X15.  The charge of a stay that ends when it begins is zero; with a
    price that is not negative a stay that ends after it begins is never
    charged a negative amount, and with a price that is not positive never a
    positive one. *)
Theorem charge_sign (entry_time exit_time : datetime) (p : Q) :
  valid_datetime entry_time -> valid_datetime exit_time ->
  (entry_time <= exit_time)%Z ->
  charge entry_time entry_time (FFin p) = FFin 0
  /\ (0 <= p -> fle (FFin 0) (charge entry_time exit_time (FFin p)) = true)
  /\ (p <= 0 -> fle (charge entry_time exit_time (FFin p)) (FFin 0) = true).
Proof.
  intros He Hx Ht. split; [apply charge_no_time|].
  destruct (charge_order entry_time entry_time exit_time p He He Hx Ht) as [Hup Hdown].
  rewrite charge_no_time in Hup, Hdown. split; assumption.
Qed.

Lemma charge_sign_witness :
  (valid_datetime noon /\ valid_datetime (noon + hour)%Z /\ (noon <= noon + hour)%Z)
  /\ fle (FFin 0) (charge noon (noon + hour)%Z (FFin (25 # 10))) = true.
Proof.
  assert (H0 : valid_datetime noon) by (vm_compute; split; congruence).
  assert (H1 : valid_datetime (noon + hour)%Z) by (vm_compute; split; congruence).
  assert (H2 : (noon <= noon + hour)%Z) by (vm_compute; congruence).
  split; [repeat split; assumption|].
  apply (proj1 (proj2 (charge_sign noon (noon + hour)%Z (25 # 10) H0 H1 H2))).
  discriminate.
Defined.

(** X16.  The price is stored as the form gives it, negative or not; with
    a price that is not positive the charge does not grow with the time
    parked: of two checkouts of stays that began together, the later one is
    charged at most what the earlier one is. *)
Theorem charge_not_growing_nonpositive_price
    (entry_time t1 t2 : datetime) (p : Q) :
  valid_datetime entry_time -> valid_datetime t1 -> valid_datetime t2 ->
  p <= 0 ->
  (t1 <= t2)%Z ->
  fle (charge entry_time t2 (FFin p)) (charge entry_time t1 (FFin p)) = true.
Proof.
  intros He H1 H2 Hp Ht.
  now apply (proj2 (charge_order entry_time t1 t2 p He H1 H2 Ht)).
Qed.

Lemma charge_not_growing_nonpositive_price_witness :
  (valid_datetime noon /\ valid_datetime (noon + hour)%Z
   /\ valid_datetime (noon + 3 * hour)%Z /\ - (5) <= 0
   /\ (noon + hour <= noon + 3 * hour)%Z)
  /\ fle (charge noon (noon + 3 * hour)%Z (FFin (- (5))))
         (charge noon (noon + hour)%Z (FFin (- (5)))) = true.
Proof.
  assert (H0 : valid_datetime noon) by (vm_compute; split; congruence).
  assert (H1 : valid_datetime (noon + hour)%Z) by (vm_compute; split; congruence).
  assert (H2 : valid_datetime (noon + 3 * hour)%Z) by (vm_compute; split; congruence).
  assert (Hp : - (5) <= 0) by discriminate.
  assert (Ht : (noon + hour <= noon + 3 * hour)%Z) by (vm_compute; congruence).
  split; [repeat split; assumption|].
  exact (charge_not_growing_nonpositive_price noon (noon + hour)%Z
           (noon + 3 * hour)%Z (- (5)) H0 H1 H2 Hp Ht).
Defined.
End ChargeValues.

(* ================================================================== *)
(** * Lemmas: what the dashboards list *)
(* ================================================================== *)

Lemma bookings_of_user_In (uid : Z) (st : string) (db : DB) (b : ParkingBooking.t) :
  In b (bookings_of_user uid st db)
  <-> In b (parking_booking db) /\ ParkingBooking.user_id b = uid
      /\ ParkingBooking.status b = st.
Proof.
  unfold bookings_of_user. rewrite filter_In, andb_true_iff, Z.eqb_eq, String.eqb_eq.
  tauto.
Qed.

Lemma bookings_with_status_In (st : string) (db : DB) (b : ParkingBooking.t) :
  In b (bookings_with_status st db)
  <-> In b (parking_booking db) /\ ParkingBooking.status b = st.
Proof.
  unfold bookings_with_status. rewrite filter_In, String.eqb_eq. tauto.
Qed.

(** X17.  In every state the application can reach, the two lists of a
    user's dashboard hold bookings of that user only, and every booking of
    the user is in exactly one of them; likewise every booking is in exactly
    one of the two lists of the reports page. *)
Theorem dashboards_list_every_booking_once (db : DB) (b : ParkingBooking.t) :
  reachable db ->
  In b (parking_booking db) ->
  let mine := user_dashboard_context (ParkingBooking.user_id b) db in
  let all := view_reports_context db in
  ((In b (fst mine) /\ ~ In b (snd mine)) \/ (In b (snd mine) /\ ~ In b (fst mine)))
  /\ ((In b (fst all) /\ ~ In b (snd all)) \/ (In b (snd all) /\ ~ In b (fst all)))
  /\ forall uid x, In x (fst (user_dashboard_context uid db))
                   \/ In x (snd (user_dashboard_context uid db)) ->
                   ParkingBooking.user_id x = uid.
Proof.
  intros Hr Hb mine all. unfold mine, all, user_dashboard_context, view_reports_context.
  cbn [fst snd]. rewrite !bookings_of_user_In, !bookings_with_status_In.
  split; [|split].
  - destruct (reachable_open_or_closed db Hr b Hb) as [(Hst & _)|(Hst & _)];
      rewrite Hst; [left|right]; (split; [tauto|intros (_ & _ & E); discriminate]).
  - destruct (reachable_open_or_closed db Hr b Hb) as [(Hst & _)|(Hst & _)];
      rewrite Hst; [left|right]; (split; [tauto|intros (_ & E); discriminate]).
  - intros uid x. rewrite !bookings_of_user_In. tauto.
Qed.

Lemma dashboards_list_every_booking_once_witness :
  (reachable db_bob_in
   /\ In (ParkingBooking.mk 2 3 1 "KA-02" noon None None "active")
         (parking_booking db_bob_in))
  /\ user_dashboard_context 3 db_bob_in
     = ([ParkingBooking.mk 2 3 1 "KA-02" noon None None "active"], [])
  /\ (In (ParkingBooking.mk 2 3 1 "KA-02" noon None None "active")
         (fst (user_dashboard_context 3 db_bob_in))
      /\ ~ In (ParkingBooking.mk 2 3 1 "KA-02" noon None None "active")
              (snd (user_dashboard_context 3 db_bob_in))
      \/ In (ParkingBooking.mk 2 3 1 "KA-02" noon None None "active")
            (snd (user_dashboard_context 3 db_bob_in))
         /\ ~ In (ParkingBooking.mk 2 3 1 "KA-02" noon None None "active")
                 (fst (user_dashboard_context 3 db_bob_in))).
Proof.
  assert (Hin : In (ParkingBooking.mk 2 3 1 "KA-02" noon None None "active")
                   (parking_booking db_bob_in)) by (vm_compute; right; left; reflexivity).
  split; [split; [exact db_bob_in_reachable|exact Hin]|]. split; [vm_compute; reflexivity|].
  exact (proj1 (dashboards_list_every_booking_once db_bob_in _
                  db_bob_in_reachable Hin)).
Defined.

Lemma In_update_other {R : Type} `{Model R} (r' x : R) (t : list R) :
  In x t -> pk x <> pk r' -> In x (update r' t).
Proof.
  intros Hin Hne. unfold update. apply in_map_iff. exists x.
  apply Z.eqb_neq in Hne. now rewrite Hne.
Qed.

Lemma In_update_same {R : Type} `{Model R} (r r' : R) (t : list R) :
  In r t -> pk r' = pk r -> In r' (update r' t).
Proof.
  intros Hin Hpk. unfold update. apply in_map_iff. exists r.
  rewrite Hpk, Z.eqb_refl. auto.
Qed.

(** X18.  After a successful booking the user's dashboard lists the new
    booking last among the active ones and its completed list is as before;
    the dashboards of all other users are as before. *)
Theorem dashboard_after_booking
    (env : Env) (db : DB) (s : Session) (form : BookForm) (spot : ParkingSpot.t) :
  session env = Some s ->
  first_free_spot (form_lot_id form) (parking_spot db) = Some spot ->
  commit_succeeds (commit_results env) = true ->
  let db' := step db (env, BookSpot (POST form)) in
  user_dashboard_context (sess_user_id s) db'
  = ((fst (user_dashboard_context (sess_user_id s) db)
      ++ [ParkingBooking.mk (next_pk (parking_booking db)) (sess_user_id s)
            (ParkingSpot.id spot) (form_vehicle_number form)
            (entry_time_default env) None None "active"])%list,
     snd (user_dashboard_context (sess_user_id s) db))
  /\ forall uid, uid <> sess_user_id s ->
       user_dashboard_context uid db' = user_dashboard_context uid db.
Proof.
  intros Hs Hf Hc db'.
  assert (Hdb' : db' = booked env (sess_user_id s) form spot db).
  { unfold db', step. cbn [fst snd route].
    now rewrite (book_spot_serve _ _ _ s Hs), Hf, Hc. }
  rewrite Hdb'. unfold user_dashboard_context, bookings_of_user, booked, insert.
  cbn [parking_booking fst snd]. split.
  - rewrite !filter_app. cbn [filter ParkingBooking.user_id ParkingBooking.status].
    rewrite Z.eqb_refl.
    change (String.eqb "active" "active") with true.
    change (String.eqb "active" "completed") with false.
    cbn [andb]. now rewrite app_nil_r.
  - intros uid Hne. rewrite !filter_app.
    cbn [filter ParkingBooking.user_id ParkingBooking.status].
    assert (E : (sess_user_id s =? uid) = false) by (apply Z.eqb_neq; congruence).
    rewrite E. cbn [andb]. now rewrite !app_nil_r.
Qed.

Lemma dashboard_after_booking_witness :
  (session (at_time (Some alice) noon) = Some alice
   /\ first_free_spot 1 (parking_spot db_lot_A) = Some (ParkingSpot.mk 1 "001" 1 false)
   /\ commit_succeeds (commit_results (at_time (Some alice) noon)) = true)
  /\ user_dashboard_context 2 db_alice_in
     = ([ParkingBooking.mk 1 2 1 "KA-01" noon None None "active"], []).
Proof.
  split; [repeat split|].
  exact (proj1 (dashboard_after_booking (at_time (Some alice) noon) db_lot_A alice
                  (mkBookForm 1 "KA-01") (ParkingSpot.mk 1 "001" 1 false)
                  eq_refl eq_refl eq_refl)).
Defined.

(** X19.  After the committed checkout of an active booking by its owner,
    in a consistent state, the booking has left the active list of the
    owner's dashboard, which otherwise is as before, and is in the completed
    list with exit time [now] and the charge as stored: the charge computed
    from the price of its lot, or NULL when that charge is nan. *)
Theorem dashboard_after_checkout
    (env : Env) (db : DB) (booking_id : Z) (s : Session) (b : ParkingBooking.t) :
  consistent db ->
  session env = Some s ->
  get (parking_booking db) booking_id = Some b ->
  ParkingBooking.user_id b = sess_user_id s ->
  ParkingBooking.status b = "active"%string ->
  commit_succeeds (commit_results env) = true ->
  let db' := step db (env, ExitParking booking_id) in
  (forall x, In x (fst (user_dashboard_context (sess_user_id s) db'))
             <-> In x (fst (user_dashboard_context (sess_user_id s) db))
                 /\ ParkingBooking.id x <> booking_id)
  /\ exists spot lot,
       get (parking_spot db) (ParkingBooking.spot_id b) = Some spot
       /\ get (parking_lot db) (ParkingSpot.lot_id spot) = Some lot
       /\ In (ParkingBooking.mk booking_id (sess_user_id s) (ParkingBooking.spot_id b)
                (ParkingBooking.vehicle_number b) (ParkingBooking.entry_time b)
                (Some (now env))
                (sqlite_real (charge (ParkingBooking.entry_time b) (now env)
                                     (ParkingLot.price_per_hour lot)))
                "completed")
             (snd (user_dashboard_context (sess_user_id s) db')).
Proof.
  intros Hc Hs Hb Hown Hact Hok db'.
  pose proof (get_some_in _ _ _ Hb) as Hbin.
  pose proof (get_some_pk _ _ _ Hb) as Hbk. cbn [pk ParkingBooking_Model] in Hbk.
  destruct (In_pk_get _ _ (active_spot_exists db Hc b Hbin Hact)) as [spot Hspot].
  destruct (In_pk_get _ _ (spot_lot_exists db Hc spot (get_some_in _ _ _ Hspot)))
    as [lot Hlot].
  assert (Hdb' : db' = checked_out (now env) b spot lot db).
  { unfold db', step. cbn [fst snd route].
    now rewrite (exit_parking_serve env db booking_id s b spot lot Hs Hb Hown Hspot Hlot),
      Hok. }
  rewrite Hdb'. unfold user_dashboard_context. cbn [fst snd].
  unfold checked_out. rewrite checked_out_fields.
  set (b' := ParkingBooking.mk _ _ _ _ _ _ _ _).
  split.
  - intros x. rewrite !bookings_of_user_In. cbn [parking_booking]. split.
    + intros (Hx & Hu & Hst). apply In_update in Hx.
      destruct Hx as [->|[Hx Hne]]; [discriminate|].
      cbn [pk ParkingBooking_Model b' ParkingBooking.id] in Hne.
      repeat split; try assumption. congruence.
    + intros ((Hx & Hu & Hst) & Hne). repeat split; try assumption.
      apply In_update_other; [exact Hx|].
      cbn [pk ParkingBooking_Model b' ParkingBooking.id]. congruence.
  - exists spot, lot. split; [exact Hspot|]. split; [exact Hlot|].
    apply bookings_of_user_In. cbn [parking_booking]. split; [|split].
    + replace booking_id with (ParkingBooking.id b) by exact Hbk.
      rewrite <- Hown. fold b'. now apply (In_update_same b).
    + reflexivity.
    + reflexivity.
Qed.

Lemma dashboard_after_checkout_witness :
  user_dashboard_context 2 db_alice_in
  = ([ParkingBooking.mk 1 2 1 "KA-01" noon None None "active"], [])
  /\ (forall x, In x (fst (user_dashboard_context 2 db_alice_out))
                <-> In x (fst (user_dashboard_context 2 db_alice_in))
                    /\ ParkingBooking.id x <> 1)
  /\ user_dashboard_context 2 db_alice_out
     = ([], [ParkingBooking.mk 1 2 1 "KA-01" noon (Some (noon + 2 * hour))
               (Some (FFin 20)) "completed"]).
Proof.
  split; [reflexivity|]. split; [|vm_compute; reflexivity].
  exact (proj1 (dashboard_after_checkout
                  (at_time (Some alice) (noon + 2 * hour)) db_alice_in 1 alice
                  (ParkingBooking.mk 1 2 1 "KA-01" noon None None "active")
                  db_alice_in_consistent eq_refl eq_refl eq_refl eq_refl eq_refl)).
Defined.

(* ================================================================== *)
(** * Lemmas: accounts *)
(* ================================================================== *)

Lemma user_by_name_none (name : string) (users : list User.t) :
  user_by_name name users = None <-> ~ In name (map User.username users).
Proof.
  unfold user_by_name. induction users as [|u users IH]; cbn [find map In]; [tauto|].
  destruct (String.eqb (User.username u) name) eqn:E.
  - apply String.eqb_eq in E. split; [discriminate|]. intros H. exfalso. apply H. now left.
  - apply String.eqb_neq in E. rewrite IH. tauto.
Qed.

Lemma user_by_name_some (name : string) (users : list User.t) (u : User.t) :
  user_by_name name users = Some u -> In u users /\ User.username u = name.
Proof.
  unfold user_by_name. intros Hf. apply find_some in Hf.
  destruct Hf as [Hin Hn]. apply String.eqb_eq in Hn. auto.
Qed.

Lemma user_by_name_inserted (name : string) (users : list User.t)
    (row : Z -> User.t) :
  user_by_name name users = None ->
  User.username (row (next_pk users)) = name ->
  user_by_name name (insert row users) = Some (row (next_pk users)).
Proof.
  intros Hn Hrow. unfold user_by_name, insert in *. rewrite find_append, Hn.
  cbn [find]. now rewrite Hrow, String.eqb_refl.
Qed.

Lemma accounts_ok_inserted (users : list User.t) (name hash : string) (adm : bool) :
  accounts_ok users ->
  user_by_name name users = None ->
  (adm = true -> name = "admin"%string) ->
  (lower name = "admin"%string -> name = "admin"%string) ->
  accounts_ok (insert (fun k => User.mk k name hash adm) users).
Proof.
  intros [Hnames Hkeys Hadm Hres] Hnone Ha Hl. apply user_by_name_none in Hnone.
  constructor.
  - unfold insert. rewrite map_app. cbn [map User.username].
    apply NoDup_app; [exact Hnames|repeat constructor; simpl; tauto|].
    intros n Hn [<-|[]]. contradiction.
  - now apply NoDup_pk_insert.
  - intros u Hu. unfold insert in Hu. apply in_app_or in Hu.
    destruct Hu as [Hu|[<-|[]]]; [now apply Hadm|exact Ha].
  - intros u Hu. unfold insert in Hu. apply in_app_or in Hu.
    destruct Hu as [Hu|[<-|[]]]; [now apply Hres|exact Hl].
Qed.

Lemma accounts_ok_step (generate : string -> string -> string)
    (users : list User.t) (e : AccountEvent) :
  accounts_ok users -> accounts_ok (account_step generate users e).
Proof.
  intros Hok. destruct e as [salt ok|req salt ok]; cbn [account_step].
  - unfold create_admin. destruct (user_by_name "admin" users) eqn:E; [exact Hok|].
    destruct ok; [|exact Hok]. apply accounts_ok_inserted; auto.
  - unfold register. destruct req as [|form]; [exact Hok|].
    destruct (user_by_name (form_username form) users) eqn:E; [exact Hok|].
    destruct (String.eqb (lower (form_username form)) "admin") eqn:El; [exact Hok|].
    destruct ok; [|exact Hok]. cbn [fst].
    apply accounts_ok_inserted; [exact Hok|exact E|discriminate|].
    intros Hlow. apply String.eqb_neq in El. contradiction.
Qed.

Lemma accounts_ok_run (generate : string -> string -> string)
    (events : list AccountEvent) :
  forall users, accounts_ok users -> accounts_ok (account_run generate users events).
Proof.
  induction events as [|e events IH]; intros users Hok; [exact Hok|].
  cbn [account_run fold_left]. apply IH. now apply accounts_ok_step.
Qed.

Lemma accounts_ok_nil : accounts_ok [].
Proof. constructor; cbn; try constructor; intros; contradiction. Qed.

(** X20.  Whatever starts of the program and registrations happened, with
    any commit failing: user names are distinct, keys are distinct, the only
    account that is an administrator is the one named admin, and no other
    account has a name that reads admin in lower case.  So a successful login
    opens an administrator's session only for the user admin. *)
Theorem accounts_stay_ok
    (generate : string -> string -> string) (check : string -> string -> bool)
    (events : list AccountEvent) :
  let users := account_run generate [] events in
  accounts_ok users
  /\ forall form sess s answer,
       login check (POST form) users sess
       = (Some s, answer, [Message "Logged in successfully!" "success"]) ->
       sess_is_admin s = true -> sess_username s = "admin"%string.
Proof.
  intros users.
  assert (Hok : accounts_ok users) by (apply accounts_ok_run, accounts_ok_nil).
  split; [exact Hok|]. intros form sess s answer Hlogin Hadm.
  unfold login in Hlogin. cbv zeta in Hlogin.
  destruct (user_by_name (form_username form) users) as [u|] eqn:E; [|discriminate].
  destruct (check (User.password u) (form_password form)); [|discriminate].
  injection Hlogin as <- _. cbn [sess_is_admin sess_username] in *.
  apply user_by_name_some in E. now apply (only_admin_is_admin users Hok).
Qed.

(** X21.  A registration is refused, leaving the table of users as it is,
    when the name is taken (notice "Username already exists") and otherwise
    when the name reads admin in lower case, as Admin and ADMIN do (notice
    "This username is not allowed"). *)
Theorem register_refuses
    (generate : string -> string -> string) (form : Credentials) (salt : string)
    (commit_ok : bool) (users : list User.t) :
  (In (form_username form) (map User.username users) ->
   register generate (POST form) salt commit_ok users
   = (users, Redirect "register", [Message "Username already exists" "error"]))
  /\ (~ In (form_username form) (map User.username users) ->
      lower (form_username form) = "admin"%string ->
      register generate (POST form) salt commit_ok users
      = (users, Redirect "register", [Message "This username is not allowed" "error"])).
Proof.
  unfold register. split.
  - intros Hin. destruct (user_by_name (form_username form) users) eqn:E; [reflexivity|].
    apply user_by_name_none in E. contradiction.
  - intros Hni Hlow. apply user_by_name_none in Hni. rewrite Hni, Hlow. reflexivity.
Qed.

Lemma register_refuses_witness :
  (~ In "Admin"%string (map User.username []) /\ lower "Admin" = "admin"%string)
  /\ register (fun salt p => (salt ++ p)%string) (POST (mkCredentials "Admin" "secret"))
              "x7" true []
     = ([], Redirect "register", [Message "This username is not allowed" "error"])
  /\ register (fun salt p => (salt ++ p)%string) (POST (mkCredentials "ADMIN" "secret"))
              "x7" true []
     = ([], Redirect "register", [Message "This username is not allowed" "error"]).
Proof.
  split; [split; [intros []|reflexivity]|]. split.
  - apply (proj2 (register_refuses (fun salt p => (salt ++ p)%string)
                    (mkCredentials "Admin" "secret") "x7" true [])).
    + intros [].
    + reflexivity.
  - apply (proj2 (register_refuses (fun salt p => (salt ++ p)%string)
                    (mkCredentials "ADMIN" "secret") "x7" true [])).
    + intros [].
    + reflexivity.
Defined.

(** X22.  When checking a password against its own hash succeeds, a user who
    has registered can log in with the same name and password: the session
    carries the key the registration gave, the name, and no administrator
    flag, and the answer redirects to the user dashboard; [add_lot] then
    refuses that session.  With a password the check rejects, the login
    leaves the session as it was. *)
Theorem register_then_login
    (generate : string -> string -> string) (check : string -> string -> bool)
    (form : Credentials) (salt : string) (users : list User.t) :
  (forall s p, check (generate s p) p = true) ->
  ~ In (form_username form) (map User.username users) ->
  lower (form_username form) <> "admin"%string ->
  let users' := fst (fst (register generate (POST form) salt true users)) in
  let s := mkSession (next_pk users) (form_username form) false in
  register generate (POST form) salt true users
  = (users', Redirect "login", [Message "Registration successful! Please login." "success"])
  /\ (forall sess,
        login check (POST form) users' sess
        = (Some s, Redirect "user_dashboard", [Message "Logged in successfully!" "success"]))
  /\ (forall now t0 commits req db,
        serve (add_lot req) (mkEnv (Some s) now t0 commits) db
        = (db, Redirect "login", [Message "Admin access required" "error"]))
  /\ (forall sess wrong,
        check (generate salt (form_password form)) wrong = false ->
        login check (POST (mkCredentials (form_username form) wrong)) users' sess
        = (sess, Render "login.html", [Message "Invalid username or password" "error"])).
Proof.
  intros Hcheck Hni Hlow users' s. apply user_by_name_none in Hni.
  apply String.eqb_neq in Hlow.
  assert (Hreg : register generate (POST form) salt true users
                 = (insert (fun k => User.mk k (form_username form)
                                       (generate salt (form_password form)) false) users,
                    Redirect "login",
                    [Message "Registration successful! Please login." "success"])).
  { unfold register. now rewrite Hni, Hlow. }
  assert (Hu : users' = insert (fun k => User.mk k (form_username form)
                                   (generate salt (form_password form)) false) users).
  { unfold users'. now rewrite Hreg. }
  assert (Hfind : user_by_name (form_username form) users'
                  = Some (User.mk (next_pk users) (form_username form)
                                  (generate salt (form_password form)) false)).
  { rewrite Hu. now apply user_by_name_inserted. }
  split; [now rewrite Hreg, Hu|]. split; [|split].
  - intros sess. unfold login. cbv zeta. rewrite Hfind. cbn [User.password].
    rewrite Hcheck. reflexivity.
  - intros now t0 commits req db. reflexivity.
  - intros sess wrong Hwrong. unfold login. cbv zeta. cbn [form_username form_password].
    rewrite Hfind. cbn [User.password]. now rewrite Hwrong.
Qed.

Lemma register_then_login_witness :
  ((forall s p : string, String.eqb ("x7$" ++ p) ("x7$" ++ p) = true)
   /\ ~ In "alice"%string (map User.username [])
   /\ lower "alice" <> "admin"%string)
  /\ login (fun h p => String.eqb h ("x7$" ++ p)) (POST (mkCredentials "alice" "secret"))
           [User.mk 1 "alice" "x7$secret" false] None
     = (Some (mkSession 1 "alice" false), Redirect "user_dashboard",
        [Message "Logged in successfully!" "success"]).
Proof.
  split; [split; [intros s p; apply String.eqb_refl|split; [intros []|discriminate]]|].
  assert (Hcheck : forall s p : string,
             (fun h q => String.eqb h ("x7$" ++ q)) ((fun _ q => ("x7$" ++ q)%string) s p) p
             = true) by (intros s p; apply String.eqb_refl).
  assert (Hni : ~ In (form_username (mkCredentials "alice" "secret"))
                     (map User.username [])) by (intros []).
  assert (Hlow : lower (form_username (mkCredentials "alice" "secret")) <> "admin"%string)
    by discriminate.
  exact (proj1 (proj2 (register_then_login
                         (fun _ q => ("x7$" ++ q)%string)
                         (fun h q => String.eqb h ("x7$" ++ q))
                         (mkCredentials "alice" "secret") "x7" []
                         Hcheck Hni Hlow)) None).
Defined.

Lemma create_admin_again (generate : string -> string -> string)
    (salt salt' : string) (commit_ok : bool) (users : list User.t) :
  create_admin generate salt' commit_ok (create_admin generate salt true users)
  = create_admin generate salt true users.
Proof.
  assert (H : exists u, user_by_name "admin" (create_admin generate salt true users)
                        = Some u).
  { unfold create_admin. destruct (user_by_name "admin" users) eqn:E; [eauto|].
    eexists. apply user_by_name_inserted; [exact E|reflexivity]. }
  destruct H as [u Hu]. unfold create_admin at 1. now rewrite Hu.
Qed.

(** X23.  The start of the program on an empty table creates the account
    admin as an administrator, and starting again changes nothing, on any
    table.  When checking a password against its own hash succeeds, a login
    as admin with the initial password opens an administrator's session and
    redirects to the admin dashboard, [add_lot] accepts that session, and
    nobody can register the name admin any more. *)
Theorem fresh_install_admin
    (generate : string -> string -> string) (check : string -> string -> bool)
    (salt : string) :
  (forall s p, check (generate s p) p = true) ->
  let users := create_admin generate salt true [] in
  let s := mkSession 1 "admin" true in
  users = [User.mk 1 "admin" (generate salt "admin123"%string) true]
  /\ (forall any salt' commit_ok,
        create_admin generate salt' commit_ok (create_admin generate salt true any)
        = create_admin generate salt true any)
  /\ (forall sess,
        login check (POST (mkCredentials "admin" "admin123")) users sess
        = (Some s, Redirect "admin_dashboard",
           [Message "Logged in successfully!" "success"]))
  /\ (forall now t0 form db,
        serve (add_lot (POST form)) (mkEnv (Some s) now t0 []) db
        = (mkDB (parking_lot db
                 ++ [ParkingLot.mk (next_pk (parking_lot db)) (form_name form)
                       (form_location form) (form_total_spots form)
                       (form_price_per_hour form)])
                (parking_spot db
                 ++ new_spots (next_pk (parking_spot db)) (next_pk (parking_lot db))
                              (Z.to_nat (form_total_spots form)))
                (parking_booking db),
           Redirect "admin_dashboard",
           [Message "Parking lot added successfully!" "success"]))
  /\ (forall password salt' commit_ok,
        register generate (POST (mkCredentials "admin" password)) salt' commit_ok users
        = (users, Redirect "register", [Message "Username already exists" "error"])).
Proof.
  intros Hcheck users s.
  assert (Hu : users = [User.mk 1 "admin" (generate salt "admin123"%string) true])
    by reflexivity.
  split; [exact Hu|]. split; [|split; [|split]].
  - intros any salt' commit_ok. apply create_admin_again.
  - intros sess. rewrite Hu. unfold login, user_by_name. cbn [find form_username
      form_password User.username User.password User.is_admin User.id].
    change (String.eqb "admin" "admin") with true. cbv iota.
    cbn [User.password User.id User.username User.is_admin].
    now rewrite Hcheck.
  - intros now t0 form db.
    exact (add_lot_serve (mkEnv (Some s) now t0 []) db s form eq_refl eq_refl).
  - intros password salt' commit_ok. rewrite Hu. reflexivity.
Qed.

Lemma fresh_install_admin_witness :
  (forall s p : string, String.eqb ("x7$" ++ p) ("x7$" ++ p) = true)
  /\ login (fun h q => String.eqb h ("x7$" ++ q))
           (POST (mkCredentials "admin" "admin123"))
           (create_admin (fun _ q => ("x7$" ++ q)%string) "x7" true []) None
     = (Some (mkSession 1 "admin" true), Redirect "admin_dashboard",
        [Message "Logged in successfully!" "success"]).
Proof.
  split; [intros s p; apply String.eqb_refl|].
  assert (Hcheck : forall s p : string,
             (fun h q => String.eqb h ("x7$" ++ q)) ((fun _ q => ("x7$" ++ q)%string) s p) p
             = true) by (intros s p; apply String.eqb_refl).
  exact (proj1 (proj2 (proj2 (fresh_install_admin
                                (fun _ q => ("x7$" ++ q)%string)
                                (fun h q => String.eqb h ("x7$" ++ q))
                                "x7" Hcheck))) None).
Defined.

(** X24.  A login that fails, because no user has the name or because the
    password check fails, leaves the session as it was and answers "Invalid
    username or password"; [logout] ends any session, after which a view
    under [login_required] turns the request away. *)
Theorem login_failure_and_logout
    (check : string -> string -> bool) (form : Credentials) (users : list User.t)
    (sess : option Session) :
  (forall u, user_by_name (form_username form) users = Some u ->
             check (User.password u) (form_password form) = false) ->
  login check (POST form) users sess
  = (sess, Render "login.html", [Message "Invalid username or password" "error"])
  /\ logout sess = (None, Redirect "login", [Message "Logged out successfully" "success"])
  /\ forall now t0 commits req db,
       serve (book_spot req) (mkEnv (fst (fst (logout sess))) now t0 commits) db
       = (db, Redirect "login", [Message "Please login first" "error"]).
Proof.
  intros Hbad. split; [|split].
  - unfold login. cbv zeta.
    destruct (user_by_name (form_username form) users) as [u|] eqn:E; [|reflexivity].
    now rewrite (Hbad u eq_refl).
  - reflexivity.
  - intros now t0 commits req db. reflexivity.
Qed.

Lemma login_failure_and_logout_witness :
  (forall u, user_by_name "mallory" [User.mk 1 "alice" "x7$secret" false] = Some u ->
             String.eqb (User.password u) ("x7$" ++ "guess") = false)
  /\ login (fun h q => String.eqb h ("x7$" ++ q)) (POST (mkCredentials "mallory" "guess"))
           [User.mk 1 "alice" "x7$secret" false] (Some alice)
     = (Some alice, Render "login.html",
        [Message "Invalid username or password" "error"]).
Proof.
  assert (Hbad : forall u,
             user_by_name (form_username (mkCredentials "mallory" "guess"))
                          [User.mk 1 "alice" "x7$secret" false] = Some u ->
             (fun h q => String.eqb h ("x7$" ++ q)) (User.password u)
               (form_password (mkCredentials "mallory" "guess")) = false)
    by (intros u Hu; discriminate Hu).
  split; [exact Hbad|].
  exact (proj1 (login_failure_and_logout (fun h q => String.eqb h ("x7$" ++ q))
                  (mkCredentials "mallory" "guess")
                  [User.mk 1 "alice" "x7$secret" false] (Some alice) Hbad)).
Defined.

(* ================================================================== *)
(** * Lemmas: spot labels *)
(* ================================================================== *)

Lemma label_number_zeros (k : nat) (s : string) :
  label_number (zeros k ++ s) = label_number s.
Proof.
  induction k as [|k IH]; [reflexivity|]. rewrite <- IH.
  unfold label_number. cbn [zeros append NilEmpty.uint_of_string].
  destruct (NilEmpty.uint_of_string (zeros k ++ s)) as [d|]; reflexivity.
Qed.

Lemma label_number_decimal (n : Z) :
  label_number (decimal n) = Some (Z.to_N n).
Proof.
  unfold label_number, decimal.
  assert (Hnn : N.to_uint (Z.to_N n) <> Decimal.Nil).
  { intros E. pose proof (DecimalN.Unsigned.of_to (Z.to_N n)) as Hof.
    destruct (Z.to_N n) as [|p] eqn:En; [discriminate E|].
    rewrite E in Hof. discriminate Hof. }
  pose proof (NilZero.usu _ Hnn) as Husu.
  unfold NilZero.uint_of_string in Husu.
  destruct (NilZero.string_of_uint (N.to_uint (Z.to_N n))) as [|c s] eqn:Es;
    [discriminate|].
  rewrite Husu. now rewrite DecimalN.Unsigned.of_to.
Qed.

Lemma label_number_format_03d (i : Z) :
  0 <= i -> label_number (format_03d i) = Some (Z.to_N i).
Proof.
  intros Hi. unfold format_03d. destruct (i <? 0) eqn:E; [apply Z.ltb_lt in E; lia|].
  unfold zfill. rewrite label_number_zeros. apply label_number_decimal.
Qed.

(** X25.  A label [f"{i:03d}"] reads back as the number it was made from, so
    different numbers get different labels; the spots [add_lot] creates for a
    lot therefore carry pairwise different labels, whatever their count. *)
Theorem spot_labels_distinct (first_pk lot_id : Z) (n : nat) :
  (forall i, 0 <= i -> label_number (format_03d i) = Some (Z.to_N i))
  /\ (forall i j, 0 <= i -> 0 <= j -> format_03d i = format_03d j -> i = j)
  /\ NoDup (map ParkingSpot.spot_number (new_spots first_pk lot_id n)).
Proof.
  assert (Hinj : forall i j, 0 <= i -> 0 <= j -> format_03d i = format_03d j -> i = j).
  { intros i j Hi Hj E. pose proof (label_number_format_03d i Hi) as Ei.
    rewrite E, (label_number_format_03d j Hj) in Ei. injection Ei as Ei. lia. }
  split; [exact label_number_format_03d|]. split; [exact Hinj|].
  unfold new_spots. rewrite map_map. cbn [ParkingSpot.spot_number].
  generalize 0%nat as base. induction n as [|n IH]; intros base; cbn [seq map].
  - constructor.
  - constructor; [|apply IH]. intros Hin. apply in_map_iff in Hin.
    destruct Hin as (j & Hj & Hin). apply in_seq in Hin.
    apply Hinj in Hj; lia.
Qed.

(* ================================================================== *)
(** * Lemmas: lots without a spot to book *)
(* ================================================================== *)

Lemma no_spot_of_unknown_lot (db : DB) (k : Z) :
  catalog_ok db -> get (parking_lot db) k = None ->
  first_free_spot k (parking_spot db) = None.
Proof.
  intros Hc Hl. destruct (first_free_spot k (parking_spot db)) as [spot|] eqn:Hf;
    [|reflexivity].
  apply first_free_spot_some in Hf. destruct Hf as (Hin & Hlot & _).
  pose proof (spot_has_lot db Hc spot Hin) as Hex. rewrite Hlot in Hex.
  destruct (In_pk_get _ _ Hex) as [l Hget]. congruence.
Qed.

(** X26.  [book_spot] never looks the lot up: in every reachable state a
    booking request that names a lot that does not exist is answered like a
    full lot, with "No spots available in selected lot" and not with error
    404, and changes nothing. *)
Theorem book_spot_unknown_lot
    (env : Env) (db : DB) (s : Session) (form : BookForm) :
  reachable db ->
  session env = Some s ->
  get (parking_lot db) (form_lot_id form) = None ->
  serve (book_spot (POST form)) env db
  = (db, Render "book_spot.html",
     [Message "No spots available in selected lot" "error"]).
Proof.
  intros Hr Hs Hl. rewrite (book_spot_serve _ _ _ s Hs).
  now rewrite (no_spot_of_unknown_lot db _ (reachable_catalog db Hr) Hl).
Qed.

Lemma book_spot_unknown_lot_witness :
  (reachable db_lot_A
   /\ session (at_time (Some alice) noon) = Some alice
   /\ get (parking_lot db_lot_A) 5 = None)
  /\ serve (book_spot (POST (mkBookForm 5 "KA-01"))) (at_time (Some alice) noon) db_lot_A
     = (db_lot_A, Render "book_spot.html",
        [Message "No spots available in selected lot" "error"]).
Proof.
  assert (Hr : reachable db_lot_A).
  { exists [(at_time (Some admin) noon, AddLot (POST lot_A_form))]. reflexivity. }
  split; [repeat split; exact Hr|].
  exact (book_spot_unknown_lot (at_time (Some alice) noon) db_lot_A alice
           (mkBookForm 5 "KA-01") Hr eq_refl eq_refl).
Defined.

(** X27.  [add_lot] takes the spot count as the form gives it: with a count
    of zero or below, and both commits succeeding, the lot is stored with
    that count and without any spot, under the success notice; in a reachable
    state every later booking request for that lot is answered "No spots
    available in selected lot". *)
Theorem add_lot_without_spots
    (env : Env) (db : DB) (s : Session) (form : AddLotForm) :
  reachable db ->
  session env = Some s ->
  sess_is_admin s = true ->
  commits_succeed 2 (commit_results env) = true ->
  form_total_spots form <= 0 ->
  let lot :=
    ParkingLot.mk (next_pk (parking_lot db)) (form_name form) (form_location form)
                  (form_total_spots form) (form_price_per_hour form) in
  let db' := mkDB (parking_lot db ++ [lot]) (parking_spot db) (parking_booking db) in
  serve (add_lot (POST form)) env db
  = (db', Redirect "admin_dashboard",
     [Message "Parking lot added successfully!" "success"])
  /\ forall env' s' form',
       session env' = Some s' ->
       form_lot_id form' = ParkingLot.id lot ->
       serve (book_spot (POST form')) env' db'
       = (db', Render "book_spot.html",
          [Message "No spots available in selected lot" "error"]).
Proof.
  intros Hr Hs Hadm Hc Hn lot db'. split.
  - rewrite (add_lot_serve env db s form Hs Hadm). cbv zeta.
    replace (Z.to_nat (form_total_spots form)) with 0%nat by lia.
    unfold new_spots. cbn [seq map]. rewrite app_nil_r.
    unfold commits_succeed in Hc.
    destruct (commit_results env) as [|[|] [|[|] rest]]; cbn in Hc;
      try discriminate; reflexivity.
  - intros env' s' form' Hs' Hlot. rewrite (book_spot_serve _ _ _ s' Hs'), Hlot.
    destruct (first_free_spot (ParkingLot.id lot) (parking_spot db')) as [spot|] eqn:Hf;
      [exfalso|reflexivity].
    apply first_free_spot_some in Hf. destruct Hf as (Hin & Hk & _).
    cbn [db' parking_spot] in Hin.
    pose proof (spot_has_lot db (reachable_catalog db Hr) spot Hin) as Hex.
    apply map_pk_bound in Hex. cbn [lot ParkingLot.id] in Hk. lia.
Qed.

Lemma add_lot_without_spots_witness :
  (reachable empty_db
   /\ session (at_time (Some admin) noon) = Some admin
   /\ sess_is_admin admin = true
   /\ commits_succeed 2 (commit_results (at_time (Some admin) noon)) = true
   /\ -3 <= 0)
  /\ serve (add_lot (POST (mkAddLotForm "B" "Back Lane" (-3) (FFin 5))))
           (at_time (Some admin) noon) empty_db
     = (mkDB [ParkingLot.mk 1 "B" "Back Lane" (-3) (FFin 5)] [] [],
        Redirect "admin_dashboard",
        [Message "Parking lot added successfully!" "success"]).
Proof.
  assert (Hr : reachable empty_db) by (exists []; reflexivity).
  assert (Hn : form_total_spots (mkAddLotForm "B" "Back Lane" (-3) (FFin 5)) <= 0)
    by (cbn; lia).
  split; [repeat split; try exact Hr; lia|].
  exact (proj1 (add_lot_without_spots (at_time (Some admin) noon) empty_db admin
                  (mkAddLotForm "B" "Back Lane" (-3) (FFin 5))
                  Hr eq_refl eq_refl eq_refl Hn)).
Defined.
